(** * Property Environmental Report: a shallow embedding of [src/main.py]

    The development follows the source file top to bottom: Python strings and
    the [UNIT_PATTERNS] regular expression, the float helpers ([haversine],
    [cardinal_direction], [_bounding_box]), the three provider calls
    ([geocode_address], [fetch_epa_echo], [fetch_usgs]) and the two
    endpoints [geocode] and [report].  Definitions come first, theorems
    after them.

    Conventions.
    - A Python [str] is a [string]; an [ascii] stands for the code point of
      the same number, so the model covers text whose code points are below
      256.
    - A Python [float] is a primitive binary64 [float].
    - A Python exception is a value of [exn]; a call that may raise returns a
      [result]. *)

From Stdlib Require Import ZArith List String Ascii Bool Lia.
From Stdlib Require Import Sorting.Sorted Sorting.Permutation.
From Stdlib Require Import Floats.
Import ListNotations.

Set Warnings "-inexact-float,-register-all".

Local Open Scope string_scope.
Local Open Scope list_scope.

(** ** Python strings *)

Module PyStr.

Definition code (c : ascii) : N := N_of_ascii c.

(** [str.isspace] on one character, which is also what [\s] matches in a
    [str] pattern: TAB..CR, FS..US, SPACE, NEL and NBSP below 256. *)
Definition is_space (c : ascii) : bool :=
  let n := code c in
  ((9 <=? n) && (n <=? 13) || (28 <=? n) && (n <=? 32)
   || (n =? 133) || (n =? 160))%N.

Definition is_digit (c : ascii) : bool :=
  let n := code c in ((48 <=? n) && (n <=? 57))%N.

Definition is_upper (c : ascii) : bool :=
  let n := code c in ((65 <=? n) && (n <=? 90))%N.

Definition is_lower (c : ascii) : bool :=
  let n := code c in ((97 <=? n) && (n <=? 122))%N.

Definition is_alpha (c : ascii) : bool := is_upper c || is_lower c.

(** Lower case of an ASCII letter; every other character below 256 is left
    alone (none of them folds onto an ASCII letter).  Characters beyond 256
    are no [ascii]: the long s U+017F, the Kelvin sign U+212A and the two
    Turkish letters U+0130 and U+0131, which Python folds onto s, k and i,
    are outside the texts of this development. *)
Definition lower (c : ascii) : ascii :=
  if is_upper c then ascii_of_N (code c + 32) else c.

Fixpoint dropwhile (p : ascii -> bool) (l : list ascii) : list ascii :=
  match l with
  | [] => []
  | c :: l' => if p c then dropwhile p l' else l
  end.

Definition lstrip_by (p : ascii -> bool) (l : list ascii) : list ascii :=
  dropwhile p l.

Definition rstrip_by (p : ascii -> bool) (l : list ascii) : list ascii :=
  rev (dropwhile p (rev l)).

(** [s.strip()] *)
Definition strip (l : list ascii) : list ascii :=
  rstrip_by is_space (lstrip_by is_space l).

(** [s.rstrip(",")] *)
Definition rstrip_comma (l : list ascii) : list ascii :=
  rstrip_by (fun c => Ascii.eqb c ",") l.

Definition of_string : string -> list ascii := list_ascii_of_string.
Definition to_string : list ascii -> string := string_of_list_ascii.

(** The line boundaries of [str.splitlines] below 256: LF, VT, FF, CR, FS,
    GS, RS and NEL; CR LF counts once. *)
Definition is_linebreak (c : ascii) : bool :=
  let n := code c in
  ((10 <=? n) && (n <=? 13) || (28 <=? n) && (n <=? 30) || (n =? 133))%N.

(** [cur] holds the characters of the line being read, last one first. *)
Fixpoint splitlines_from (cur : list ascii) (l : list ascii) : list (list ascii) :=
  match l with
  | [] => match cur with [] => [] | _ => [rev cur] end
  | c :: l' =>
      if is_linebreak c then
        match l' with
        | d :: l'' =>
            if Ascii.eqb c "013" && Ascii.eqb d "010"
            then rev cur :: splitlines_from [] l''
            else rev cur :: splitlines_from [] l'
        | [] => [rev cur]
        end
      else splitlines_from (c :: cur) l'
  end.

(** [s.splitlines()] *)
Definition splitlines (l : list ascii) : list (list ascii) := splitlines_from [] l.

Fixpoint split_from (sep : ascii) (cur : list ascii) (l : list ascii) : list (list ascii) :=
  match l with
  | [] => [rev cur]
  | c :: l' =>
      if Ascii.eqb c sep then rev cur :: split_from sep [] l'
      else split_from sep (c :: cur) l'
  end.

(** [s.split(sep)] for a separator of one character. *)
Definition split (sep : ascii) (l : list ascii) : list (list ascii) := split_from sep [] l.

(** [s.startswith(c)] for one character. *)
Definition startswith (c : ascii) (l : list ascii) : bool :=
  match l with
  | d :: _ => Ascii.eqb d c
  | [] => false
  end.

End PyStr.

(** ** Regular expressions, as far as [UNIT_PATTERNS] uses them *)

Module Re.

Inductive regex : Type :=
| Chr (p : ascii -> bool)
| Eps
| Cat (r1 r2 : regex)
| Alt (r1 r2 : regex)
| Star (r : regex)
| Ahead (r : regex)
| Eos.

Definition Plus (r : regex) : regex := Cat r (Star r).
Definition Opt (r : regex) : regex := Alt r Eps.

(** The greedy loop of [Star]: [m] matches the body once.  A turn that
    consumes nothing ends the loop, as it does in [re]; [n] bounds the number
    of turns by the length of the text. *)
Fixpoint star_loop
    (m : list ascii -> (list ascii -> option (list ascii)) -> option (list ascii))
    (k : list ascii -> option (list ascii)) (n : nat) (s : list ascii)
    {struct n} : option (list ascii) :=
  match n with
  | O => k s
  | S n' =>
      match m s (fun s1 => if (List.length s1 <? List.length s)%nat
                           then star_loop m k n' s1 else None) with
      | Some out => Some out
      | None => k s
      end
  end.

(** Backtracking matcher in continuation-passing style.  [rmatch r s k] tries
    [r] at the start of [s] and hands what is left to [k]; alternatives are
    tried left to right and [Star] is greedy, as in [re].  The answer is the
    text left after the first successful way to match.  [Eos] is [$]: the end
    of the text, or the place before a newline that ends it. *)
Fixpoint rmatch (r : regex) (s : list ascii)
    (k : list ascii -> option (list ascii)) : option (list ascii) :=
  match r with
  | Chr p =>
      match s with
      | c :: s' => if p c then k s' else None
      | [] => None
      end
  | Eps => k s
  | Cat r1 r2 => rmatch r1 s (fun s1 => rmatch r2 s1 k)
  | Alt r1 r2 =>
      match rmatch r1 s k with
      | Some out => Some out
      | None => rmatch r2 s k
      end
  | Star r1 => star_loop (rmatch r1) k (List.length s) s
  | Ahead r1 =>
      match rmatch r1 s (fun _ => Some []) with
      | Some _ => k s
      | None => None
      end
  | Eos =>
      match s with
      | [] => k s
      | [c] => if Ascii.eqb c "010" then k s else None
      | _ => None
      end
  end.

(** [pattern.match(s)] and [pattern.search] at one place: what is left of
    [s] after the match. *)
Definition match_prefix (r : regex) (s : list ascii) : option (list ascii) :=
  rmatch r s (fun rest => Some rest).

(** [pattern.sub("", s)]: non-overlapping matches, leftmost first, each one
    deleted; a position where the pattern does not match (or matches the
    empty string) keeps its character. *)
Fixpoint sub_empty_fuel (fuel : nat) (r : regex) (s : list ascii) : list ascii :=
  match fuel with
  | O => s
  | S fuel' =>
      let keep :=
        match s with
        | [] => []
        | c :: s' => c :: sub_empty_fuel fuel' r s'
        end in
      match match_prefix r s with
      | Some rest =>
          if (List.length rest <? List.length s)%nat
          then sub_empty_fuel fuel' r rest else keep
      | None => keep
      end
  end.

Definition sub_empty (r : regex) (s : list ascii) : list ascii :=
  sub_empty_fuel (S (List.length s)) r s.

(** A literal under [re.IGNORECASE], on characters below code point 256:
    there a letter is matched by its two ASCII cases and by nothing else. *)
Definition chr_ci (c : ascii) : regex :=
  Chr (fun x => Ascii.eqb (PyStr.lower x) (PyStr.lower c)).

Fixpoint lit_ci (l : list ascii) : regex :=
  match l with
  | [] => Eps
  | [c] => chr_ci c
  | c :: l' => Cat (chr_ci c) (lit_ci l')
  end.

Fixpoint alts (rs : list regex) : regex :=
  match rs with
  | [] => Chr (fun _ => false)
  | [r] => r
  | r :: rs' => Alt r (alts rs')
  end.

End Re.

(** ** Helpers of [src/main.py] *)

Definition space : Re.regex := Re.Chr PyStr.is_space.
Definition digit : Re.regex := Re.Chr PyStr.is_digit.
Definition letter : Re.regex := Re.Chr PyStr.is_alpha.

(** The labels of the second alternative, in the order of the source. *)
Definition unit_labels : list string :=
  ["Suite"; "Ste"; "Unit"; "Apt"; "Apartment"; "Room"; "Rm"; "Floor"; "Fl";
   "Bldg"; "Building"].

(** [[.\s:]] *)
Definition is_label_sep (c : ascii) : bool :=
  Ascii.eqb c "." || PyStr.is_space c || Ascii.eqb c ":".

(** [[A-Za-z0-9-]] *)
Definition is_unit_value (c : ascii) : bool :=
  PyStr.is_alpha c || PyStr.is_digit c || Ascii.eqb c "-".

(** [UNIT_PATTERNS], compiled with [re.IGNORECASE | re.VERBOSE]. *)
Definition UNIT_PATTERNS : Re.regex :=
  Re.Cat (Re.Star space)
    (Re.Cat
       (Re.Alt
          (Re.Cat (Re.Chr (fun c => Ascii.eqb c "#"))
             (Re.Cat (Re.Star space)
                (Re.Cat (Re.Plus digit) (Re.Opt letter))))
          (Re.Cat (Re.alts (map (fun l => Re.lit_ci (PyStr.of_string l)) unit_labels))
             (Re.Cat (Re.Plus (Re.Chr is_label_sep))
                (Re.Plus (Re.Chr is_unit_value)))))
       (Re.Ahead
          (Re.Alt
             (Re.Cat (Re.Star space) (Re.Chr (fun c => Ascii.eqb c ",")))
             (Re.Cat (Re.Star space) Re.Eos)))).

(** [strip_unit]: [UNIT_PATTERNS.sub("", address).strip().rstrip(",")]. *)
Definition strip_unit (address : string) : string :=
  PyStr.to_string
    (PyStr.rstrip_comma
       (PyStr.strip (Re.sub_empty UNIT_PATTERNS (PyStr.of_string address)))).

(** ** Python values, exceptions and results *)

(** What [resp.json()] can return, and what the provider dictionaries hold. *)
Inductive pyval : Type :=
| PNone
| PBool (b : bool)
| PInt (z : Z)
| PFloat (f : float)
| PStr (s : string)
| PList (l : list pyval)
| PDict (d : list (string * pyval)).

(** The exceptions the program can meet.  [HTTPError] stands for every
    [httpx.HTTPError] other than a timeout and carries [str(exc)];
    [json.JSONDecodeError] is a [ValueError]. *)
Inductive exn : Type :=
| HTTPException (status_code : Z) (detail : string)
| TimeoutException
| HTTPError (msg : string)
| ValueError
| TypeError
| AttributeError
| KeyError
| IndexError
| OverflowError
| ValidationError.

Inductive result (A : Type) : Type :=
| Ret (a : A)
| Raise (e : exn).

Arguments Ret {A} a.
Arguments Raise {A} e.

Definition bind {A B : Type} (c : result A) (k : A -> result B) : result B :=
  match c with
  | Ret a => k a
  | Raise e => Raise e
  end.

Declare Scope py_scope.
Delimit Scope py_scope with py.
Notation "x <- c ;; k" := (bind c (fun x => k))
  (at level 61, c at next level, right associativity) : py_scope.
Notation "' p <- c ;; k" := (bind c (fun x => let 'p := x in k))
  (at level 61, p pattern, c at next level, right associativity) : py_scope.
Local Open Scope py_scope.

(** [try: c  except (ValueError, TypeError): h] and the like. *)
Definition try_except {A : Type} (c : result A) (caught : exn -> bool)
    (h : result A) : result A :=
  match c with
  | Ret a => Ret a
  | Raise e => if caught e then h else Raise e
  end.

(** ** Floats *)

Module PyFloat.

Definition is_finite (x : float) : bool :=
  negb (PrimFloat.is_nan x) && negb (PrimFloat.is_infinity x).

(** [math.pi] and the two constants of [math.radians] and [math.degrees]. *)
Definition pi : float := 0x1.921fb54442d18p+1%float.
Definition degToRad : float := (pi / 180)%float.
Definition radToDeg : float := (180 / pi)%float.

Definition radians (x : float) : float := (x * degToRad)%float.
Definition degrees (x : float) : float := (x * radToDeg)%float.

(** [copysign(a, s)] *)
Definition copysign (a s : float) : float :=
  if PrimFloat.get_sign s then (- PrimFloat.abs a)%float else PrimFloat.abs a.

(** The wrapper [math_1] of CPython's math module around a libm function of
    one argument (with [can_overflow = 0], as for [sin], [cos] and [sqrt]):
    a NaN out of a number, or an infinity out of a finite number, is a
    [ValueError]. *)
Definition math_1 (func : float -> float) (x : float) : result float :=
  let r := func x in
  if PrimFloat.is_nan r && negb (PrimFloat.is_nan x) then Raise ValueError
  else if PrimFloat.is_infinity r && is_finite x then Raise ValueError
  else Ret r.

(** [math.sqrt]: the correctly rounded square root under [math_1]. *)
Definition math_sqrt (x : float) : result float := math_1 PrimFloat.sqrt x.

(** [m_atan2]: the special cases CPython settles itself before it calls the
    platform's [atan2]. *)
Definition m_atan2 (libm_atan2 : float -> float -> float) (y x : float) : float :=
  if PrimFloat.is_nan x || PrimFloat.is_nan y then PrimFloat.nan
  else if PrimFloat.is_infinity y then
    if PrimFloat.is_infinity x then
      if PrimFloat.get_sign x then copysign (0.75 * pi) y
      else copysign (0.25 * pi) y
    else copysign (0.5 * pi) y
  else if PrimFloat.is_infinity x || (y =? 0)%float then
    if PrimFloat.get_sign x then copysign pi y
    else copysign 0 y
  else libm_atan2 y x.

(** The wrapper [math_2] around it. *)
Definition math_2 (func : float -> float -> float) (x y : float) : result float :=
  let r := func x y in
  if PrimFloat.is_nan r then
    if negb (PrimFloat.is_nan x) && negb (PrimFloat.is_nan y)
    then Raise ValueError else Ret r
  else if PrimFloat.is_infinity r then
    if is_finite x && is_finite y then Raise OverflowError else Ret r
  else Ret r.

(** C's [fmod] on the specification side: the exact remainder, with the
    sign of the dividend. *)
Definition SFfmod (x y : spec_float) : spec_float :=
  match x, y with
  | S754_nan, _ | _, S754_nan => S754_nan
  | S754_infinity _, _ => S754_nan
  | _, S754_zero _ => S754_nan
  | S754_zero _, _ => x
  | _, S754_infinity _ => x
  | S754_finite sx mx ex, S754_finite _ my ey =>
      let ez := Z.min ex ey in
      let X := Zpos (fst (shl_align mx ex ez)) in
      let Y := Zpos (fst (shl_align my ey ez)) in
      binary_normalize prec emax (cond_Zopp sx (Z.rem X Y)) ez sx
  end.

Definition fmod (x y : float) : float := SF2Prim (SFfmod (Prim2SF x) (Prim2SF y)).

(** [vx % wx] on floats ([float_rem]); the divisor of the program is the
    constant 360, so the [ZeroDivisionError] branch is not modelled. *)
Definition float_rem (vx wx : float) : float :=
  let md := fmod vx wx in
  if (md =? 0)%float then copysign 0 wx
  else if negb (Bool.eqb (wx <? 0)%float (md <? 0)%float) then (md + wx)%float
  else md.

(** Round half to even of [m / 2^k], for [k > 0]. *)
Definition round_half_even_shift (m : Z) (k : Z) : Z :=
  let q := Z.shiftr m k in
  let r := Z.land m (Z.ones k) in
  let half := Z.shiftl 1 (k - 1) in
  match Z.compare r half with
  | Lt => q
  | Gt => q + 1
  | Eq => if Z.even q then q else q + 1
  end.

(** [round(x)] with no [ndigits]: the nearest [int], ties to even; NaN is a
    [ValueError] and an infinity an [OverflowError]. *)
Definition round_int (x : float) : result Z :=
  match Prim2SF x with
  | S754_nan => Raise ValueError
  | S754_infinity _ => Raise OverflowError
  | S754_zero _ => Ret 0%Z
  | S754_finite s m e =>
      let a := match e with
               | Zneg k => round_half_even_shift (Zpos m) (Zpos k)
               | _ => Z.shiftl (Zpos m) e
               end in
      Ret (if s then (- a)%Z else a)
  end.

(** [float(n)] for an [int]: the nearest float, [OverflowError] beyond the
    range. *)
Definition of_int (z : Z) : result float :=
  let r := SF2Prim (binary_normalize prec emax z 0 false) in
  if PrimFloat.is_infinity r then Raise OverflowError else Ret r.

(** [max(a, b)] and [min(a, b)] of the builtins: the first argument stays
    unless the second one beats it. *)
Definition py_max (a b : float) : float := if (a <? b)%float then b else a.
Definition py_min (a b : float) : float := if (b <? a)%float then b else a.

End PyFloat.

(** ** What the platform supplies

    The C library's [sin], [cos], [atan2] and [pow], and three builtins whose
    algorithms are CPython's own: [round(x, ndigits)] on a finite float,
    [float(s)] on a string and [str(v)] on a value that is no string. *)
Record runtime : Type := {
  libm_sin : float -> float;
  libm_cos : float -> float;
  libm_atan2 : float -> float -> float;
  libm_pow : float -> float -> float;
  round_ndigits : float -> Z -> float;
  float_of_str : string -> option float;
  str_of_value : pyval -> string
}.

Section Helpers.

Variable rt : runtime.

Definition math_sin (x : float) : result float := PyFloat.math_1 (libm_sin rt) x.
Definition math_cos (x : float) : result float := PyFloat.math_1 (libm_cos rt) x.

Definition math_atan2 (y x : float) : result float :=
  PyFloat.math_2 (PyFloat.m_atan2 (libm_atan2 rt)) y x.

(** [iv ** 2] on a float ([float_pow] with [iw = 2.0]): zero, one, NaN and
    the infinities are settled first, a negative base is negated, and the
    platform's [pow] runs on what is left; an infinite result is an
    [OverflowError]. *)
Definition float_pow2 (iv : float) : result float :=
  if PrimFloat.is_nan iv then Ret iv
  else if PrimFloat.is_infinity iv then Ret (PrimFloat.abs iv)
  else if (iv =? 0)%float then Ret 0%float
  else
    let iv := if (iv <? 0)%float then (- iv)%float else iv in
    if (iv =? 1)%float then Ret 1%float
    else
      let ix := libm_pow rt iv 2 in
      if PrimFloat.is_infinity ix then Raise OverflowError else Ret ix.

(** [round(x, ndigits)]: NaN and the infinities round to themselves. *)
Definition py_round (x : float) (ndigits : Z) : float :=
  if PyFloat.is_finite x then round_ndigits rt x ndigits else x.

(** [haversine] *)
Definition haversine (lat1 lon1 lat2 lon2 : float) : result float :=
  let R := 3958.8%float in
  let phi1 := PyFloat.radians lat1 in
  let phi2 := PyFloat.radians lat2 in
  let dphi := PyFloat.radians (lat2 - lat1) in
  let dlam := PyFloat.radians (lon2 - lon1) in
  s1 <- math_sin (dphi / 2) ;;
  p1 <- float_pow2 s1 ;;
  c1 <- math_cos phi1 ;;
  c2 <- math_cos phi2 ;;
  s2 <- math_sin (dlam / 2) ;;
  p2 <- float_pow2 s2 ;;
  let a := (p1 + c1 * c2 * p2)%float in
  ra <- PyFloat.math_sqrt a ;;
  rb <- PyFloat.math_sqrt (1 - a) ;;
  t <- math_atan2 ra rb ;;
  let c := (2 * t)%float in
  Ret (py_round (R * c) 2).

Definition directions : list string :=
  ["N"; "NE"; "E"; "SE"; "S"; "SW"; "W"; "NW"].

(** [cardinal_direction] *)
Definition cardinal_direction (lat1 lon1 lat2 lon2 : float) : result string :=
  let dlat := (lat2 - lat1)%float in
  let dlon := (lon2 - lon1)%float in
  t <- math_atan2 dlon dlat ;;
  let angle := PyFloat.degrees t in
  let angle := PyFloat.float_rem (angle + 360) 360 in
  n <- PyFloat.round_int (angle / 45) ;;
  let index := (n mod 8)%Z in
  Ret (nth (Z.to_nat index) directions "N").

(** The four numbers of [_bounding_box], in the order west, south, east,
    north. *)
Record bbox : Type := {
  west : float;
  south : float;
  east : float;
  north : float
}.

Definition lat_delta (radius_miles : float) : float := (radius_miles / 69.0)%float.

Definition lon_delta (cos_lat radius_miles : float) : float :=
  if (1e-6 <? cos_lat)%float then (radius_miles / (69.0 * cos_lat))%float
  else 180.0%float.

Definition bounding_box_values (lat lon radius_miles : float) : result bbox :=
  let dlat := lat_delta radius_miles in
  cos_lat <- math_cos (PyFloat.radians lat) ;;
  let dlon := lon_delta cos_lat radius_miles in
  Ret {| west := py_round (PyFloat.py_max (lon - dlon) (-180.0)) 6;
         south := py_round (PyFloat.py_max (lat - dlat) (-90.0)) 6;
         east := py_round (PyFloat.py_min (lon + dlon) 180.0) 6;
         north := py_round (PyFloat.py_min (lat + dlat) 90.0) 6 |}.

(** [_bounding_box]: the four numbers printed with commas between them. *)
Definition _bounding_box (lat lon radius_miles : float) : result string :=
  b <- bounding_box_values lat lon radius_miles ;;
  let p x := str_of_value rt (PFloat x) in
  Ret (p (west b) ++ "," ++ p (south b) ++ "," ++ p (east b) ++ "," ++ p (north b))%string.

End Helpers.

(** ** Python values at work *)

Module Py.

(** [bool(v)] *)
Definition truthy (v : pyval) : bool :=
  match v with
  | PNone => false
  | PBool b => b
  | PInt z => negb (z =? 0)%Z
  | PFloat f => negb (f =? 0)%float
  | PStr s => negb (s =? "")%string
  | PList l => match l with [] => false | _ => true end
  | PDict d => match d with [] => false | _ => true end
  end.

Fixpoint lookup (k : string) (d : list (string * pyval)) : option pyval :=
  match d with
  | [] => None
  | (k', v) :: d' => if (k =? k')%string then Some v else lookup k d'
  end.

(** [v.get(k, default)]: only a [dict] has the method. *)
Definition get (v : pyval) (k : string) (default : pyval) : result pyval :=
  match v with
  | PDict d => Ret (match lookup k d with Some x => x | None => default end)
  | _ => Raise AttributeError
  end.

(** [v[k]] with a string key. *)
Definition getitem (v : pyval) (k : string) : result pyval :=
  match v with
  | PDict d => match lookup k d with Some x => Ret x | None => Raise KeyError end
  | _ => Raise TypeError
  end.

(** [v[0]] *)
Definition first (v : pyval) : result pyval :=
  match v with
  | PList (x :: _) => Ret x
  | PList [] => Raise IndexError
  | PStr (String c _) => Ret (PStr (String c EmptyString))
  | PStr EmptyString => Raise IndexError
  | PDict _ => Raise KeyError
  | _ => Raise TypeError
  end.

(** [for x in v]: the items a loop over [v] visits. *)
Definition iter (v : pyval) : result (list pyval) :=
  match v with
  | PList l => Ret l
  | PDict d => Ret (map (fun kv => PStr (fst kv)) d)
  | PStr s => Ret (map (fun c => PStr (String c EmptyString)) (PyStr.of_string s))
  | _ => Raise TypeError
  end.

(** [v != s] for a string literal [s]. *)
Definition ne_str (v : pyval) (s : string) : bool :=
  match v with
  | PStr x => negb (x =? s)%string
  | _ => true
  end.

End Py.

Section Program.

Variable rt : runtime.

(** [float(v)] *)
Definition py_float (v : pyval) : result float :=
  match v with
  | PFloat f => Ret f
  | PInt z => PyFloat.of_int z
  | PBool b => Ret (if b then 1%float else 0%float)
  | PStr s => match float_of_str rt s with
              | Some f => Ret f
              | None => Raise ValueError
              end
  | _ => Raise TypeError
  end.

(** A number met in arithmetic: an [int] is converted, anything that is no
    number is a [TypeError]. *)
Definition as_number (v : pyval) : result float :=
  match v with
  | PFloat f => Ret f
  | PInt z => PyFloat.of_int z
  | PBool b => Ret (if b then 1%float else 0%float)
  | _ => Raise TypeError
  end.

(** [f"{v}"] *)
Definition fmt (v : pyval) : string :=
  match v with
  | PStr s => s
  | _ => str_of_value rt v
  end.

(** *** The HTTP client

    What [client.get] did: it raised, or it returned a response.  [reason] is
    the text of the [HTTPStatusError] that [raise_for_status] builds, and
    [json] is [None] when the body is no JSON document. *)
Record response : Type := {
  status_code : Z;
  reason : string;
  text : string;
  json : option pyval
}.

Inductive reply : Type :=
| Fails (e : exn)
| Responds (r : response).

Definition raise_for_status (r : response) : result unit :=
  if ((200 <=? status_code r) && (status_code r <? 300))%Z then Ret tt
  else Raise (HTTPError (reason r)).

Definition resp_json (r : response) : result pyval :=
  match json r with
  | Some v => Ret v
  | None => Raise ValueError
  end.

(** *** [geocode_address] *)

Record geocoded : Type := {
  original_address : string;
  cleaned_address : string;
  geo_latitude : float;
  geo_longitude : float;
  display_name : pyval
}.

Definition geocode_address (address : string) (nominatim : reply) : result geocoded :=
  let cleaned := strip_unit address in
  if (cleaned =? "")%string then
    Raise (HTTPException 400
      "Address became empty after removing unit/suite number. Please provide a full street address.")
  else
    match nominatim with
    | Fails e => Raise e
    | Responds resp =>
        _ <- raise_for_status resp ;;
        results <- resp_json resp ;;
        if negb (Py.truthy results) then
          Raise (HTTPException 404 ("Could not geocode address: " ++ cleaned)%string)
        else
          hit <- Py.first results ;;
          vlat <- Py.getitem hit "lat" ;;
          flat <- py_float vlat ;;
          vlon <- Py.getitem hit "lon" ;;
          flon <- py_float vlon ;;
          dn <- Py.get hit "display_name" (PStr "") ;;
          Ret {| original_address := address;
                 cleaned_address := cleaned;
                 geo_latitude := flat;
                 geo_longitude := flon;
                 display_name := dn |}
    end.

(** *** The raw records both adapters build *)

Record raw : Type := {
  name : pyval;
  registry_id : pyval;
  latitude : pyval;
  longitude : pyval;
  source : string
}.

(** *** [fetch_epa_echo] *)

(** The first [try] block: any exception at all gives up on the provider. *)
Definition epa_data (echo : reply) : option pyval :=
  match echo with
  | Fails _ => None
  | Responds resp =>
      match (_ <- raise_for_status resp ;; resp_json resp) with
      | Ret data => Some data
      | Raise _ => None
      end
  end.

(** [a or b], with [b] evaluated only when it is needed. *)
Definition or_else (a : pyval) (b : result pyval) : result pyval :=
  if Py.truthy a then Ret a else b.

Definition epa_rows (data : pyval) : result pyval :=
  results <- Py.get data "Results" (PDict []) ;;
  facs <- Py.get results "Facilities" (PList []) ;;
  or_else facs
    (results' <- Py.get data "Results" (PDict []) ;;
     lst <- Py.get results' "FacilityList" (PList []) ;;
     or_else lst (Ret (PList []))).

(** [row.get(k1, row.get(k2, default))]: the inner call runs first. *)
Definition get2 (row : pyval) (k1 k2 : string) (default : pyval) : result pyval :=
  inner <- Py.get row k2 default ;;
  Py.get row k1 inner.

Definition caught_value_type (e : exn) : bool :=
  match e with ValueError | TypeError => true | _ => false end.

(** One turn of the loop over [rows]: [Ret None] is [continue]. *)
Definition epa_row (row : pyval) : result (option raw) :=
  try_except
    (vlat <- get2 row "Lat83" "FacLat" (PInt 0) ;;
     fac_lat <- py_float vlat ;;
     vlon <- get2 row "Long83" "FacLong" (PInt 0) ;;
     fac_lon <- py_float vlon ;;
     if (fac_lat =? 0)%float && (fac_lon =? 0)%float then Ret None
     else
       nm <- get2 row "FacName" "Name" (PStr "Unknown Facility") ;;
       rid <- get2 row "RegistryID" "FacId" (PStr "N/A") ;;
       Ret (Some {| name := nm; registry_id := rid;
                    latitude := PFloat fac_lat; longitude := PFloat fac_lon;
                    source := "EPA_ECHO" |}))
    caught_value_type (Ret None).

Fixpoint epa_loop (rows : list pyval) (facilities : list raw) : result (list raw) :=
  match rows with
  | [] => Ret facilities
  | row :: rows' =>
      r <- epa_row row ;;
      epa_loop rows' (match r with Some f => facilities ++ [f] | None => facilities end)
  end.

Definition fetch_epa_echo (lat lon radius_miles : float) (echo : reply) : result (list raw) :=
  match epa_data echo with
  | None => Ret []
  | Some data =>
      rows <- epa_rows data ;;
      items <- Py.iter rows ;;
      epa_loop items []
  end.

(** *** [fetch_usgs] *)

(** [re.match(r"^\d+[sdna]$", s)] as a truth value. *)
Definition is_sdna (c : ascii) : bool :=
  Ascii.eqb c "s" || Ascii.eqb c "d" || Ascii.eqb c "n" || Ascii.eqb c "a".

Definition dtype_code : Re.regex :=
  Re.Cat (Re.Plus digit) (Re.Cat (Re.Chr is_sdna) Re.Eos).

Definition is_dtype_code (s : list ascii) : bool :=
  match Re.match_prefix dtype_code s with
  | Some _ => true
  | None => false
  end.

(** [all(re.match(...) for p in parts if p.strip())] *)
Definition is_dtype_row (parts : list (list ascii)) : bool :=
  forallb (fun p => is_dtype_code (PyStr.strip p))
    (filter (fun p => match PyStr.strip p with [] => false | _ => true end) parts).

Definition float_of_text (s : list ascii) : result float :=
  match float_of_str rt (PyStr.to_string s) with
  | Some f => Ret f
  | None => Raise ValueError
  end.

Definition caught_value_index (e : exn) : bool :=
  match e with ValueError | IndexError => true | _ => false end.

(** The body of the loop once a line has passed the three filters:
    [parts] has five fields or more. *)
Definition usgs_site (parts : list (list ascii)) : result (option raw) :=
  try_except
    (let site_name := nth 2 parts [] in
     site_lat <- float_of_text (nth 4 parts []) ;;
     site_lon <- (if (5 <? List.length parts)%nat
                  then (f <- float_of_text (nth 5 parts []) ;; Ret (PFloat f))
                  else Ret (PInt 0)) ;;
     lon_is_zero <- (match site_lon with
                     | PFloat f => Ret (f =? 0)%float
                     | _ => Ret true
                     end) ;;
     if (site_lat =? 0)%float && lon_is_zero then Ret None
     else
       Ret (Some {| name := PStr (PyStr.to_string (PyStr.strip site_name));
                    registry_id := PStr (PyStr.to_string (PyStr.strip (nth 1 parts [])));
                    latitude := PFloat site_lat;
                    longitude := site_lon;
                    source := "USGS" |}))
    caught_value_index (Ret None).

(** The loop over the lines, with its flag [header_seen]. *)
Fixpoint usgs_loop (lines : list (list ascii)) (header_seen : bool)
    (sites : list raw) : result (list raw) :=
  match lines with
  | [] => Ret sites
  | line :: lines' =>
      if PyStr.startswith "#" line then usgs_loop lines' header_seen sites
      else if negb header_seen then usgs_loop lines' true sites
      else
        let parts := PyStr.split "009" line in
        if is_dtype_row parts then usgs_loop lines' header_seen sites
        else if (List.length parts <? 5)%nat then usgs_loop lines' header_seen sites
        else
          r <- usgs_site parts ;;
          usgs_loop lines' header_seen
            (match r with Some f => sites ++ [f] | None => sites end)
  end.

(** The [try] block of [fetch_usgs]: [None] when anything was raised. *)
Definition usgs_text (nwis : reply) : option string :=
  match nwis with
  | Fails _ => None
  | Responds resp =>
      match raise_for_status resp with
      | Ret _ => Some (text resp)
      | Raise _ => None
      end
  end.

(** [fetch_usgs]; the bounding box is computed while the request is being
    built, before the [try]. *)
Definition fetch_usgs (lat lon radius_miles : float) (nwis : reply) : result (list raw) :=
  _ <- _bounding_box rt lat lon radius_miles ;;
  match usgs_text nwis with
  | None => Ret []
  | Some t => usgs_loop (PyStr.splitlines (PyStr.of_string t)) false []
  end.

(** *** The [/report] endpoint *)

Record ReportRequest : Type := {
  address : string;
  radius_miles : float
}.

Record Facility : Type := {
  fac_name : string;
  fac_registry_id : string;
  fac_latitude : float;
  fac_longitude : float;
  distance_miles : float;
  direction : string;
  fac_source : string
}.

Record ReportResponse : Type := {
  rep_address : string;
  rep_latitude : float;
  rep_longitude : float;
  rep_radius_miles : float;
  total_findings : Z;
  facilities : list Facility
}.

(** Validation of a [ReportRequest]: [min_length=1], the validator
    [address_not_blank] (which also strips the address), and [gt=0, le=50]
    on the radius. *)
Definition validate_request (address : string) (radius_miles : float) : result ReportRequest :=
  let stripped := PyStr.strip (PyStr.of_string address) in
  match stripped with
  | [] => Raise ValidationError
  | _ =>
      if (0 <? radius_miles)%float && (radius_miles <=? 50)%float
      then Ret {| address := PyStr.to_string stripped; radius_miles := radius_miles |}
      else Raise ValidationError
  end.

(** A [str] field of a pydantic model takes a string and nothing else. *)
Definition str_field (v : pyval) : result string :=
  match v with
  | PStr s => Ret s
  | _ => Raise ValidationError
  end.

(** The composite key of the deduplication. *)
Definition dedup_key (r : raw) : string :=
  let rid := registry_id r in
  if Py.truthy rid && Py.ne_str rid "N/A"
  then (fmt rid ++ "|" ++ source r)%string
  else (fmt (name r) ++ "|" ++ fmt (latitude r) ++ "|" ++ fmt (longitude r)
        ++ "|" ++ source r)%string.

Definition mem (k : string) (seen_ids : list string) : bool :=
  existsb (String.eqb k) seen_ids.

(** Step 3 of [report]: the loop over [all_raw].  [seen_ids] lists the
    members of the set of the same name. *)
Fixpoint merge_loop (lat lon radius : float) (all_raw : list raw)
    (facilities : list Facility) (seen_ids : list string) : result (list Facility) :=
  match all_raw with
  | [] => Ret facilities
  | r :: rest =>
      let rid := registry_id r in
      let key := dedup_key r in
      if mem key seen_ids then merge_loop lat lon radius rest facilities seen_ids
      else
        let seen_ids := key :: seen_ids in
        rlat <- as_number (latitude r) ;;
        rlon <- as_number (longitude r) ;;
        dist <- haversine rt lat lon rlat rlon ;;
        if (radius <? dist)%float
        then merge_loop lat lon radius rest facilities seen_ids
        else
          dir <- cardinal_direction rt lat lon rlat rlon ;;
          nm <- str_field (name r) ;;
          rid' <- str_field rid ;;
          merge_loop lat lon radius rest
            (facilities ++
               [{| fac_name := nm; fac_registry_id := rid';
                   fac_latitude := rlat; fac_longitude := rlon;
                   distance_miles := dist; direction := dir;
                   fac_source := source r |}])
            seen_ids
  end.

(** [facilities.sort(key=lambda f: f.distance_miles)]: a stable sort that
    compares keys with [<].  Each facility goes behind the ones already
    placed that it does not beat. *)
Fixpoint insert_facility (f : Facility) (sorted : list Facility) : list Facility :=
  match sorted with
  | [] => [f]
  | g :: sorted' =>
      if (distance_miles f <? distance_miles g)%float then f :: sorted
      else g :: insert_facility f sorted'
  end.

Definition sort_by_distance (l : list Facility) : list Facility :=
  fold_left (fun sorted f => insert_facility f sorted) l [].

(** The three [except] clauses around the geocoding step. *)
Definition geocode_step (address : string) (nominatim : reply) : result geocoded :=
  match geocode_address address nominatim with
  | Ret geo => Ret geo
  | Raise (HTTPException c d) => Raise (HTTPException c d)
  | Raise TimeoutException =>
      Raise (HTTPException 504 "Geocoding service timed out. Please try again.")
  | Raise (HTTPError msg) =>
      Raise (HTTPException 502 ("Geocoding service error: " ++ msg)%string)
  | Raise e => Raise e
  end.

(** [report]: the three replies are what the geocoder and the two providers
    answer to this request.  Of the two gathered tasks, [fetch_usgs] can only
    raise while it builds its request, which is before [fetch_epa_echo] hears
    from its provider. *)
Definition report (req : ReportRequest) (nominatim echo nwis : reply) : result ReportResponse :=
  geo <- geocode_step (address req) nominatim ;;
  let lat := geo_latitude geo in
  let lon := geo_longitude geo in
  usgs_results <- fetch_usgs lat lon (radius_miles req) nwis ;;
  epa_results <- fetch_epa_echo lat lon (radius_miles req) echo ;;
  let all_raw := epa_results ++ usgs_results in
  found <- merge_loop lat lon (radius_miles req) all_raw [] [] ;;
  let sorted := sort_by_distance found in
  Ret {| rep_address := cleaned_address geo;
         rep_latitude := lat;
         rep_longitude := lon;
         rep_radius_miles := radius_miles req;
         total_findings := Z.of_nat (List.length sorted);
         facilities := sorted |}.

End Program.

(** ** The [/geocode] endpoint *)

Section Geocode.

Variable rt : runtime.

Record GeocodeRequest : Type := {
  req_address : string
}.

Record GeocodeResponse : Type := {
  res_original_address : string;
  res_cleaned_address : string;
  res_latitude : float;
  res_longitude : float;
  res_display_name : string
}.

(** Validation of a [GeocodeRequest]: [min_length=1] and the validator
    [address_not_blank], which hands on the stripped address. *)
Definition validate_geocode_request (address : string) : result GeocodeRequest :=
  match PyStr.strip (PyStr.of_string address) with
  | [] => Raise ValidationError
  | stripped => Ret {| req_address := PyStr.to_string stripped |}
  end.

(** [geocode]: the same three [except] clauses as in [report], then the
    [GeocodeResponse] built from the keys of [result]; its [display_name]
    has to be a [str]. *)
Definition geocode (req : GeocodeRequest) (nominatim : reply) : result GeocodeResponse :=
  result <- geocode_step rt (req_address req) nominatim ;;
  dn <- str_field (display_name result) ;;
  Ret {| res_original_address := original_address result;
         res_cleaned_address := cleaned_address result;
         res_latitude := geo_latitude result;
         res_longitude := geo_longitude result;
         res_display_name := dn |}.

End Geocode.

(** ** The deduplication as the specification words it

    Step 3 of the aggregator, read on its own: of the records that share a
    key the first one stays ([keep_first]); step 4 then turns each record
    that stayed into a facility, or drops it when it lies beyond the radius
    ([place], [place_all]). *)

Section Aggregator.

Variable rt : runtime.

(** The record has an identifier that is present and is not the sentinel. *)
Definition uses_registry_id (r : raw) : bool :=
  Py.truthy (registry_id r) && Py.ne_str (registry_id r) "N/A".

Definition same_key (r x : raw) : bool :=
  (dedup_key rt x =? dedup_key rt r)%string.

Fixpoint keep_first (l : list raw) : list raw :=
  match l with
  | [] => []
  | r :: l' => r :: filter (fun x => negb (same_key r x)) (keep_first l')
  end.

Definition place (lat lon radius : float) (r : raw) : result (option Facility) :=
  rlat <- as_number (latitude r) ;;
  rlon <- as_number (longitude r) ;;
  dist <- haversine rt lat lon rlat rlon ;;
  if (radius <? dist)%float then Ret None
  else
    dir <- cardinal_direction rt lat lon rlat rlon ;;
    nm <- str_field (name r) ;;
    rid <- str_field (registry_id r) ;;
    Ret (Some {| fac_name := nm; fac_registry_id := rid;
                 fac_latitude := rlat; fac_longitude := rlon;
                 distance_miles := dist; direction := dir;
                 fac_source := source r |}).

Fixpoint place_all (lat lon radius : float) (l : list raw)
    (facilities : list Facility) : result (list Facility) :=
  match l with
  | [] => Ret facilities
  | r :: rest =>
      o <- place lat lon radius r ;;
      place_all lat lon radius rest
        (match o with Some f => facilities ++ [f] | None => facilities end)
  end.

End Aggregator.

(** The composite key in the words of the specification, to be compared
    with [dedup_key]: the pair of the identifier and the source when the
    identifier is present and is not the sentinel, and else the name, the
    two coordinates and the source.  A pair is never equal to a
    quadruple. *)
Inductive composite_key : Type :=
| IdKey (external_id : pyval) (source_tag : string)
| PlaceKey (name latitude longitude : pyval) (source_tag : string).

Definition composite_key_of (r : raw) : composite_key :=
  if uses_registry_id r then IdKey (registry_id r) (source r)
  else PlaceKey (name r) (latitude r) (longitude r) (source r).

(** A text with the separator of the keys in it. *)
Fixpoint has_bar (s : string) : bool :=
  match s with
  | EmptyString => false
  | String c s' => Ascii.eqb c "|" || has_bar s'
  end.

(** A coordinate as the adapters store it: a float, or the [int] that
    [fetch_usgs] puts in for a missing sixth field. *)
Definition is_number (v : pyval) : Prop :=
  match v with
  | PFloat _ | PInt _ => True
  | _ => False
  end.

(** ** A platform to run the model on

    A stand-in for the C library and the three builtins, total and simple,
    used where a statement is tried on concrete input: its [sin] and [cos]
    are those of the angle zero, its [round] leaves a float as it is, and it
    prints a number in binary. *)

Module Sample.

Fixpoint enc_pos (p : positive) : string :=
  match p with
  | xH => "h"
  | xO q => String "0" (enc_pos q)
  | xI q => String "1" (enc_pos q)
  end.

Definition enc_Z (z : Z) : string :=
  match z with
  | Z0 => "z"
  | Zpos p => String "p" (enc_pos p)
  | Zneg p => String "n" (enc_pos p)
  end.

Definition enc_bool (b : bool) : string := if b then "-" else "+".

Definition enc_float (f : float) : string :=
  match Prim2SF f with
  | S754_zero s => ("Z" ++ enc_bool s)%string
  | S754_infinity s => ("I" ++ enc_bool s)%string
  | S754_nan => "N"
  | S754_finite s m e => ("F" ++ enc_bool s ++ enc_pos m ++ enc_Z e)%string
  end.

Definition str (v : pyval) : string :=
  match v with
  | PFloat f => String "f" (enc_float f)
  | PInt z => String "i" (enc_Z z)
  | _ => "?"
  end.

Definition float_of (s : string) : option float :=
  if (s =? "1.5")%string then Some 1.5%float
  else if (s =? "2.5")%string then Some 2.5%float
  else None.

Definition platform : runtime :=
  {| libm_sin := fun x => (x * 0)%float;
     libm_cos := fun x => (x * 0 + 1)%float;
     libm_atan2 := fun y x => (y * 0)%float;
     libm_pow := fun x y => (x * 0)%float;
     round_ndigits := fun x _ => x;
     float_of_str := float_of;
     str_of_value := str |}.

Definition ok_json (v : pyval) : response :=
  {| status_code := 200; reason := ""; text := ""; json := Some v |}.

Definition ok_text (t : string) : response :=
  {| status_code := 200; reason := ""; text := t; json := None |}.

(** A geocoder hit at (1.5, 2.5). *)
Definition hit : pyval :=
  PList [PDict [("lat", PStr "1.5"); ("lon", PStr "2.5");
                ("display_name", PStr "1 Main St")]].

Definition tab : string := String "009" EmptyString.
Definition nl : string := String "010" EmptyString.

(** A reply of the monitoring-site provider: a comment, the header, the row
    of field widths, a site, a site with no sixth field, a row with a
    latitude that is no number, an empty line and a short row. *)
Definition sites : string :=
  ("# comment" ++ nl
   ++ "agency" ++ tab ++ "site_no" ++ tab ++ "station_nm" ++ tab ++ "site_tp"
      ++ tab ++ "lat" ++ tab ++ "lon" ++ nl
   ++ "5s" ++ tab ++ "15s" ++ tab ++ "50s" ++ tab ++ "7s" ++ tab ++ "16s"
      ++ tab ++ "16s" ++ nl
   ++ "USGS" ++ tab ++ " 0801 " ++ tab ++ " Colorado Rv " ++ tab ++ "ST"
      ++ tab ++ "1.5" ++ tab ++ "2.5" ++ nl
   ++ "USGS" ++ tab ++ "0802" ++ tab ++ "Barton" ++ tab ++ "ST" ++ tab ++ "1.5" ++ nl
   ++ "USGS" ++ tab ++ "0803" ++ tab ++ "Bad" ++ tab ++ "ST" ++ tab ++ "x"
      ++ tab ++ "2.5" ++ nl ++ nl
   ++ "short" ++ tab ++ "row")%string.

(** A reply of the facility registry with one facility and one row whose
    latitude is [null]. *)
Definition registry : pyval :=
  PDict [("Results",
          PDict [("Facilities",
                  PList [PDict [("Lat83", PFloat 1); ("Long83", PInt 3);
                                ("FacName", PStr "Plant");
                                ("RegistryID", PStr "110000")];
                         PDict [("Lat83", PNone)]])])].

Definition request : ReportRequest :=
  {| address := "1 Main St, Apt 4"; radius_miles := 3 |}.

End Sample.

(** * Theorems *)

(** ** The matcher on runs of one character class *)

Module ReFacts.

Import Re.

Definition run (p : ascii -> bool) (xs : list ascii) : Prop :=
  Forall (fun c => p c = true) xs.

(** The text stops a run of [p]: it is empty or starts outside [p]. *)
Definition stops (p : ascii -> bool) (rest : list ascii) : Prop :=
  match rest with
  | [] => True
  | c :: _ => p c = false
  end.

Lemma star_loop_S m k n s :
  star_loop m k (S n) s =
    match m s (fun s1 => if (List.length s1 <? List.length s)%nat
                         then star_loop m k n s1 else None) with
    | Some out => Some out
    | None => k s
    end.
Proof. reflexivity. Qed.

Lemma rmatch_chr_cons (p : ascii -> bool) c s k :
  rmatch (Chr p) (c :: s) k = if p c then k s else None.
Proof. reflexivity. Qed.

Lemma rmatch_chr_nil (p : ascii -> bool) k : rmatch (Chr p) [] k = None.
Proof. reflexivity. Qed.

Lemma star_loop_stop (p : ascii -> bool) k n rest :
  stops p rest -> star_loop (rmatch (Chr p)) k n rest = k rest.
Proof.
  intros Hs. destruct n as [|n]; [reflexivity|].
  rewrite star_loop_S.
  destruct rest as [|c rest'].
  - rewrite rmatch_chr_nil. reflexivity.
  - rewrite rmatch_chr_cons. cbn in Hs. rewrite Hs. reflexivity.
Qed.

(** A greedy star over a run hands the rest to its continuation first; when
    that succeeds, nothing else is tried. *)
Lemma star_loop_run (p : ascii -> bool) k out :
  forall xs rest n,
    run p xs -> stops p rest -> (List.length xs <= n)%nat ->
    k rest = Some out ->
    star_loop (rmatch (Chr p)) k n (xs ++ rest) = Some out.
Proof.
  induction xs as [|x xs IH]; intros rest n Hr Hs Hn Hk.
  - cbn [app]. rewrite star_loop_stop by assumption. exact Hk.
  - destruct n as [|n]; [cbn in Hn; lia|].
    inversion Hr as [|? ? Hx Hxs]; subst.
    cbn [app]. rewrite star_loop_S, rmatch_chr_cons, Hx.
    replace (List.length (xs ++ rest) <? List.length (x :: xs ++ rest))%nat with true
      by (symmetry; apply Nat.ltb_lt; cbn [List.length]; lia).
    rewrite (IH rest n); auto. cbn in Hn. lia.
Qed.

Lemma star_run (p : ascii -> bool) k out xs rest :
  run p xs -> stops p rest -> k rest = Some out ->
  rmatch (Star (Chr p)) (xs ++ rest) k = Some out.
Proof.
  intros Hr Hs Hk.
  change (rmatch (Star (Chr p)) (xs ++ rest) k)
    with (star_loop (rmatch (Chr p)) k (List.length (xs ++ rest)) (xs ++ rest)).
  apply star_loop_run; auto. rewrite length_app. lia.
Qed.

Lemma plus_run (p : ascii -> bool) k out xs rest :
  xs <> [] -> run p xs -> stops p rest -> k rest = Some out ->
  rmatch (Plus (Chr p)) (xs ++ rest) k = Some out.
Proof.
  intros Hne Hr Hs Hk. destruct xs as [|x xs]; [congruence|].
  inversion Hr as [|? ? Hx Hxs]; subst.
  unfold Plus. cbn [app].
  change (rmatch (Cat (Chr p) (Star (Chr p))) (x :: xs ++ rest) k)
    with (rmatch (Chr p) (x :: xs ++ rest) (fun s1 => rmatch (Star (Chr p)) s1 k)).
  rewrite rmatch_chr_cons, Hx.
  apply star_run; auto.
Qed.

(** *** Unfolding [sub_empty] *)

Definition keep_one (r : regex) (s : list ascii) : list ascii :=
  match s with
  | [] => []
  | c :: s' => c :: sub_empty r s'
  end.

Lemma sub_empty_fuel_enough (r : regex) :
  forall f1 f2 s, (List.length s < f1)%nat -> (List.length s < f2)%nat ->
    sub_empty_fuel f1 r s = sub_empty_fuel f2 r s.
Proof.
  induction f1 as [|f1 IH]; intros f2 s H1 H2; [lia|].
  destruct f2 as [|f2]; [lia|].
  cbn [sub_empty_fuel].
  assert (Hkeep : match s with [] => [] | c :: s' => c :: sub_empty_fuel f1 r s' end
                  = match s with [] => [] | c :: s' => c :: sub_empty_fuel f2 r s' end).
  { destruct s as [|c s']; [reflexivity|].
    cbn [List.length] in *. f_equal. apply IH; lia. }
  destruct (match_prefix r s) as [rest|]; [|exact Hkeep].
  destruct (List.length rest <? List.length s)%nat eqn:Hlen; [|exact Hkeep].
  apply Nat.ltb_lt in Hlen. apply IH; lia.
Qed.

Lemma sub_empty_unfold (r : regex) (s : list ascii) :
  sub_empty r s =
    match match_prefix r s with
    | Some rest =>
        if (List.length rest <? List.length s)%nat
        then sub_empty r rest else keep_one r s
    | None => keep_one r s
    end.
Proof.
  unfold sub_empty at 1. cbn [sub_empty_fuel].
  destruct (match_prefix r s) as [rest|] eqn:Hm.
  - destruct (List.length rest <? List.length s)%nat eqn:Hlen.
    + apply Nat.ltb_lt in Hlen. unfold sub_empty.
      apply sub_empty_fuel_enough; lia.
    + destruct s as [|c s']; reflexivity.
  - destruct s as [|c s']; reflexivity.
Qed.

(** No match of [r] starts at a place inside [pre], with [rest] behind it. *)
Fixpoint no_match_within (r : regex) (pre rest : list ascii) : bool :=
  match pre with
  | [] => true
  | c :: pre' =>
      match match_prefix r (pre ++ rest) with
      | Some _ => false
      | None => no_match_within r pre' rest
      end
  end.

(** The leftmost match is the one that is deleted. *)
Lemma sub_empty_leftmost (r : regex) (q post : list ascii) :
  q <> [] -> match_prefix r (q ++ post) = Some post ->
  forall pre, no_match_within r pre (q ++ post) = true ->
    sub_empty r (pre ++ q ++ post) = pre ++ sub_empty r post.
Proof.
  intros Hq Hm. induction pre as [|c pre IH]; intros Hpre.
  - cbn [app]. rewrite sub_empty_unfold, Hm.
    replace (List.length post <? List.length (q ++ post))%nat with true; [reflexivity|].
    symmetry. apply Nat.ltb_lt. rewrite length_app.
    destruct q; [congruence|cbn; lia].
  - cbn [no_match_within] in Hpre.
    destruct (match_prefix r ((c :: pre) ++ q ++ post)) eqn:Hc; [discriminate|].
    rewrite sub_empty_unfold, Hc. cbn [keep_one app]. f_equal. auto.
Qed.

Lemma rmatch_cat r1 r2 s k :
  rmatch (Cat r1 r2) s k = rmatch r1 s (fun s1 => rmatch r2 s1 k).
Proof. reflexivity. Qed.

Lemma rmatch_alt r1 r2 s k :
  rmatch (Alt r1 r2) s k =
    match rmatch r1 s k with
    | Some out => Some out
    | None => rmatch r2 s k
    end.
Proof. reflexivity. Qed.

Lemma rmatch_ahead r1 s k :
  rmatch (Ahead r1) s k =
    match rmatch r1 s (fun _ => Some []) with
    | Some _ => k s
    | None => None
    end.
Proof. reflexivity. Qed.

(** Every text is a run of [p] followed by what [dropwhile p] leaves. *)
Lemma dropwhile_split (p : ascii -> bool) (l : list ascii) :
  exists xs, l = xs ++ PyStr.dropwhile p l /\ run p xs /\ stops p (PyStr.dropwhile p l).
Proof.
  induction l as [|c l IH].
  - exists []. repeat split. constructor.
  - cbn [PyStr.dropwhile]. destruct (p c) eqn:Hc.
    + destruct IH as (xs & Hl & Hr & Hs). exists (c :: xs). repeat split.
      * cbn [app]. f_equal. exact Hl.
      * constructor; assumption.
      * exact Hs.
    + exists []. repeat split; [constructor | exact Hc].
Qed.

End ReFacts.

(** ** [strip_unit] *)

Module StripUnit.

Import Re ReFacts.

Ltac by_cases_on_ascii c :=
  destruct c as [[] [] [] [] [] [] [] []]; vm_compute; intuition congruence.

Lemma sep_is_no_value c : is_label_sep c = true -> is_unit_value c = false.
Proof. by_cases_on_ascii c. Qed.

Lemma value_is_no_sep c : is_unit_value c = true -> is_label_sep c = false.
Proof. by_cases_on_ascii c. Qed.

Lemma space_is_no_value c : PyStr.is_space c = true -> is_unit_value c = false.
Proof. by_cases_on_ascii c. Qed.

Lemma sep_is_no_o c :
  is_label_sep c = true -> Ascii.eqb (PyStr.lower c) "o" = false.
Proof. by_cases_on_ascii c. Qed.

(** The text behind a qualifier: optional white space, then a comma or the
    end. *)
Definition followed_by_comma_or_end (post : list ascii) : bool :=
  match PyStr.dropwhile PyStr.is_space post with
  | [] => true
  | c :: _ => Ascii.eqb c ","
  end.

Definition lookahead : regex :=
  Ahead (Alt (Cat (Star space) (Chr (fun c => Ascii.eqb c ",")))
             (Cat (Star space) Eos)).

Lemma lookahead_succeeds post k :
  followed_by_comma_or_end post = true -> rmatch lookahead post k = k post.
Proof.
  unfold followed_by_comma_or_end, lookahead. intros H.
  destruct (dropwhile_split PyStr.is_space post) as (ws & Hpost & Hws & Hstop).
  rewrite rmatch_ahead, rmatch_alt.
  destruct (rmatch (Cat (Star space) (Chr (fun c => Ascii.eqb c ","))) post
              (fun _ => Some [])) eqn:Hfirst; [reflexivity|].
  destruct (PyStr.dropwhile PyStr.is_space post) as [|c rest] eqn:Hd.
  - rewrite rmatch_cat, Hpost.
    unfold space. rewrite (star_run PyStr.is_space _ []); auto.
  - exfalso. apply Ascii.eqb_eq in H. subst c.
    rewrite rmatch_cat, Hpost in Hfirst.
    unfold space in Hfirst.
    rewrite (star_run PyStr.is_space _ []) in Hfirst; auto; discriminate.
Qed.

Lemma stops_value_post post :
  followed_by_comma_or_end post = true -> stops is_unit_value post.
Proof.
  unfold followed_by_comma_or_end. destruct post as [|c post]; [exact (fun _ => I)|].
  cbn [PyStr.dropwhile stops]. destruct (PyStr.is_space c) eqn:Hc.
  - intros _. apply space_is_no_value. exact Hc.
  - intros H. apply Ascii.eqb_eq in H. subst c. reflexivity.
Qed.

Definition labels_re : regex :=
  alts (map (fun l => lit_ci (PyStr.of_string l)) unit_labels).

(** Of the eleven alternatives, the one spelled like the text is the one
    that goes through, whatever separator follows. *)
Lemma labels_match label c rest k out :
  In label unit_labels -> is_label_sep c = true ->
  k (c :: rest) = Some out ->
  rmatch labels_re (PyStr.of_string label ++ c :: rest) k = Some out.
Proof.
  intros Hin Hc Hk. unfold unit_labels in Hin. cbn [In] in Hin.
  repeat (destruct Hin as [<-|Hin]); try contradiction;
    cbn; rewrite ?(sep_is_no_o c Hc); cbn; rewrite ?Hk; reflexivity.
Qed.

Lemma digit_is_value c : PyStr.is_digit c = true -> is_unit_value c = true.
Proof. by_cases_on_ascii c. Qed.

Lemma alpha_is_value c : PyStr.is_alpha c = true -> is_unit_value c = true.
Proof. by_cases_on_ascii c. Qed.

Lemma digit_is_no_space c : PyStr.is_digit c = true -> PyStr.is_space c = false.
Proof. by_cases_on_ascii c. Qed.

Lemma alpha_is_no_digit c : PyStr.is_alpha c = true -> PyStr.is_digit c = false.
Proof. by_cases_on_ascii c. Qed.

Lemma stops_weaken (p q : ascii -> bool) l :
  (forall c, q c = true -> p c = true) -> stops p l -> stops q l.
Proof.
  intros Hpq. destruct l as [|c l]; [auto|]. cbn [stops]. intros Hp.
  destruct (q c) eqn:Hq; [|reflexivity]. rewrite (Hpq c Hq) in Hp. discriminate.
Qed.

(** The two shapes of a qualifier: a label, separators and a value; or a
    hash sign, optional white space, digits and at most one letter. *)
Inductive qualifier : list ascii -> Prop :=
| labelled (label : string) (seps value : list ascii) :
    In label unit_labels ->
    seps <> [] -> run is_label_sep seps ->
    value <> [] -> run is_unit_value value ->
    qualifier (PyStr.of_string label ++ seps ++ value)
| numbered (ws digits suffix : list ascii) :
    run PyStr.is_space ws ->
    digits <> [] -> run PyStr.is_digit digits ->
    (suffix = [] \/ exists c, suffix = [c] /\ PyStr.is_alpha c = true) ->
    qualifier ("#"%char :: ws ++ digits ++ suffix).

Lemma qualifier_nonempty q : qualifier q -> q <> [].
Proof.
  intros [label seps value Hin _ _ _ _ | ws digits suffix _ _ _ _]; [|discriminate].
  unfold unit_labels in Hin. cbn [In] in Hin.
  repeat (destruct Hin as [<-|Hin]); try contradiction; discriminate.
Qed.

Lemma qualifier_starts_outside_space q : qualifier q -> stops PyStr.is_space q.
Proof.
  intros [label seps value Hin _ _ _ _ | ws digits suffix _ _ _ _]; [|reflexivity].
  unfold unit_labels in Hin. cbn [In] in Hin.
  repeat (destruct Hin as [<-|Hin]); try contradiction; reflexivity.
Qed.

Definition numbered_re : regex :=
  Cat (Chr (fun c => Ascii.eqb c "#"))
    (Cat (Star space) (Cat (Plus digit) (Opt letter))).

Definition labelled_re : regex :=
  Cat labels_re (Cat (Plus (Chr is_label_sep)) (Plus (Chr is_unit_value))).

Lemma UNIT_PATTERNS_shape :
  UNIT_PATTERNS = Cat (Star space) (Cat (Alt numbered_re labelled_re) lookahead).
Proof. reflexivity. Qed.

Lemma numbered_re_on_label label rest k :
  In label unit_labels -> rmatch numbered_re (PyStr.of_string label ++ rest) k = None.
Proof.
  intros Hin. unfold unit_labels in Hin. cbn [In] in Hin.
  repeat (destruct Hin as [<-|Hin]); try contradiction; reflexivity.
Qed.

(** The alternation goes through on a qualifier and stops right behind it. *)
Lemma qualifier_body_matches q post k out :
  qualifier q -> followed_by_comma_or_end post = true ->
  k post = Some out ->
  rmatch (Alt numbered_re labelled_re) (q ++ post) k = Some out.
Proof.
  intros Hq Hpost Hk. rewrite rmatch_alt.
  pose proof (stops_value_post post Hpost) as Hstop.
  destruct Hq as [label seps value Hin Hs Hseps Hv Hvalue
                 | ws digits suffix Hws Hd Hdigits Hsuffix].
  - rewrite <- !app_assoc. rewrite numbered_re_on_label by assumption.
    unfold labelled_re. rewrite rmatch_cat.
    destruct seps as [|c seps]; [congruence|].
    inversion Hseps as [|? ? Hc Hseps']; subst.
    apply labels_match; [assumption..|].
    rewrite rmatch_cat.
    apply (plus_run is_label_sep _ out (c :: seps) (value ++ post));
      [discriminate | assumption | |].
    + destruct value as [|v value]; [congruence|].
      inversion Hvalue; subst. cbn [app stops]. now apply value_is_no_sep.
    + apply plus_run; assumption.
  - assert (Hgo : rmatch numbered_re (("#"%char :: ws ++ digits ++ suffix) ++ post) k
                  = Some out); [|now rewrite Hgo].
    unfold numbered_re. cbn [app]. rewrite rmatch_cat, rmatch_chr_cons.
    cbn [Ascii.eqb Bool.eqb]. rewrite rmatch_cat, <- !app_assoc.
    unfold space. apply star_run; [assumption | |].
    { destruct digits as [|d digits]; [congruence|].
      inversion Hdigits; subst. cbn [app stops]. now apply digit_is_no_space. }
    rewrite rmatch_cat. unfold digit.
    apply plus_run; [assumption | assumption | |].
    { destruct Hsuffix as [-> | (c & -> & Hc)].
      - cbn [app]. apply (stops_weaken is_unit_value); [apply digit_is_value | assumption].
      - cbn [app stops]. now apply alpha_is_no_digit. }
    unfold Opt, letter. rewrite rmatch_alt.
    destruct Hsuffix as [-> | (c & -> & Hc)].
    + cbn [app].
      assert (Hnone : rmatch (Chr PyStr.is_alpha) post k = None).
      { pose proof (stops_weaken is_unit_value PyStr.is_alpha post alpha_is_value Hstop) as Ha.
        destruct post as [|c post']; [reflexivity|].
        rewrite rmatch_chr_cons. cbn [stops] in Ha. now rewrite Ha. }
      rewrite Hnone. exact Hk.
    + cbn [app]. rewrite rmatch_chr_cons, Hc, Hk. reflexivity.
Qed.

(** [UNIT_PATTERNS] matches a qualifier together with the white space before
    it, provided a comma or the end follows, and leaves what follows. *)
Lemma qualifier_matches ws q post :
  run PyStr.is_space ws -> qualifier q -> followed_by_comma_or_end post = true ->
  match_prefix UNIT_PATTERNS ((ws ++ q) ++ post) = Some post.
Proof.
  intros Hws Hq Hpost. unfold match_prefix.
  rewrite UNIT_PATTERNS_shape, rmatch_cat, <- app_assoc.
  unfold space. apply star_run; [assumption | |].
  { pose proof (qualifier_starts_outside_space q Hq) as Hs.
    pose proof (qualifier_nonempty q Hq) as Hne.
    destruct q as [|c q]; [congruence|]. exact Hs. }
  rewrite rmatch_cat. apply qualifier_body_matches; [assumption..|].
  now rewrite lookahead_succeeds.
Qed.

End StripUnit.

(** ** The [/report] endpoint: errors and the address it returns *)

Module ReportFacts.

(** C5: when the geocoding provider answers the cleaned address with an
    empty list of matches, [report] raises the 404 of [geocode_address]
    (GeocodeNotFound) and returns no report. *)
Theorem report_geocode_not_found rt req resp echo nwis :
  strip_unit (address req) <> "" ->
  raise_for_status resp = Ret tt ->
  json resp = Some (PList []) ->
  report rt req (Responds resp) echo nwis
    = Raise (HTTPException 404
               ("Could not geocode address: " ++ strip_unit (address req))%string).
Proof.
  intros Hclean Hstatus Hjson.
  unfold report, geocode_step, geocode_address.
  destruct (strip_unit (address req) =? "")%string eqn:He.
  - apply String.eqb_eq in He. contradiction.
  - rewrite Hstatus. unfold resp_json. rewrite Hjson. reflexivity.
Qed.

Lemma report_geocode_not_found_witness :
  report Sample.platform Sample.request (Responds (Sample.ok_json (PList [])))
    (Fails TimeoutException) (Fails TimeoutException)
  = Raise (HTTPException 404 "Could not geocode address: 1 Main St").
Proof.
  apply (report_geocode_not_found Sample.platform Sample.request
           (Sample.ok_json (PList []))).
  - vm_compute. discriminate.
  - reflexivity.
  - reflexivity.
Defined.

(** C10: the address of a report is the cleaned address, that is
    [strip_unit] of the address of the request. *)
Theorem report_address_is_cleaned rt req nominatim echo nwis resp :
  report rt req nominatim echo nwis = Ret resp ->
  rep_address resp = strip_unit (address req).
Proof.
  unfold report. intros H.
  destruct (geocode_step rt (address req) nominatim) as [geo|e] eqn:Hgeo;
    [|discriminate].
  assert (Hc : cleaned_address geo = strip_unit (address req)).
  { unfold geocode_step in Hgeo.
    destruct (geocode_address rt (address req) nominatim) as [g|e] eqn:Hg.
    - injection Hgeo as <-. unfold geocode_address in Hg.
      destruct (strip_unit (address req) =? "")%string; [discriminate|].
      destruct nominatim as [e|r]; [discriminate|].
      repeat match type of Hg with
             | bind ?c _ = Ret _ => destruct c; cbn [bind] in Hg; [|discriminate]
             | (if ?b then _ else _) = Ret _ => destruct b; [discriminate|]
             end.
      injection Hg as <-. reflexivity.
    - destruct e; discriminate. }
  cbn [bind] in H.
  repeat match type of H with
         | bind ?c _ = Ret _ => destruct c; cbn [bind] in H; [|discriminate]
         end.
  injection H as <-. exact Hc.
Qed.

(** A report whose address differs from the address of the request. *)
Definition sample_report : result ReportResponse :=
  report Sample.platform Sample.request (Responds (Sample.ok_json Sample.hit))
    (Responds (Sample.ok_json Sample.registry))
    (Responds (Sample.ok_text Sample.sites)).

Lemma report_address_is_cleaned_witness :
  exists resp,
    sample_report = Ret resp
    /\ rep_address resp = strip_unit "1 Main St, Apt 4"
    /\ rep_address resp <> "1 Main St, Apt 4".
Proof.
  destruct sample_report as [resp|e] eqn:H; [|vm_compute in H; discriminate].
  exists resp. split; [reflexivity|]. split.
  - exact (report_address_is_cleaned _ _ _ _ _ _ H).
  - vm_compute in H. injection H as <-. discriminate.
Defined.

End ReportFacts.

(** ** The two adapters when the provider fails *)

Module AdapterFacts.

(** A request that did not come back, or came back with a status outside
    2xx, or (for the facility registry) with a body that is no JSON, makes
    the adapter return the empty list. *)
Lemma fetch_epa_echo_transport_failure rt lat lon radius e :
  fetch_epa_echo rt lat lon radius (Fails e) = Ret [].
Proof. reflexivity. Qed.

Lemma fetch_epa_echo_bad_status rt lat lon radius resp :
  raise_for_status resp <> Ret tt ->
  fetch_epa_echo rt lat lon radius (Responds resp) = Ret [].
Proof.
  intros H. unfold fetch_epa_echo, epa_data.
  destruct (raise_for_status resp) as [[]|e]; [contradiction|reflexivity].
Qed.

Lemma fetch_epa_echo_not_json rt lat lon radius resp :
  json resp = None -> fetch_epa_echo rt lat lon radius (Responds resp) = Ret [].
Proof.
  intros H. unfold fetch_epa_echo, epa_data, resp_json. rewrite H.
  destruct (raise_for_status resp) as [[]|e]; reflexivity.
Qed.

Lemma usgs_site_returns rt parts : exists r, usgs_site rt parts = Ret r.
Proof.
  unfold usgs_site, try_except, float_of_text.
  destruct (float_of_str rt (PyStr.to_string (nth 4 parts []))) as [flat|];
    cbn [bind caught_value_index]; [|eauto].
  destruct (5 <? List.length parts)%nat; cbn [bind].
  - destruct (float_of_str rt (PyStr.to_string (nth 5 parts []))) as [flon|];
      cbn [bind caught_value_index]; [|eauto].
    destruct ((flat =? 0)%float && (flon =? 0)%float); eauto.
  - destruct ((flat =? 0)%float && true); eauto.
Qed.

Lemma usgs_loop_returns rt lines :
  forall header_seen sites, exists l, usgs_loop rt lines header_seen sites = Ret l.
Proof.
  induction lines as [|line lines IH]; intros header_seen sites; cbn [usgs_loop].
  - eauto.
  - destruct (PyStr.startswith "#" line); [apply IH|].
    destruct (negb header_seen); [apply IH|].
    destruct (is_dtype_row (PyStr.split "009" line)); [apply IH|].
    destruct (List.length (PyStr.split "009" line) <? 5)%nat; [apply IH|].
    destruct (usgs_site_returns rt (PyStr.split "009" line)) as [r ->].
    cbn [bind]. apply IH.
Qed.

(** Once its request is built, [fetch_usgs] raises nothing, whatever the
    provider does; a request that fails gives the empty list. *)
Lemma fetch_usgs_returns rt lat lon radius nwis box :
  _bounding_box rt lat lon radius = Ret box ->
  exists l, fetch_usgs rt lat lon radius nwis = Ret l.
Proof.
  intros Hbox. unfold fetch_usgs. rewrite Hbox. cbn [bind].
  destruct (usgs_text nwis); [apply usgs_loop_returns | eauto].
Qed.

Lemma fetch_usgs_transport_failure rt lat lon radius e box :
  _bounding_box rt lat lon radius = Ret box ->
  fetch_usgs rt lat lon radius (Fails e) = Ret [].
Proof. intros Hbox. unfold fetch_usgs. rewrite Hbox. reflexivity. Qed.

(** The facility registry answering 200 with the JSON document [[]]. *)
Definition json_array_reply : reply :=
  Responds {| status_code := 200; reason := ""; text := "[]"; json := Some (PList []) |}.

(** C4, where the code departs from it: a well-formed JSON body that is no
    object gets past the [try] of [fetch_epa_echo]; [data.get] then raises
    [AttributeError], and [report] fails with it. *)
Theorem fetch_epa_echo_raises_on_json_array rt :
  (forall lat lon radius,
      fetch_epa_echo rt lat lon radius json_array_reply = Raise AttributeError)
  /\ (forall req nominatim nwis geo sites,
         geocode_step rt (address req) nominatim = Ret geo ->
         fetch_usgs rt (geo_latitude geo) (geo_longitude geo) (radius_miles req) nwis
           = Ret sites ->
         report rt req nominatim json_array_reply nwis = Raise AttributeError).
Proof.
  split; [reflexivity|].
  intros req nominatim nwis geo sites Hgeo Husgs.
  unfold report. rewrite Hgeo. cbn [bind]. rewrite Husgs. reflexivity.
Qed.

Lemma fetch_epa_echo_raises_on_json_array_witness :
  report Sample.platform Sample.request (Responds (Sample.ok_json Sample.hit))
    json_array_reply (Responds (Sample.ok_text Sample.sites))
  = Raise AttributeError.
Proof.
  eapply (proj2 (fetch_epa_echo_raises_on_json_array Sample.platform)).
  - reflexivity.
  - vm_compute. reflexivity.
Defined.

End AdapterFacts.

(** ** Deduplication *)

Module DedupFacts.

Section Keys.

Variable rt : runtime.

Local Abbreviation key := (dedup_key rt).

Lemma mem_In k seen : mem k seen = true <-> In k seen.
Proof.
  unfold mem. rewrite existsb_exists. split.
  - intros (x & Hx & He). apply String.eqb_eq in He. now subst.
  - intros H. exists k. split; [assumption | apply String.eqb_refl].
Qed.

(** The loop of [report] visits the records that [seen_ids] lets through;
    each key it meets joins [seen_ids]. *)
Fixpoint first_occurrences (seen : list string) (l : list raw) : list raw :=
  match l with
  | [] => []
  | r :: l' =>
      if mem (key r) seen then first_occurrences seen l'
      else r :: first_occurrences (key r :: seen) l'
  end.

Lemma merge_loop_first_occurrences lat lon radius :
  forall l facilities seen,
    merge_loop rt lat lon radius l facilities seen
    = place_all rt lat lon radius (first_occurrences seen l) facilities.
Proof.
  induction l as [|r l IH]; intros facilities seen; [reflexivity|].
  cbn [merge_loop first_occurrences].
  destruct (mem (key r) seen); [apply IH|].
  cbn [place_all]. unfold place.
  destruct (as_number (latitude r)) as [rlat|]; cbn [bind]; [|reflexivity].
  destruct (as_number (longitude r)) as [rlon|]; cbn [bind]; [|reflexivity].
  destruct (haversine rt lat lon rlat rlon) as [dist|]; cbn [bind]; [|reflexivity].
  destruct (radius <? dist)%float; cbn [bind]; [apply IH|].
  destruct (cardinal_direction rt lat lon rlat rlon); cbn [bind]; [|reflexivity].
  destruct (str_field (name r)); cbn [bind]; [|reflexivity].
  destruct (str_field (registry_id r)); cbn [bind]; [|reflexivity].
  apply IH.
Qed.

Lemma filter_filter {A} (p q : A -> bool) l :
  filter p (filter q l) = filter (fun x => q x && p x) l.
Proof.
  induction l as [|a l IH]; [reflexivity|]. cbn [filter].
  destruct (q a); cbn [filter andb]; [destruct (p a)|]; now rewrite IH.
Qed.

Lemma first_occurrences_keep_first :
  forall l seen,
    first_occurrences seen l
    = filter (fun x => negb (mem (key x) seen)) (keep_first rt l).
Proof.
  induction l as [|r l IH]; intros seen; [reflexivity|].
  cbn [first_occurrences keep_first filter].
  destruct (mem (key r) seen) eqn:Hm; cbn [negb].
  - rewrite IH, filter_filter. apply filter_ext. intros x.
    unfold same_key. destruct (key x =? key r)%string eqn:He; [|reflexivity].
    apply String.eqb_eq in He. rewrite He, Hm. reflexivity.
  - f_equal. rewrite IH, filter_filter. apply filter_ext. intros x.
    unfold same_key, mem. cbn [existsb].
    rewrite negb_orb. reflexivity.
Qed.

Lemma first_occurrences_nil l : first_occurrences [] l = keep_first rt l.
Proof.
  rewrite first_occurrences_keep_first.
  rewrite <- (filter_ext (fun _ => true)) by reflexivity.
  induction (keep_first rt l) as [|a k IH]; [reflexivity|].
  cbn [filter]. now rewrite IH.
Qed.

(** A record whose key was met before leaves no trace. *)
Lemma filter_keep_first_drop r0 r :
  same_key rt r0 r = true ->
  forall l l',
    filter (fun x => negb (same_key rt r0 x)) (keep_first rt (l ++ r :: l'))
    = filter (fun x => negb (same_key rt r0 x)) (keep_first rt (l ++ l')).
Proof.
  intros Hr. induction l as [|a l IH]; intros l'.
  - cbn [app keep_first filter]. rewrite Hr. cbn [negb].
    rewrite filter_filter. apply filter_ext_in. intros x _.
    unfold same_key in *. apply String.eqb_eq in Hr.
    destruct (key x =? key r0)%string eqn:H0; cbn [negb andb].
    + now rewrite andb_false_r.
    + rewrite andb_true_r. rewrite Hr.  rewrite H0. reflexivity.
  - cbn [app keep_first filter]. f_equal.
    + rewrite !filter_filter.
      rewrite (filter_ext _ (fun x => negb (same_key rt r0 x) && negb (same_key rt a x)))
        by (intros; apply andb_comm).
      rewrite (filter_ext (fun x => negb (same_key rt a x) && negb (same_key rt r0 x))
                          (fun x => negb (same_key rt r0 x) && negb (same_key rt a x)))
        by (intros; apply andb_comm).
      rewrite <- !filter_filter. now rewrite IH.
Qed.

Lemma keep_first_drop r :
  forall l l',
    existsb (fun r0 => same_key rt r0 r) l = true ->
    keep_first rt (l ++ r :: l') = keep_first rt (l ++ l').
Proof.
  induction l as [|a l IH]; intros l' H; [discriminate|].
  cbn [existsb] in H. cbn [app keep_first]. f_equal.
  destruct (same_key rt a r) eqn:Ha.
  - now apply filter_keep_first_drop.
  - cbn [orb] in H. now rewrite IH.
Qed.

Lemma NoDup_map_filter {A B} (f : A -> B) (p : A -> bool) l :
  NoDup (map f l) -> NoDup (map f (filter p l)).
Proof.
  induction l as [|a l IH]; cbn [map filter]; intros H; [constructor|].
  inversion H as [|? ? Hnotin Hnd]; subst.
  destruct (p a); cbn [map]; [|auto]. constructor; [|auto].
  intros Hin. apply Hnotin. apply in_map_iff in Hin as (x & Hx & Hin).
  apply filter_In in Hin as [Hin _]. apply in_map_iff. eauto.
Qed.

Lemma keep_first_NoDup l : NoDup (map key (keep_first rt l)).
Proof.
  induction l as [|r l IH]; cbn [keep_first map]; constructor.
  - intros Hin. apply in_map_iff in Hin as (x & Hx & Hin).
    apply filter_In in Hin as [_ Hne]. unfold same_key in Hne.
    rewrite Hx, String.eqb_refl in Hne. discriminate.
  - now apply NoDup_map_filter.
Qed.

(** *** What a key says about the record *)

Lemma dedup_key_unfold r :
  key r =
    if uses_registry_id r
    then (fmt rt (registry_id r) ++ "|" ++ source r)%string
    else (fmt rt (name r) ++ "|" ++ fmt rt (latitude r) ++ "|"
          ++ fmt rt (longitude r) ++ "|" ++ source r)%string.
Proof. reflexivity. Qed.

Lemma append_assoc (a b c : string) : ((a ++ b) ++ c = a ++ (b ++ c))%string.
Proof. induction a as [|x a IH]; [reflexivity|]. cbn. now rewrite IH. Qed.

Lemma has_bar_append a b : has_bar (a ++ b) = has_bar a || has_bar b.
Proof.
  induction a as [|c a IH]; [reflexivity|].
  cbn [String.append has_bar]. now rewrite IH, orb_assoc.
Qed.

(** The last bar of a text splits it in one way only. *)
Lemma split_at_last_bar b1 b2 :
  has_bar b1 = false -> has_bar b2 = false ->
  forall a1 a2,
    (a1 ++ "|" ++ b1 = a2 ++ "|" ++ b2)%string -> a1 = a2 /\ b1 = b2.
Proof.
  intros H1 H2.
  assert (Hno : forall a b b', has_bar b = false ->
                  b <> (a ++ "|" ++ b')%string).
  { intros a b b' Hb He. rewrite He, has_bar_append in Hb.
    cbn in Hb. rewrite orb_true_r in Hb. discriminate. }
  induction a1 as [|c a1 IH]; intros [|c' a2] He; cbn [String.append] in He.
  - injection He as He. auto.
  - injection He as Hc He. exfalso. exact (Hno _ _ _ H1 He).
  - injection He as Hc He. exfalso. symmetry in He. exact (Hno _ _ _ H2 He).
  - injection He as Hc He. subst c'. destruct (IH a2 He) as [-> ->]. auto.
Qed.

Hypothesis str_number_bar_free :
  forall v, is_number v -> has_bar (str_of_value rt v) = false.

Hypothesis str_number_inj :
  forall v w, is_number v -> is_number w ->
    str_of_value rt v = str_of_value rt w -> v = w.

Lemma fmt_number v : is_number v -> fmt rt v = str_of_value rt v.
Proof. destruct v; cbn; intros H; try contradiction; reflexivity. Qed.

(** Two fallback keys agree only when the coordinates do. *)
Lemma fallback_key_coordinates r1 r2 :
  uses_registry_id r1 = false -> uses_registry_id r2 = false ->
  is_number (latitude r1) -> is_number (longitude r1) ->
  is_number (latitude r2) -> is_number (longitude r2) ->
  has_bar (source r1) = false -> has_bar (source r2) = false ->
  key r1 = key r2 ->
  latitude r1 = latitude r2 /\ longitude r1 = longitude r2.
Proof.
  intros U1 U2 La1 Lo1 La2 Lo2 S1 S2 He.
  rewrite !dedup_key_unfold, U1, U2 in He.
  rewrite !(fmt_number (latitude _)), !(fmt_number (longitude _)) in He by assumption.
  change (fmt rt (name r1) ++ "|" ++ str_of_value rt (latitude r1) ++ "|"
          ++ str_of_value rt (longitude r1) ++ "|" ++ source r1)%string
    with (fmt rt (name r1) ++ "|" ++ (str_of_value rt (latitude r1) ++ "|"
          ++ (str_of_value rt (longitude r1) ++ "|" ++ source r1)))%string in He.
  assert (A : forall a b c d : string,
             (a ++ "|" ++ b ++ "|" ++ c ++ "|" ++ d
              = ((a ++ "|" ++ b) ++ "|" ++ c) ++ "|" ++ d)%string).
  { intros. now rewrite !append_assoc. }
  rewrite !A in He.
  apply split_at_last_bar in He as [He _]; [|assumption..].
  apply split_at_last_bar in He as [He Hlon]; [|now apply str_number_bar_free..].
  apply split_at_last_bar in He as [_ Hlat]; [|now apply str_number_bar_free..].
  split; now apply str_number_inj.
Qed.

End Keys.

(** *** The sample platform prints numbers apart *)

Lemma enc_pos_bar_free p : has_bar (Sample.enc_pos p) = false.
Proof. induction p; cbn; auto. Qed.

Lemma enc_Z_bar_free z : has_bar (Sample.enc_Z z) = false.
Proof. destruct z; cbn; auto using enc_pos_bar_free. Qed.

Lemma enc_pos_prefix_free p :
  forall q a b,
    (Sample.enc_pos p ++ a = Sample.enc_pos q ++ b)%string -> p = q /\ a = b.
Proof.
  induction p as [p IH|p IH|]; intros [q|q|] a b He; cbn in He;
    try discriminate; injection He as He;
    try (destruct (IH _ _ _ He) as [-> ->]); auto.
Qed.

Lemma enc_Z_prefix_free z z' a b :
  (Sample.enc_Z z ++ a = Sample.enc_Z z' ++ b)%string -> z = z' /\ a = b.
Proof.
  destruct z, z'; cbn; intros He; try discriminate; injection He as He;
    try (destruct (enc_pos_prefix_free _ _ _ _ He) as [-> ->]); auto.
Qed.

Lemma enc_Z_inj z z' : Sample.enc_Z z = Sample.enc_Z z' -> z = z'.
Proof.
  intros He. apply (enc_Z_prefix_free z z' "" "").
  now rewrite He.
Qed.

Lemma enc_float_inj f g : Sample.enc_float f = Sample.enc_float g -> f = g.
Proof.
  unfold Sample.enc_float. intros He. apply Prim2SF_inj.
  destruct (Prim2SF f) as [s|s| |s m e], (Prim2SF g) as [s'|s'| |s' m' e'];
    try discriminate; try reflexivity;
    try (destruct s, s'; try discriminate; reflexivity).
  cbn [String.append] in He. injection He as He.
  assert (Hs : s = s') by (destruct s, s'; cbn in He; congruence).
  subst s'. destruct s; cbn [Sample.enc_bool String.append] in He;
    injection He as He;
    destruct (enc_pos_prefix_free _ _ _ _ He) as [-> He'];
    apply enc_Z_inj in He'; now subst.
Qed.

Lemma sample_str_bar_free v :
  is_number v -> has_bar (str_of_value Sample.platform v) = false.
Proof.
  destruct v as [| | z | f | | |]; cbn [is_number]; try contradiction; intros _.
  - cbn. apply enc_Z_bar_free.
  - cbn [str_of_value Sample.platform Sample.str has_bar Ascii.eqb Bool.eqb orb].
    unfold Sample.enc_float.
    destruct (Prim2SF f) as [[]|[]| |[] m e]; try reflexivity;
      cbn [String.append has_bar Sample.enc_bool];
      rewrite has_bar_append, enc_pos_bar_free, enc_Z_bar_free; reflexivity.
Qed.

Lemma sample_str_inj v w :
  is_number v -> is_number w ->
  str_of_value Sample.platform v = str_of_value Sample.platform w -> v = w.
Proof.
  destruct v as [| | z | f | | |], w as [| | z' | f' | | |];
    cbn [is_number]; try contradiction; intros _ _ He; cbn in He;
    try discriminate; injection He as He.
  - f_equal. now apply enc_Z_inj.
  - f_equal. now apply enc_float_inj.
Qed.

(** Two monitoring sites with no identifier, one degree of latitude apart. *)
Definition site_a : raw :=
  {| name := PStr "Gauge"; registry_id := PStr "N/A";
     latitude := PFloat 30; longitude := PFloat (-97); source := "USGS" |}.

Definition site_b : raw :=
  {| name := PStr "Gauge"; registry_id := PStr "N/A";
     latitude := PFloat 31; longitude := PFloat (-97); source := "USGS" |}.

End DedupFacts.

(** ** The key of the code and the composite key of the specification *)

Module KeyFacts.

Import DedupFacts.

(** The identifier that spells the fallback key of [r]. *)
Definition spelled_id (rt : runtime) (r : raw) : pyval :=
  PStr (fmt rt (name r) ++ "|" ++ fmt rt (latitude r) ++ "|" ++ fmt rt (longitude r)).

Lemma same_composite_key_same_key rt r1 r2 :
  composite_key_of r1 = composite_key_of r2 -> dedup_key rt r1 = dedup_key rt r2.
Proof.
  unfold composite_key_of. rewrite !dedup_key_unfold.
  destruct (uses_registry_id r1), (uses_registry_id r2); intros H;
    try discriminate; injection H; intros; congruence.
Qed.

Lemma has_bar_spelled a b c : has_bar (a ++ "|" ++ b ++ "|" ++ c) = true.
Proof. rewrite has_bar_append. cbn. apply orb_true_r. Qed.

Lemma spelled_id_is_used rt r1 r2 :
  registry_id r1 = spelled_id rt r2 -> uses_registry_id r1 = true.
Proof.
  intros H. unfold uses_registry_id. rewrite H. unfold spelled_id.
  set (s := (fmt rt (name r2) ++ "|" ++ fmt rt (latitude r2) ++ "|"
             ++ fmt rt (longitude r2))%string).
  assert (Hb : has_bar s = true) by apply has_bar_spelled.
  cbn [Py.truthy Py.ne_str].
  destruct (s =? "")%string eqn:E1.
  { apply String.eqb_eq in E1. rewrite E1 in Hb. discriminate. }
  destruct (s =? "N/A")%string eqn:E2.
  { apply String.eqb_eq in E2. rewrite E2 in Hb. discriminate. }
  reflexivity.
Qed.

Lemma spelled_id_collides rt r1 r2 :
  uses_registry_id r2 = false ->
  registry_id r1 = spelled_id rt r2 -> source r1 = source r2 ->
  composite_key_of r1 <> composite_key_of r2
  /\ dedup_key rt r1 = dedup_key rt r2.
Proof.
  intros H2 Hid Hs. pose proof (spelled_id_is_used rt r1 r2 Hid) as H1. split.
  - unfold composite_key_of. rewrite H1, H2. discriminate.
  - rewrite !dedup_key_unfold, H1, H2, Hid, Hs. unfold spelled_id. cbn [fmt].
    now rewrite !append_assoc.
Qed.

Lemma merge_loop_later_duplicate rt lat lon radius l1 r1 l2 r2 l3 :
  dedup_key rt r1 = dedup_key rt r2 ->
  merge_loop rt lat lon radius (l1 ++ r1 :: l2 ++ r2 :: l3) [] []
  = merge_loop rt lat lon radius (l1 ++ r1 :: l2 ++ l3) [] [].
Proof.
  intros Hk. rewrite !merge_loop_first_occurrences, !first_occurrences_nil.
  f_equal.
  change (l1 ++ r1 :: l2 ++ r2 :: l3) with (l1 ++ (r1 :: l2) ++ r2 :: l3).
  change (l1 ++ r1 :: l2 ++ l3) with (l1 ++ (r1 :: l2) ++ l3).
  rewrite !app_assoc. apply keep_first_drop.
  rewrite existsb_app. cbn [existsb]. unfold same_key.
  rewrite Hk, String.eqb_refl. now rewrite orb_true_r.
Qed.

(** C2, where the code departs from it.  [report] does scan the records of
    Adapter A followed by those of Adapter B and drops a record whose key
    was met before; and two records with one composite key have one key in
    the code.  But the key of the code is one text, the fields joined by
    bars, and not the pair or the quadruple: a record whose identifier
    spells the name, the latitude and the longitude of a record without
    identifier (same source) has the same text for a key though its
    composite key is another, and [report] answers as if the later of the
    two had never been returned.  Two records without identifier whose
    coordinates differ do keep two keys, where the platform prints a number
    without a bar and prints no two numbers alike. *)
Theorem report_merges_distinct_composite_keys rt :
  (forall r1 r2,
      composite_key_of r1 = composite_key_of r2 -> dedup_key rt r1 = dedup_key rt r2)
  /\ (forall r1 r2,
        uses_registry_id r2 = false ->
        registry_id r1 = spelled_id rt r2 -> source r1 = source r2 ->
        composite_key_of r1 <> composite_key_of r2
        /\ dedup_key rt r1 = dedup_key rt r2)
  /\ (forall req n echo nwis echo' nwis' geo
             epa_results usgs_results epa_results' usgs_results' l1 r1 l2 r2 l3,
        geocode_step rt (address req) n = Ret geo ->
        fetch_epa_echo rt (geo_latitude geo) (geo_longitude geo) (radius_miles req) echo
          = Ret epa_results ->
        fetch_usgs rt (geo_latitude geo) (geo_longitude geo) (radius_miles req) nwis
          = Ret usgs_results ->
        fetch_epa_echo rt (geo_latitude geo) (geo_longitude geo) (radius_miles req) echo'
          = Ret epa_results' ->
        fetch_usgs rt (geo_latitude geo) (geo_longitude geo) (radius_miles req) nwis'
          = Ret usgs_results' ->
        epa_results ++ usgs_results = l1 ++ r1 :: l2 ++ r2 :: l3 ->
        epa_results' ++ usgs_results' = l1 ++ r1 :: l2 ++ l3 ->
        dedup_key rt r1 = dedup_key rt r2 ->
        report rt req n echo nwis = report rt req n echo' nwis')
  /\ (forall r1 r2,
        (forall v, is_number v -> has_bar (str_of_value rt v) = false) ->
        (forall v w, is_number v -> is_number w ->
                     str_of_value rt v = str_of_value rt w -> v = w) ->
        registry_id r1 = PStr "N/A" -> registry_id r2 = PStr "N/A" ->
        is_number (latitude r1) -> is_number (longitude r1) ->
        is_number (latitude r2) -> is_number (longitude r2) ->
        has_bar (source r1) = false -> has_bar (source r2) = false ->
        (latitude r1, longitude r1) <> (latitude r2, longitude r2) ->
        dedup_key rt r1 <> dedup_key rt r2).
Proof.
  split; [exact (same_composite_key_same_key rt)|].
  split; [exact (spelled_id_collides rt)|].
  split.
  2:{ intros r1 r2 Hbar Hinj Hid1 Hid2 La1 Lo1 La2 Lo2 S1 S2 Hdiff He. apply Hdiff.
      destruct (fallback_key_coordinates rt Hbar Hinj r1 r2) as [-> ->]; auto;
        unfold uses_registry_id; [rewrite Hid1 | rewrite Hid2]; reflexivity. }
  intros req n echo nwis echo' nwis' geo epa usgs epa' usgs' l1 r1 l2 r2 l3
         Hg He Hu He' Hu' Hl Hl' Hk.
  unfold report. rewrite Hg. cbn [bind]. rewrite Hu, He, Hu', He'. cbn [bind].
  rewrite Hl, Hl'. now rewrite (merge_loop_later_duplicate rt _ _ _ l1 r1 l2 r2 l3 Hk).
Qed.

(** The facility registry with a plant whose identifier spells the key of
    the depot behind it, which has no identifier; then with the plant
    alone, and with the depot alone. *)
Definition plant_row : pyval :=
  PDict [("Lat83", PFloat 1); ("Long83", PFloat 3); ("FacName", PStr "Plant");
         ("RegistryID",
          PStr ("Depot|" ++ Sample.str (PFloat 1.5) ++ "|" ++ Sample.str (PFloat 2.5)))].

Definition depot_row : pyval :=
  PDict [("Lat83", PFloat 1.5); ("Long83", PFloat 2.5); ("FacName", PStr "Depot")].

Definition registry_of (rows : list pyval) : reply :=
  Responds (Sample.ok_json (PDict [("Results", PDict [("Facilities", PList rows)])])).

Definition no_sites : reply := Responds (Sample.ok_text "").

Definition names_listed (r : result ReportResponse) : option (list string) :=
  match r with
  | Ret resp => Some (map fac_name (facilities resp))
  | Raise _ => None
  end.

Lemma report_merges_distinct_composite_keys_witness :
  report Sample.platform Sample.request (Responds (Sample.ok_json Sample.hit))
    (registry_of [plant_row; depot_row]) no_sites
  = report Sample.platform Sample.request (Responds (Sample.ok_json Sample.hit))
      (registry_of [plant_row]) no_sites
  /\ names_listed
       (report Sample.platform Sample.request (Responds (Sample.ok_json Sample.hit))
          (registry_of [plant_row; depot_row]) no_sites) = Some ["Plant"]
  /\ names_listed
       (report Sample.platform Sample.request (Responds (Sample.ok_json Sample.hit))
          (registry_of [depot_row]) no_sites) = Some ["Depot"]
  /\ dedup_key Sample.platform site_a <> dedup_key Sample.platform site_b.
Proof.
  split; [|split; [|split]]; [| vm_compute; reflexivity | vm_compute; reflexivity |].
  2:{ destruct (report_merges_distinct_composite_keys Sample.platform) as (_ & _ & _ & Hd).
      apply (Hd site_a site_b sample_str_bar_free sample_str_inj);
        try reflexivity; try exact I.
      intros He.
      apply (f_equal (fun c => match fst c with
                               | PFloat f => (f =? 31)%float
                               | _ => false
                               end)) in He.
      vm_compute in He. discriminate. }
  set (plant := {| name := PStr "Plant";
                   registry_id := PStr ("Depot|" ++ Sample.str (PFloat 1.5) ++ "|"
                                        ++ Sample.str (PFloat 2.5));
                   latitude := PFloat 1; longitude := PFloat 3;
                   source := "EPA_ECHO" |}).
  set (depot := {| name := PStr "Depot"; registry_id := PStr "N/A";
                   latitude := PFloat 1.5; longitude := PFloat 2.5;
                   source := "EPA_ECHO" |}).
  destruct (report_merges_distinct_composite_keys Sample.platform) as (_ & Hc & Hr & _).
  destruct (Hc plant depot eq_refl eq_refl eq_refl) as [_ Hk].
  refine (Hr Sample.request (Responds (Sample.ok_json Sample.hit))
            (registry_of [plant_row; depot_row]) no_sites
            (registry_of [plant_row]) no_sites
            {| original_address := "1 Main St, Apt 4"; cleaned_address := "1 Main St";
               geo_latitude := 1.5; geo_longitude := 2.5;
               display_name := PStr "1 Main St" |}
            [plant; depot] [] [plant] [] [] plant [] depot [] _ _ _ _ _ _ _ Hk);
    vm_compute; reflexivity.
Defined.

End KeyFacts.

(** ** Binary64 facts, from the specification of the primitive floats *)

Module FloatFacts.

Local Open Scope Z_scope.

Lemma Prim2SF_nan : Prim2SF nan = S754_nan.
Proof. reflexivity. Qed.

Lemma SFcompare_refl x : x <> S754_nan -> SFcompare x x = Some Eq.
Proof.
  destruct x as [s|s| |s m e]; intros H; try congruence; cbn [SFcompare].
  - reflexivity.
  - destruct s; reflexivity.
  - rewrite Z.compare_refl, Pos.compare_cont_refl. destruct s; reflexivity.
Qed.

Lemma is_nan_Prim2SF x : PrimFloat.is_nan x = true <-> Prim2SF x = S754_nan.
Proof.
  unfold PrimFloat.is_nan. rewrite eqb_spec. unfold SFeqb. split.
  - intros H. destruct (Prim2SF x) eqn:E; try reflexivity;
      rewrite SFcompare_refl in H by congruence; discriminate.
  - intros ->. reflexivity.
Qed.

Lemma is_nan_eq x : PrimFloat.is_nan x = true <-> x = nan.
Proof.
  rewrite is_nan_Prim2SF. split.
  - intros H. apply Prim2SF_inj. now rewrite H.
  - intros ->. reflexivity.
Qed.

Lemma not_nan_Prim2SF x : PrimFloat.is_nan x = false <-> Prim2SF x <> S754_nan.
Proof.
  rewrite <- is_nan_Prim2SF. destruct (PrimFloat.is_nan x); split; congruence.
Qed.

Lemma is_infinity_Prim2SF x :
  PrimFloat.is_infinity x = true <-> exists s, Prim2SF x = S754_infinity s.
Proof.
  unfold PrimFloat.is_infinity. rewrite eqb_spec, abs_spec.
  change (Prim2SF infinity) with (S754_infinity false).
  unfold SFeqb. destruct (Prim2SF x) as [s|s| |s m e]; cbn; split;
    try discriminate; try (intros [s' H]; discriminate); eauto.
Qed.

(** *** The size of a mantissa *)

Lemma digits2_pos_bounds m :
  2 ^ (Zpos (digits2_pos m) - 1) <= Zpos m < 2 ^ Zpos (digits2_pos m).
Proof.
  induction m as [m IH|m IH|]; cbn [digits2_pos]; [| |cbn; lia];
    rewrite Pos2Z.inj_succ;
    replace (Z.succ (Zpos (digits2_pos m)) - 1) with (Z.succ (Zpos (digits2_pos m) - 1)) by lia;
    rewrite !Z.pow_succ_r by lia; lia.
Qed.

Lemma digits2_pos_le m k : Zpos m < 2 ^ k -> Zpos (digits2_pos m) <= k.
Proof.
  intros H. destruct (Z_le_gt_dec (Zpos (digits2_pos m)) k) as [|Hgt]; [assumption|].
  exfalso. pose proof (digits2_pos_bounds m) as [Hlo _].
  assert (0 <= k \/ k < 0) as [Hk|Hk] by lia.
  - assert (2 ^ k <= 2 ^ (Zpos (digits2_pos m) - 1)) by (apply Z.pow_le_mono_r; lia).
    lia.
  - rewrite Z.pow_neg_r in H by assumption. lia.
Qed.

(** A valid finite float has a mantissa below [2^53] and an exponent
    between [-1074] and [971]. *)
Lemma bounded_range m e :
  bounded prec emax m e = true ->
  Zpos m < 2 ^ 53 /\ -1074 <= e <= 971.
Proof.
  unfold bounded, canonical_mantissa, fexp, SpecFloat.emin, prec, emax.
  intros H. apply andb_prop in H as [Hc He].
  apply Z.eqb_eq in Hc. apply Z.leb_le in He.
  pose proof (digits2_pos_bounds m) as [_ Hhi].
  assert (Hd : Zpos (digits2_pos m) <= 53) by lia.
  split; [|lia].
  eapply Z.lt_le_trans; [exact Hhi|]. apply Z.pow_le_mono_r; lia.
Qed.

(** *** The order of the floats, read on the integers *)

Definition mag (m : positive) (e : Z) : Z := (e + 1075) * 2 ^ 53 + Zpos m.

Definition Zcode (x : spec_float) : Z :=
  match x with
  | S754_zero _ => 0
  | S754_nan => 0
  | S754_infinity false => 2 ^ 70
  | S754_infinity true => - 2 ^ 70
  | S754_finite false m e => mag m e
  | S754_finite true m e => - mag m e
  end.

Lemma mag_range m e :
  bounded prec emax m e = true -> 0 < mag m e < 2 ^ 70.
Proof.
  intros H. apply bounded_range in H as [Hm He]. unfold mag.
  change (2 ^ 53) with 9007199254740992 in *.
  change (2 ^ 70) with 1180591620717411303424. lia.
Qed.

Lemma mag_compare m e m' e' :
  bounded prec emax m e = true -> bounded prec emax m' e' = true ->
  (mag m e ?= mag m' e') =
    match e ?= e' with
    | Lt => Lt
    | Gt => Gt
    | Eq => Pos.compare_cont Eq m m'
    end.
Proof.
  intros H H'. apply bounded_range in H as [Hm He], H' as [Hm' He'].
  unfold mag. change (2 ^ 53) with 9007199254740992 in *.
  destruct (Z.compare_spec e e') as [->|Hlt|Hgt].
  - change (Pos.compare_cont Eq m m') with (Zpos m ?= Zpos m').
    destruct (Z.compare_spec (Zpos m) (Zpos m')) as [Hq|Hq|Hq].
    + rewrite Hq. apply Z.compare_refl.
    + apply Z.compare_lt_iff. lia.
    + apply Z.compare_gt_iff. lia.
  - apply Z.compare_lt_iff. lia.
  - apply Z.compare_gt_iff. lia.
Qed.

Lemma SFcompare_Zcode x y :
  valid_binary x = true -> valid_binary y = true ->
  x <> S754_nan -> y <> S754_nan ->
  SFcompare x y = Some (Zcode x ?= Zcode y).
Proof.
  intros Vx Vy Nx Ny.
  destruct x as [s|s| |s m e], y as [s'|s'| |s' m' e']; try congruence;
    cbn [valid_binary] in Vx, Vy; cbn [SFcompare Zcode];
    try pose proof (mag_range _ _ Vx) as Rx;
    try pose proof (mag_range _ _ Vy) as Ry;
    try (destruct s); try (destruct s'); try reflexivity;
    f_equal; symmetry;
    try (apply Z.compare_lt_iff; change (2 ^ 70) with 1180591620717411303424 in *; lia);
    try (apply Z.compare_gt_iff; change (2 ^ 70) with 1180591620717411303424 in *; lia).
  - rewrite Z.compare_opp, (Z.compare_antisym (mag m e) (mag m' e')).
    rewrite (mag_compare m e m' e') by assumption.
    destruct (e ?= e'); reflexivity.
  - now apply mag_compare.
Qed.

(** The place of a float in the order. *)
Definition ord (x : float) : Z := Zcode (Prim2SF x).

Lemma compare_ord x y :
  PrimFloat.is_nan x = false -> PrimFloat.is_nan y = false ->
  SFcompare (Prim2SF x) (Prim2SF y) = Some (ord x ?= ord y).
Proof.
  intros Hx Hy. apply SFcompare_Zcode; try apply Prim2SF_valid;
    now apply not_nan_Prim2SF.
Qed.

Lemma ltb_ord x y :
  PrimFloat.is_nan x = false -> PrimFloat.is_nan y = false ->
  (x <? y)%float = (ord x <? ord y).
Proof.
  intros Hx Hy. rewrite ltb_spec. unfold SFltb, Z.ltb.
  rewrite compare_ord by assumption. reflexivity.
Qed.

Lemma leb_ord x y :
  PrimFloat.is_nan x = false -> PrimFloat.is_nan y = false ->
  (x <=? y)%float = (ord x <=? ord y).
Proof.
  intros Hx Hy. rewrite leb_spec. unfold SFleb, Z.leb.
  rewrite compare_ord by assumption. destruct (ord x ?= ord y); reflexivity.
Qed.

Lemma eqb_ord x y :
  PrimFloat.is_nan x = false -> PrimFloat.is_nan y = false ->
  (x =? y)%float = (ord x =? ord y).
Proof.
  intros Hx Hy. rewrite eqb_spec. unfold SFeqb.
  rewrite compare_ord by assumption.
  destruct (Z.compare_spec (ord x) (ord y)) as [H|H|H]; symmetry;
    [apply Z.eqb_eq | apply Z.eqb_neq | apply Z.eqb_neq]; lia.
Qed.

Lemma ltb_nan_l x y : PrimFloat.is_nan x = true -> (x <? y)%float = false.
Proof.
  intros H. apply is_nan_Prim2SF in H. rewrite ltb_spec. unfold SFltb. now rewrite H.
Qed.

Lemma ltb_nan_r x y : PrimFloat.is_nan y = true -> (x <? y)%float = false.
Proof.
  intros H. apply is_nan_Prim2SF in H. rewrite ltb_spec. unfold SFltb. rewrite H.
  destruct (Prim2SF x); reflexivity.
Qed.

(** What the radius filter of [report] leaves: a distance that is a number
    and does not exceed the radius is at most the radius. *)
Lemma not_ltb_leb x y :
  PrimFloat.is_nan x = false -> PrimFloat.is_nan y = false ->
  (y <? x)%float = false -> (x <=? y)%float = true.
Proof.
  intros Hx Hy H. rewrite ltb_ord in H by assumption.
  rewrite leb_ord by assumption. apply Z.ltb_ge in H. now apply Z.leb_le.
Qed.

(** *** Rounding never invents a NaN *)

Lemma iter_pos_invariant {A} (P : A -> Prop) (f : A -> A) :
  (forall x, P x -> P (f x)) -> forall p x, P x -> P (iter_pos f p x).
Proof.
  intros Hf. induction p as [p IH|p IH|]; intros x Hx; cbn [iter_pos]; auto.
Qed.

Lemma shr_1_range b mrs :
  0 <= shr_m mrs <= b -> 0 <= shr_m (shr_1 mrs) <= b.
Proof.
  destruct mrs as [m r s]. cbn [shr_m shr_1].
  destruct m as [|[p|p|]|[p|p|]]; cbn [shr_m]; lia.
Qed.

Lemma shr_range b mrs e n :
  0 <= shr_m mrs <= b -> 0 <= shr_m (fst (shr mrs e n)) <= b.
Proof.
  intros H. unfold shr. destruct n as [|p|p]; cbn [fst]; try assumption.
  apply (iter_pos_invariant (fun x => 0 <= shr_m x <= b)); [|assumption].
  intros x. apply shr_1_range.
Qed.

Lemma shr_record_of_loc_m m l : shr_m (shr_record_of_loc m l) = m.
Proof. destruct l as [|[]]; reflexivity. Qed.

Lemma shr_fexp_range m e l :
  0 <= m -> 0 <= shr_m (fst (shr_fexp prec emax m e l)) <= m.
Proof.
  intros H. unfold shr_fexp. apply shr_range. rewrite shr_record_of_loc_m. lia.
Qed.

(** The exponent that [shr_fexp] returns. *)
Lemma shr_fexp_exponent m e l :
  snd (shr_fexp prec emax m e l) = Z.max e (fexp prec emax (Zdigits2 m + e)).
Proof.
  unfold shr_fexp, shr.
  destruct (fexp prec emax (Zdigits2 m + e) - e) as [|p|p] eqn:E; cbn [snd]; lia.
Qed.

Lemma round_nearest_even_range m l :
  0 <= m -> m <= round_nearest_even m l <= m + 1.
Proof.
  intros H. destruct l as [|[]]; cbn [round_nearest_even]; try lia.
  destruct (Z.even m); lia.
Qed.

(** A rounded result carries the sign it was given. *)
Definition signed (s : bool) (r : spec_float) : Prop :=
  r = S754_zero s \/ (exists m e, r = S754_finite s m e) \/ r = S754_infinity s.

Lemma binary_round_aux_signed sx mx ex lx :
  0 <= mx -> signed sx (binary_round_aux prec emax sx mx ex lx).
Proof.
  intros H. unfold binary_round_aux.
  pose proof (shr_fexp_range mx ex lx H) as H1.
  destruct (shr_fexp prec emax mx ex lx) as [mrs' e'].
  cbn [fst] in H1.
  pose proof (round_nearest_even_range (shr_m mrs') (loc_of_shr_record mrs')
                ltac:(lia)) as H2.
  pose proof (shr_fexp_range (round_nearest_even (shr_m mrs') (loc_of_shr_record mrs'))
                e' loc_Exact ltac:(lia)) as H3.
  destruct (shr_fexp prec emax _ e' loc_Exact) as [mrs'' e''].
  cbn [fst] in H3. unfold signed.
  destruct (shr_m mrs'') as [|m|m]; [auto | | lia].
  destruct (e'' <=? emax - prec); eauto.
Qed.

Lemma Zdigits2_le m k : 0 <= m < 2 ^ k -> 0 <= k -> Zdigits2 m <= k.
Proof.
  intros [H0 H1] Hk. destruct m as [|p|p]; cbn [Zdigits2]; [assumption| |lia].
  now apply digits2_pos_le.
Qed.

(** Far enough below the range there is no overflow. *)
Lemma binary_round_aux_in_range sx mx ex lx D :
  0 <= mx < 2 ^ D -> 0 <= D <= 2000 -> ex + 2 * D + 1 <= 971 ->
  binary_round_aux prec emax sx mx ex lx = S754_zero sx
  \/ exists m e, binary_round_aux prec emax sx mx ex lx = S754_finite sx m e.
Proof.
  intros Hm HD He. unfold binary_round_aux.
  pose proof (shr_fexp_range mx ex lx ltac:(lia)) as H1.
  pose proof (shr_fexp_exponent mx ex lx) as E1.
  destruct (shr_fexp prec emax mx ex lx) as [mrs' e'].
  cbn [fst snd] in H1, E1.
  set (mr := round_nearest_even (shr_m mrs') (loc_of_shr_record mrs')).
  pose proof (round_nearest_even_range (shr_m mrs') (loc_of_shr_record mrs')
                ltac:(lia)) as H2. fold mr in H2.
  pose proof (shr_fexp_range mr e' loc_Exact ltac:(lia)) as H3.
  pose proof (shr_fexp_exponent mr e' loc_Exact) as E2.
  destruct (shr_fexp prec emax mr e' loc_Exact) as [mrs'' e''].
  cbn [fst snd] in H3, E2.
  assert (Hd1 : Zdigits2 mx <= D) by (apply Zdigits2_le; lia).
  assert (Hd2 : Zdigits2 mr <= D + 1).
  { apply Zdigits2_le; [|lia]. rewrite Z.pow_add_r, Z.pow_1_r by lia. lia. }
  unfold fexp, SpecFloat.emin, prec, emax in *.
  destruct (shr_m mrs'') as [|m|m]; [auto | | lia].
  replace (e'' <=? 1024 - 53) with true by (symmetry; apply Z.leb_le; lia).
  eauto.
Qed.

(** *** Classes of floats *)

Definition finite_sf (x : spec_float) : Prop :=
  match x with
  | S754_zero _ | S754_finite _ _ _ => True
  | _ => False
  end.

Lemma is_finite_Prim2SF x : PyFloat.is_finite x = true <-> finite_sf (Prim2SF x).
Proof.
  unfold PyFloat.is_finite. split.
  - intros H. apply andb_prop in H as [Hn Hi].
    apply negb_true_iff in Hn, Hi. apply not_nan_Prim2SF in Hn.
    destruct (Prim2SF x) as [s|s| |s m e] eqn:E; cbn; auto.
    assert (PrimFloat.is_infinity x = true) by (apply is_infinity_Prim2SF; eauto).
    congruence.
  - intros H. apply andb_true_intro. split; apply negb_true_iff.
    + apply not_nan_Prim2SF. intros E. now rewrite E in H.
    + destruct (PrimFloat.is_infinity x) eqn:Hi; [|reflexivity].
      apply is_infinity_Prim2SF in Hi as [s E]. now rewrite E in H.
Qed.

Lemma is_finite_not_nan x : PyFloat.is_finite x = true -> PrimFloat.is_nan x = false.
Proof.
  unfold PyFloat.is_finite. intros H. apply andb_prop in H as [H _].
  now apply negb_true_iff in H.
Qed.

Lemma signed_not_nan s r : signed s r -> r <> S754_nan.
Proof. intros [->|[(m & e & ->)| ->]]; discriminate. Qed.

Lemma binary_normalize_not_nan z e s :
  binary_normalize prec emax z e s <> S754_nan.
Proof.
  unfold binary_normalize, binary_round.
  destruct z as [|m|m]; [discriminate| |];
    destruct (shl_align _ _ _) as [mz ez];
    eapply signed_not_nan, binary_round_aux_signed; lia.
Qed.

Lemma SFmul_finite x y :
  finite_sf x -> finite_sf y -> SF64mul x y <> S754_nan.
Proof.
  destruct x as [s|s| |s m e], y as [s'|s'| |s' m' e']; cbn; try contradiction;
    intros _ _; try discriminate.
  eapply signed_not_nan, binary_round_aux_signed; lia.
Qed.

Lemma SFmul_by_finite x s m e :
  x <> S754_nan -> SF64mul x (S754_finite s m e) <> S754_nan.
Proof.
  destruct x as [sx|sx| |sx mx ex]; cbn; intros H; try congruence; try discriminate.
  eapply signed_not_nan, binary_round_aux_signed; lia.
Qed.

Lemma SFadd_finite_l x y :
  finite_sf x -> y <> S754_nan -> SF64add x y <> S754_nan.
Proof.
  destruct x as [s|s| |s m e], y as [s'|s'| |s' m' e']; cbn; try contradiction;
    intros _ H; try congruence; try discriminate.
  - destruct s, s'; discriminate.
  - apply binary_normalize_not_nan.
Qed.

Lemma SFsub_finite_l x y :
  finite_sf x -> y <> S754_nan -> SF64sub x y <> S754_nan.
Proof.
  destruct x as [s|s| |s m e], y as [s'|s'| |s' m' e']; cbn; try contradiction;
    intros _ H; try congruence; try discriminate.
  - destruct s, s'; discriminate.
  - apply binary_normalize_not_nan.
Qed.

Lemma SFsub_finite_r x y :
  x <> S754_nan -> finite_sf y -> SF64sub x y <> S754_nan.
Proof.
  destruct x as [s|s| |s m e], y as [s'|s'| |s' m' e']; cbn; try contradiction;
    intros H _; try congruence; try discriminate.
  - destruct s, s'; discriminate.
  - apply binary_normalize_not_nan.
Qed.

Lemma SFadd_finite_r x y :
  x <> S754_nan -> finite_sf y -> SF64add x y <> S754_nan.
Proof.
  destruct x as [s|s| |s m e], y as [s'|s'| |s' m' e']; cbn; try contradiction;
    intros H _; try congruence; try discriminate.
  - destruct s, s'; discriminate.
  - apply binary_normalize_not_nan.
Qed.

Lemma SFsub_nan x y : SF64sub x y <> S754_nan -> x <> S754_nan /\ y <> S754_nan.
Proof.
  destruct x as [s|s| |s m e], y as [s'|s'| |s' m' e']; cbn; intros H;
    split; congruence.
Qed.

Lemma SFdiv_core_binary_nonneg m1 e1 m2 e2 :
  0 <= m1 -> 0 < m2 ->
  0 <= fst (fst (SFdiv_core_binary prec emax m1 e1 m2 e2)).
Proof.
  intros H1 H2. unfold SFdiv_core_binary.
  set (s := e1 - e2 - _).
  set (m' := match s with 0 => m1 | Z.pos _ => Z.shiftl m1 s | Z.neg _ => 0 end).
  assert (H : 0 <= m').
  { unfold m'. destruct s; try lia. apply Z.shiftl_nonneg. lia. }
  pose proof (Z_div_mod m' m2 ltac:(lia)) as Hdm.
  destruct (Z.div_eucl m' m2) as [q r]. cbn [fst]. nia.
Qed.

Lemma SFdiv_by_finite x s m e :
  x <> S754_nan -> SF64div x (S754_finite s m e) <> S754_nan.
Proof.
  destruct x as [sx|sx| |sx mx ex]; cbn [SF64div SFdiv]; intros H;
    try congruence; try discriminate.
  pose proof (SFdiv_core_binary_nonneg (Z.pos mx) ex (Z.pos m) e
                ltac:(lia) ltac:(lia)) as Hq.
  destruct (SFdiv_core_binary prec emax (Z.pos mx) ex (Z.pos m) e) as [[mz ez] lz].
  cbn [fst] in Hq.
  eapply signed_not_nan, binary_round_aux_signed; lia.
Qed.

(** *** The same facts on the primitive floats *)

Local Open Scope float_scope.

Lemma mul_const_not_nan x c s m e :
  Prim2SF c = S754_finite s m e ->
  PrimFloat.is_nan x = false -> PrimFloat.is_nan (x * c) = false.
Proof.
  intros Hc Hx. apply not_nan_Prim2SF. rewrite mul_spec, Hc.
  apply SFmul_by_finite. now apply not_nan_Prim2SF.
Qed.

Lemma SFmul_comm x y : SF64mul x y = SF64mul y x.
Proof.
  destruct x as [s|s| |s m e], y as [s'|s'| |s' m' e']; cbn;
    rewrite ?(xorb_comm s s'); try reflexivity.
  now rewrite Pos.mul_comm, Z.add_comm.
Qed.

Lemma mul_comm x y : x * y = y * x.
Proof. apply Prim2SF_inj. rewrite !mul_spec. apply SFmul_comm. Qed.

Lemma const_mul_not_nan x c s m e :
  Prim2SF c = S754_finite s m e ->
  PrimFloat.is_nan x = false -> PrimFloat.is_nan (c * x) = false.
Proof. intros. rewrite mul_comm. eauto using mul_const_not_nan. Qed.

Lemma div_const_not_nan x c s m e :
  Prim2SF c = S754_finite s m e ->
  PrimFloat.is_nan x = false -> PrimFloat.is_nan (x / c) = false.
Proof.
  intros Hc Hx. apply not_nan_Prim2SF. rewrite div_spec, Hc.
  apply SFdiv_by_finite. now apply not_nan_Prim2SF.
Qed.

Lemma sub_not_nan x y :
  PrimFloat.is_nan (x - y) = false ->
  PrimFloat.is_nan x = false /\ PrimFloat.is_nan y = false.
Proof.
  rewrite !not_nan_Prim2SF, sub_spec. apply SFsub_nan.
Qed.

Lemma mul_finite_not_nan x y :
  PyFloat.is_finite x = true -> PyFloat.is_finite y = true ->
  PrimFloat.is_nan (x * y) = false.
Proof.
  rewrite !is_finite_Prim2SF, not_nan_Prim2SF, mul_spec. apply SFmul_finite.
Qed.

Lemma add_finite_l_not_nan x y :
  PyFloat.is_finite x = true -> PrimFloat.is_nan y = false ->
  PrimFloat.is_nan (x + y) = false.
Proof.
  rewrite is_finite_Prim2SF, !not_nan_Prim2SF, add_spec. apply SFadd_finite_l.
Qed.

Lemma add_finite_r_not_nan x y :
  PrimFloat.is_nan x = false -> PyFloat.is_finite y = true ->
  PrimFloat.is_nan (x + y) = false.
Proof.
  rewrite is_finite_Prim2SF, !not_nan_Prim2SF, add_spec. apply SFadd_finite_r.
Qed.

Lemma sub_finite_l_not_nan x y :
  PyFloat.is_finite x = true -> PrimFloat.is_nan y = false ->
  PrimFloat.is_nan (x - y) = false.
Proof.
  rewrite is_finite_Prim2SF, !not_nan_Prim2SF, sub_spec. apply SFsub_finite_l.
Qed.

Lemma sub_finite_r_not_nan x y :
  PrimFloat.is_nan x = false -> PyFloat.is_finite y = true ->
  PrimFloat.is_nan (x - y) = false.
Proof.
  rewrite is_finite_Prim2SF, !not_nan_Prim2SF, sub_spec. apply SFsub_finite_r.
Qed.

(** A finite float minus itself is [+0.0]. *)
Lemma sub_diag x : PyFloat.is_finite x = true -> x - x = 0.
Proof.
  intros H. apply is_finite_Prim2SF in H. apply Prim2SF_inj.
  rewrite sub_spec. change (Prim2SF 0) with (S754_zero false).
  destruct (Prim2SF x) as [s|s| |s m e]; try contradiction; cbn.
  - destruct s; reflexivity.
  - now rewrite Z.sub_diag.
Qed.

(** *** Signs *)

Lemma binary_round_aux_opp s m e l :
  SFopp (binary_round_aux prec emax s m e l)
  = binary_round_aux prec emax (negb s) m e l.
Proof.
  unfold binary_round_aux.
  destruct (shr_fexp prec emax m e l) as [mrs' e'].
  destruct (shr_fexp prec emax _ e' loc_Exact) as [mrs'' e''].
  destruct (shr_m mrs''); try reflexivity.
  destruct (e'' <=? emax - prec)%Z; reflexivity.
Qed.

Lemma binary_round_opp s m e :
  SFopp (binary_round prec emax s m e) = binary_round prec emax (negb s) m e.
Proof.
  unfold binary_round. destruct (shl_align _ _ _) as [mz ez].
  apply binary_round_aux_opp.
Qed.

Lemma SFmul_opp_l x y : SF64mul (SFopp x) y = SFopp (SF64mul x y).
Proof.
  destruct x as [s|s| |s m e], y as [s'|s'| |s' m' e']; cbn;
    rewrite ?binary_round_aux_opp; try reflexivity;
    destruct s, s'; reflexivity.
Qed.

Lemma SFdiv_opp_l x y : SF64div (SFopp x) y = SFopp (SF64div x y).
Proof.
  destruct x as [s|s| |s m e], y as [s'|s'| |s' m' e']; cbn [SF64div SFdiv SFopp];
    try reflexivity; try (destruct s, s'; reflexivity).
  destruct (SFdiv_core_binary prec emax (Z.pos m) e (Z.pos m') e') as [[mz ez] lz].
  rewrite binary_round_aux_opp. destruct s, s'; reflexivity.
Qed.

Lemma opp_involutive x : - - x = x.
Proof.
  apply Prim2SF_inj. rewrite !opp_spec.
  destruct (Prim2SF x) as [s|s| |s m e]; cbn; now rewrite ?negb_involutive.
Qed.

Lemma mul_opp_l x y : (- x) * y = - (x * y).
Proof. apply Prim2SF_inj. now rewrite mul_spec, !opp_spec, mul_spec, SFmul_opp_l. Qed.

Lemma div_opp_l x y : (- x) / y = - (x / y).
Proof. apply Prim2SF_inj. now rewrite div_spec, !opp_spec, div_spec, SFdiv_opp_l. Qed.

Lemma binary_normalize_opp z e :
  z <> 0%Z ->
  binary_normalize prec emax (- z) e false
  = SFopp (binary_normalize prec emax z e false).
Proof.
  destruct z as [|p|p]; intros H; [congruence| |]; cbn [Z.opp binary_normalize];
    now rewrite binary_round_opp.
Qed.

(** Exchanging the operands of a subtraction changes the sign, or nothing
    at all (when both differences are [+0.0] or NaN). *)
Lemma SFsub_swap x y :
  SF64sub y x = SFopp (SF64sub x y) \/ SF64sub y x = SF64sub x y.
Proof.
  destruct x as [s|s| |s m e], y as [s'|s'| |s' m' e']; cbn [SF64sub SFsub SFopp];
    auto; try (destruct s, s'; cbn; auto; fail).
  cbv zeta. rewrite (Z.min_comm e' e).
  set (a := cond_Zopp s (Z.pos (fst (shl_align m e (Z.min e e'))))).
  set (b := cond_Zopp s' (Z.pos (fst (shl_align m' e' (Z.min e e'))))).
  destruct (Z.eq_dec (a - b) 0) as [E|E].
  - right. replace (b - a)%Z with 0%Z by lia. now rewrite E.
  - left. replace (b - a)%Z with (- (a - b))%Z by lia.
    now apply binary_normalize_opp.
Qed.

Lemma sub_swap x y : y - x = - (x - y) \/ y - x = x - y.
Proof.
  destruct (SFsub_swap (Prim2SF x) (Prim2SF y)) as [H|H]; [left|right];
    apply Prim2SF_inj; now rewrite ?opp_spec, !sub_spec.
Qed.

Lemma is_nan_opp x : PrimFloat.is_nan (- x) = PrimFloat.is_nan x.
Proof.
  destruct (PrimFloat.is_nan x) eqn:H.
  - apply is_nan_Prim2SF. apply is_nan_Prim2SF in H. now rewrite opp_spec, H.
  - apply not_nan_Prim2SF. apply not_nan_Prim2SF in H. rewrite opp_spec.
    destruct (Prim2SF x); cbn; congruence.
Qed.

Lemma abs_opp x : PrimFloat.abs (- x) = PrimFloat.abs x.
Proof.
  apply Prim2SF_inj. rewrite !abs_spec, opp_spec.
  destruct (Prim2SF x); reflexivity.
Qed.

Lemma is_infinity_opp x : PrimFloat.is_infinity (- x) = PrimFloat.is_infinity x.
Proof. unfold PrimFloat.is_infinity. now rewrite abs_opp. Qed.

Lemma is_finite_opp x : PyFloat.is_finite (- x) = PyFloat.is_finite x.
Proof. unfold PyFloat.is_finite. now rewrite is_nan_opp, is_infinity_opp. Qed.

Lemma ord_opp x : ord (- x) = (- ord x)%Z.
Proof.
  unfold ord. rewrite opp_spec.
  destruct (Prim2SF x) as [s|s| |s m e]; cbn; try reflexivity;
    destruct s; cbn; lia.
Qed.

End FloatFacts.

(** ** Distance and bearing *)

Module GeoMathFacts.

Import FloatFacts.

Local Open Scope float_scope.

(** C9: the bearing from a point to itself is defined and is "N".  Both
    differences are [+0.0], [atan2(+0.0, +0.0)] is settled by CPython itself
    as [+0.0], and index 0 of the compass is "N". *)
Theorem cardinal_direction_same_point rt lat lon :
  PyFloat.is_finite lat = true -> PyFloat.is_finite lon = true ->
  cardinal_direction rt lat lon lat lon = Ret "N"%string.
Proof.
  intros Hlat Hlon. unfold cardinal_direction.
  rewrite (sub_diag lat Hlat), (sub_diag lon Hlon).
  vm_compute. reflexivity.
Qed.

Lemma cardinal_direction_same_point_witness :
  cardinal_direction Sample.platform 30 (-97) 30 (-97) = Ret "N"%string.
Proof.
  apply cardinal_direction_same_point; reflexivity.
Defined.

Section Symmetry.

Variable rt : runtime.

Hypothesis sin_odd : forall x, libm_sin rt (- x) = - libm_sin rt x.

Lemma math_sin_opp x :
  math_sin rt (- x) =
    match math_sin rt x with
    | Ret r => Ret (- r)
    | Raise e => Raise e
    end.
Proof.
  unfold math_sin, PyFloat.math_1. rewrite sin_odd.
  rewrite !is_nan_opp, is_infinity_opp, is_finite_opp.
  destruct (PrimFloat.is_nan (libm_sin rt x) && negb (PrimFloat.is_nan x));
    [reflexivity|].
  destruct (PrimFloat.is_infinity (libm_sin rt x) && PyFloat.is_finite x);
    reflexivity.
Qed.

Lemma ord_zero : ord 0 = 0%Z.
Proof. reflexivity. Qed.

(** [(-x) ** 2] is [x ** 2]: CPython turns the base around before it calls
    the C library. *)
Lemma float_pow2_opp x : float_pow2 rt (- x) = float_pow2 rt x.
Proof.
  unfold float_pow2. rewrite is_nan_opp, is_infinity_opp, abs_opp.
  destruct (PrimFloat.is_nan x) eqn:Hn.
  { apply is_nan_eq in Hn. subst x. reflexivity. }
  destruct (PrimFloat.is_infinity x); [reflexivity|].
  assert (Hn' : PrimFloat.is_nan (- x) = false) by now rewrite is_nan_opp.
  assert (H0 : PrimFloat.is_nan 0 = false) by reflexivity.
  rewrite (eqb_ord (- x) 0), (eqb_ord x 0), (ltb_ord (- x) 0), (ltb_ord x 0)
    by assumption.
  rewrite ord_opp, ord_zero.
  destruct (Z.eqb_spec (ord x) 0) as [E|E].
  - rewrite E. reflexivity.
  - replace (- ord x =? 0)%Z with false by (symmetry; apply Z.eqb_neq; lia).
    destruct (Z.ltb_spec (ord x) 0) as [L|L].
    + replace (- ord x <? 0)%Z with false by (symmetry; apply Z.ltb_ge; lia).
      reflexivity.
    + replace (- ord x <? 0)%Z with true by (symmetry; apply Z.ltb_lt; lia).
      rewrite opp_involutive. reflexivity.
Qed.

(** The haversine term of one difference. *)
Definition hav (d : float) : result float :=
  bind (math_sin rt (PyFloat.radians d / 2)) (float_pow2 rt).

Lemma hav_opp d : hav (- d) = hav d.
Proof.
  unfold hav, PyFloat.radians. rewrite mul_opp_l, div_opp_l, math_sin_opp.
  destruct (math_sin rt (d * PyFloat.degToRad / 2)) as [r|e]; cbn [bind];
    [apply float_pow2_opp | reflexivity].
Qed.

Lemma hav_swap x y : hav (y - x) = hav (x - y).
Proof.
  destruct (sub_swap x y) as [H|H]; rewrite H; [apply hav_opp | reflexivity].
Qed.

Lemma math_1_raises f x e : PyFloat.math_1 f x = Raise e -> e = ValueError.
Proof.
  unfold PyFloat.math_1.
  destruct (PrimFloat.is_nan (f x) && negb (PrimFloat.is_nan x));
    [congruence|].
  destruct (PrimFloat.is_infinity (f x) && PyFloat.is_finite x); congruence.
Qed.

Lemma haversine_hav lat1 lon1 lat2 lon2 :
  haversine rt lat1 lon1 lat2 lon2 =
    bind (hav (lat2 - lat1)) (fun p1 =>
    bind (math_cos rt (PyFloat.radians lat1)) (fun c1 =>
    bind (math_cos rt (PyFloat.radians lat2)) (fun c2 =>
    bind (hav (lon2 - lon1)) (fun p2 =>
      let a := p1 + c1 * c2 * p2 in
      bind (PyFloat.math_sqrt a) (fun ra =>
      bind (PyFloat.math_sqrt (1 - a)) (fun rb =>
      bind (math_atan2 rt ra rb) (fun t =>
        Ret (py_round rt (3958.8 * (2 * t)) 2)))))))).
Proof.
  unfold haversine, hav.
  destruct (math_sin rt (PyFloat.radians (lat2 - lat1) / 2)); cbn [bind];
    [|reflexivity].
  destruct (float_pow2 rt a); cbn [bind]; [|reflexivity].
  destruct (math_cos rt (PyFloat.radians lat1)); cbn [bind]; [|reflexivity].
  destruct (math_cos rt (PyFloat.radians lat2)); cbn [bind]; [|reflexivity].
  destruct (math_sin rt (PyFloat.radians (lon2 - lon1) / 2)); cbn [bind];
    reflexivity.
Qed.

(** C6: the distance from A to B is the distance from B to A, to the last
    bit (so within any tolerance), on a platform whose sine is odd: the two
    differences change sign together, squaring forgets the sign, and the
    product of the two cosines does not depend on their order. *)
Theorem haversine_symmetric lat1 lon1 lat2 lon2 :
  haversine rt lat1 lon1 lat2 lon2 = haversine rt lat2 lon2 lat1 lon1.
Proof.
  rewrite !haversine_hav.
  rewrite (hav_swap lat2 lat1), (hav_swap lon2 lon1).
  destruct (hav (lat2 - lat1)) as [p1|e]; cbn [bind]; [|reflexivity].
  unfold math_cos.
  destruct (PyFloat.math_1 (libm_cos rt) (PyFloat.radians lat1)) as [c1|e1] eqn:E1,
           (PyFloat.math_1 (libm_cos rt) (PyFloat.radians lat2)) as [c2|e2] eqn:E2;
    cbn [bind]; try reflexivity.
  - now rewrite (mul_comm c2 c1).
  - apply math_1_raises in E1, E2. congruence.
Qed.

End Symmetry.

Lemma sample_sin_odd x :
  libm_sin Sample.platform (- x) = - libm_sin Sample.platform x.
Proof. cbn. apply mul_opp_l. Qed.

Lemma haversine_symmetric_witness :
  haversine Sample.platform 30 (-97) 31 (-96)
  = haversine Sample.platform 31 (-96) 30 (-97).
Proof.
  apply (haversine_symmetric Sample.platform sample_sin_odd).
Defined.

End GeoMathFacts.

(** ** Distances in a report *)

Module DistanceFacts.

Import FloatFacts GeoMathFacts.

Local Open Scope float_scope.

Lemma Prim2SF_one : Prim2SF 1 = S754_finite false 4503599627370496 (-52).
Proof. reflexivity. Qed.

(** A float of magnitude at most one is zero or has an exponent of [-52]
    at most. *)
Lemma abs_le_one x :
  (PrimFloat.abs x <=? 1) = true ->
  (exists s, Prim2SF x = S754_zero s)
  \/ (exists s m e, Prim2SF x = S754_finite s m e /\ (e <= -52)%Z).
Proof.
  rewrite leb_spec, abs_spec, Prim2SF_one. unfold SFleb.
  destruct (Prim2SF x) as [s|s| |s m e]; cbn [SFabs SFcompare]; try discriminate.
  - eauto.
  - intros H. right. exists s, m, e. split; [reflexivity|].
    destruct (Z.compare_spec e (-52)); first [lia | discriminate].
Qed.

Lemma abs_le_one_finite x :
  (PrimFloat.abs x <=? 1) = true -> PyFloat.is_finite x = true.
Proof.
  intros H. apply is_finite_Prim2SF.
  destruct (abs_le_one x H) as [[s ->]|(s & m & e & -> & _)]; exact I.
Qed.

(** The product of two such floats does not overflow. *)
Lemma mul_bounded_finite x y :
  (PrimFloat.abs x <=? 1) = true -> (PrimFloat.abs y <=? 1) = true ->
  PyFloat.is_finite (x * y) = true.
Proof.
  intros Hx Hy. apply is_finite_Prim2SF. rewrite mul_spec.
  pose proof (Prim2SF_valid x) as Vx. pose proof (Prim2SF_valid y) as Vy.
  destruct (abs_le_one x Hx) as [[s Ex]|(s & m & e & Ex & He)],
           (abs_le_one y Hy) as [[s' Ey]|(s' & m' & e' & Ey & He')];
    rewrite Ex, Ey in *; cbn [SF64mul SFmul finite_sf]; auto.
  cbn [valid_binary] in Vx, Vy.
  apply bounded_range in Vx as [Hm _], Vy as [Hm' _].
  destruct (binary_round_aux_in_range (xorb s s') (Z.pos (m * m')) (e + e')
              loc_Exact 106) as [->|(m0 & e0 & ->)]; try exact I; try lia.
  rewrite Pos2Z.inj_mul. change (2 ^ 106)%Z with (2 ^ 53 * 2 ^ 53)%Z.
  split; [lia|]. apply Z.mul_lt_mono_nonneg; lia.
Qed.

Lemma math_1_ret f x r :
  PyFloat.math_1 f x = Ret r ->
  r = f x /\ (PrimFloat.is_nan x = false -> PrimFloat.is_nan r = false).
Proof.
  unfold PyFloat.math_1.
  destruct (PrimFloat.is_nan (f x)) eqn:Hn; cbn [andb].
  - destruct (PrimFloat.is_nan x); cbn [negb]; [|discriminate].
    destruct (PrimFloat.is_infinity (f x) && PyFloat.is_finite x);
      [discriminate|]. intros [= <-]. split; [reflexivity | discriminate].
  - destruct (PrimFloat.is_infinity (f x) && PyFloat.is_finite x);
      [discriminate|]. intros [= <-]. auto.
Qed.

Lemma math_2_ret f x y r :
  PyFloat.math_2 f x y = Ret r ->
  PrimFloat.is_nan x = false -> PrimFloat.is_nan y = false ->
  PrimFloat.is_nan r = false.
Proof.
  unfold PyFloat.math_2. intros H Hx Hy. rewrite Hx, Hy in H.
  cbn [negb andb] in H.
  destruct (PrimFloat.is_nan (f x y)) eqn:Hn; [discriminate|].
  destruct (PrimFloat.is_infinity (f x y));
    [destruct (PyFloat.is_finite x && PyFloat.is_finite y); [discriminate|]|];
    congruence.
Qed.

(** NaN differences stop [cardinal_direction]: [round] of a NaN raises. *)
Lemma cardinal_direction_defined rt lat1 lon1 lat2 lon2 d :
  cardinal_direction rt lat1 lon1 lat2 lon2 = Ret d ->
  PrimFloat.is_nan (lat2 - lat1) = false /\ PrimFloat.is_nan (lon2 - lon1) = false.
Proof.
  unfold cardinal_direction, math_atan2, PyFloat.math_2, PyFloat.m_atan2.
  intros H.
  destruct (PrimFloat.is_nan (lat2 - lat1)) eqn:Hlat; cbn [orb] in H.
  { exfalso. destruct (PrimFloat.is_nan (lon2 - lon1)); vm_compute in H; discriminate. }
  destruct (PrimFloat.is_nan (lon2 - lon1)) eqn:Hlon; cbn [orb] in H.
  { exfalso. vm_compute in H. discriminate. }
  auto.
Qed.

Section Distances.

Variable rt : runtime.

(** What is asked of the platform: a sine and a cosine that stay within
    [-1, 1] (or are NaN), a [pow] that squares a finite float to a number,
    and a [round] that rounds a finite float to a number. *)
Hypothesis sin_bounded :
  forall x, PrimFloat.is_nan (libm_sin rt x) = true
            \/ (PrimFloat.abs (libm_sin rt x) <=? 1) = true.

Hypothesis cos_bounded :
  forall x, PrimFloat.is_nan (libm_cos rt x) = true
            \/ (PrimFloat.abs (libm_cos rt x) <=? 1) = true.

Hypothesis pow_defined :
  forall x, PyFloat.is_finite x = true -> PrimFloat.is_nan (libm_pow rt x 2) = false.

Hypothesis round_defined :
  forall x n, PyFloat.is_finite x = true ->
    PrimFloat.is_nan (round_ndigits rt x n) = false.

Lemma math_sin_bounded x s :
  PrimFloat.is_nan x = false -> math_sin rt x = Ret s ->
  (PrimFloat.abs s <=? 1) = true.
Proof.
  intros Hx H. apply math_1_ret in H as [-> Hn].
  destruct (sin_bounded x) as [E|E]; [|exact E]. rewrite Hn in E by assumption.
  discriminate.
Qed.

Lemma math_cos_bounded x c :
  PrimFloat.is_nan x = false -> math_cos rt x = Ret c ->
  (PrimFloat.abs c <=? 1) = true.
Proof.
  intros Hx H. apply math_1_ret in H as [-> Hn].
  destruct (cos_bounded x) as [E|E]; [|exact E]. rewrite Hn in E by assumption.
  discriminate.
Qed.

Lemma is_finite_split x :
  PyFloat.is_finite x = true ->
  PrimFloat.is_nan x = false /\ PrimFloat.is_infinity x = false.
Proof.
  unfold PyFloat.is_finite. intros H. apply andb_prop in H as [A B].
  now rewrite negb_true_iff in A, B.
Qed.

Lemma float_pow2_finite s p :
  PyFloat.is_finite s = true -> float_pow2 rt s = Ret p ->
  PyFloat.is_finite p = true.
Proof.
  intros Hs. destruct (is_finite_split s Hs) as [Hn Hi].
  unfold float_pow2. rewrite Hn, Hi.
  destruct (s =? 0); [intros [= <-]; reflexivity|].
  set (iv := if s <? 0 then - s else s).
  assert (Hiv : PyFloat.is_finite iv = true).
  { unfold iv. destruct (s <? 0); [now rewrite is_finite_opp | assumption]. }
  destruct (iv =? 1); [intros [= <-]; reflexivity|].
  destruct (PrimFloat.is_infinity (libm_pow rt iv 2)) eqn:Hinf; [discriminate|].
  intros [= <-]. unfold PyFloat.is_finite.
  now rewrite (pow_defined iv Hiv), Hinf.
Qed.

Lemma Prim2SF_degToRad :
  Prim2SF PyFloat.degToRad = S754_finite false 5030569068109113 (-58).
Proof. reflexivity. Qed.

Lemma Prim2SF_two : Prim2SF 2 = S754_finite false 4503599627370496 (-51).
Proof. reflexivity. Qed.

Lemma radians_not_nan x :
  PrimFloat.is_nan x = false -> PrimFloat.is_nan (PyFloat.radians x) = false.
Proof. apply (mul_const_not_nan _ _ _ _ _ Prim2SF_degToRad). Qed.

Lemma hav_finite d p :
  PrimFloat.is_nan d = false -> hav rt d = Ret p -> PyFloat.is_finite p = true.
Proof.
  intros Hd. unfold hav.
  destruct (math_sin rt (PyFloat.radians d / 2)) as [s|] eqn:Hs; [|discriminate].
  cbn [bind]. apply float_pow2_finite.
  apply abs_le_one_finite. refine (math_sin_bounded _ _ _ Hs).
  apply (div_const_not_nan _ _ _ _ _ Prim2SF_two). now apply radians_not_nan.
Qed.

(** A distance that [haversine] returns for differences that are numbers is
    a number. *)
Lemma haversine_not_nan lat1 lon1 lat2 lon2 d :
  PrimFloat.is_nan (lat2 - lat1) = false ->
  PrimFloat.is_nan (lon2 - lon1) = false ->
  haversine rt lat1 lon1 lat2 lon2 = Ret d ->
  PrimFloat.is_nan d = false.
Proof.
  intros Hlat Hlon. destruct (sub_not_nan _ _ Hlat) as [H2 H1].
  rewrite haversine_hav.
  destruct (hav rt (lat2 - lat1)) as [p1|] eqn:Hp1; [|discriminate].
  cbn [bind].
  destruct (math_cos rt (PyFloat.radians lat1)) as [c1|] eqn:Hc1; [|discriminate].
  cbn [bind].
  destruct (math_cos rt (PyFloat.radians lat2)) as [c2|] eqn:Hc2; [|discriminate].
  cbn [bind].
  destruct (hav rt (lon2 - lon1)) as [p2|] eqn:Hp2; [|discriminate].
  cbn [bind]. cbv zeta.
  apply hav_finite in Hp1, Hp2; try assumption.
  apply math_cos_bounded in Hc1, Hc2; try now apply radians_not_nan.
  assert (Ha : PrimFloat.is_nan (p1 + c1 * c2 * p2) = false).
  { apply add_finite_l_not_nan; [assumption|].
    apply mul_finite_not_nan; [|assumption]. now apply mul_bounded_finite. }
  destruct (PyFloat.math_sqrt (p1 + c1 * c2 * p2)) as [ra|] eqn:Hra; [|discriminate].
  cbn [bind].
  destruct (PyFloat.math_sqrt (1 - (p1 + c1 * c2 * p2))) as [rb|] eqn:Hrb;
    [|discriminate].
  cbn [bind].
  destruct (math_atan2 rt ra rb) as [t|] eqn:Ht; [|discriminate].
  cbn [bind]. intros [= <-].
  apply math_1_ret in Hra as [_ Hra], Hrb as [_ Hrb].
  specialize (Hra Ha).
  specialize (Hrb (sub_finite_l_not_nan 1 _ eq_refl Ha)).
  pose proof (math_2_ret _ _ _ _ Ht Hra Hrb) as Hnt.
  assert (Hc : PrimFloat.is_nan (3958.8 * (2 * t)) = false).
  { eapply const_mul_not_nan; [reflexivity|].
    eapply const_mul_not_nan; [reflexivity | assumption]. }
  unfold py_round.
  destruct (PyFloat.is_finite (3958.8 * (2 * t))) eqn:Hf; [|exact Hc].
  now apply round_defined.
Qed.

(** One record through step 4: the facility it gives has a distance that
    is a number and that the radius does not fall short of. *)
Lemma place_distance lat lon radius r f :
  place rt lat lon radius r = Ret (Some f) ->
  PrimFloat.is_nan (distance_miles f) = false
  /\ (radius <? distance_miles f) = false.
Proof.
  unfold place.
  destruct (as_number (latitude r)) as [rlat|]; [|discriminate]. cbn [bind].
  destruct (as_number (longitude r)) as [rlon|]; [|discriminate]. cbn [bind].
  destruct (haversine rt lat lon rlat rlon) as [dist|] eqn:Hd; [|discriminate].
  cbn [bind].
  destruct (radius <? dist) eqn:Hlt; [discriminate|].
  destruct (cardinal_direction rt lat lon rlat rlon) as [dir|] eqn:Hdir;
    [|discriminate].
  cbn [bind].
  destruct (str_field (name r)); [|discriminate]. cbn [bind].
  destruct (str_field (registry_id r)); [|discriminate]. cbn [bind].
  intros [= <-]. cbn [distance_miles].
  destruct (cardinal_direction_defined _ _ _ _ _ _ Hdir) as [Hlat Hlon].
  split; [exact (haversine_not_nan _ _ _ _ _ Hlat Hlon Hd) | exact Hlt].
Qed.

Lemma place_all_Forall (P : Facility -> Prop) lat lon radius :
  (forall r f, place rt lat lon radius r = Ret (Some f) -> P f) ->
  forall l facilities found,
    Forall P facilities ->
    place_all rt lat lon radius l facilities = Ret found ->
    Forall P found.
Proof.
  intros HP. induction l as [|r l IH]; intros facilities found Hf H.
  - injection H as <-. exact Hf.
  - cbn [place_all] in H.
    destruct (place rt lat lon radius r) as [[f|]|] eqn:Hp; cbn [bind] in H;
      [| |discriminate].
    + apply (IH _ _ (proj2 (Forall_app _ _ _) (conj Hf (Forall_cons _ (HP _ _ Hp) (Forall_nil _)))) H).
    + apply (IH _ _ Hf H).
Qed.

(** What [report] went through when it returned. *)
Lemma report_inv req nominatim echo nwis resp :
  report rt req nominatim echo nwis = Ret resp ->
  exists geo epa_results usgs_results found,
    geocode_step rt (address req) nominatim = Ret geo
    /\ fetch_usgs rt (geo_latitude geo) (geo_longitude geo) (radius_miles req) nwis
       = Ret usgs_results
    /\ fetch_epa_echo rt (geo_latitude geo) (geo_longitude geo) (radius_miles req) echo
       = Ret epa_results
    /\ merge_loop rt (geo_latitude geo) (geo_longitude geo) (radius_miles req)
         (epa_results ++ usgs_results) [] [] = Ret found
    /\ facilities resp = sort_by_distance found
    /\ rep_radius_miles resp = radius_miles req.
Proof.
  unfold report. intros H.
  destruct (geocode_step rt (address req) nominatim) as [geo|] eqn:Hg;
    [|discriminate].
  cbn [bind] in H.
  destruct (fetch_usgs rt _ _ _ nwis) as [usgs_results|] eqn:Hu; [|discriminate].
  cbn [bind] in H.
  destruct (fetch_epa_echo rt _ _ _ echo) as [epa_results|] eqn:He; [|discriminate].
  cbn [bind] in H.
  destruct (merge_loop rt _ _ _ _ [] []) as [found|] eqn:Hm; [|discriminate].
  cbn [bind] in H. injection H as <-.
  exists geo, epa_results, usgs_results, found. cbn. auto 10.
Qed.

Definition is_number_distance (f : Facility) : Prop :=
  PrimFloat.is_nan (distance_miles f) = false.

Lemma merge_loop_distances lat lon radius l found :
  merge_loop rt lat lon radius l [] [] = Ret found ->
  Forall (fun f => is_number_distance f
                   /\ (radius <? distance_miles f) = false) found.
Proof.
  rewrite DedupFacts.merge_loop_first_occurrences.
  apply place_all_Forall; [|constructor].
  intros r f. apply place_distance.
Qed.

End Distances.

(** *** The stable sort *)

Definition le_distance (f g : Facility) : Prop :=
  (distance_miles f <=? distance_miles g) = true.

Definition same_distance (d : float) (f : Facility) : bool :=
  (distance_miles f =? d).

Definition key (f : Facility) : Z := ord (distance_miles f).

Lemma le_distance_key f g :
  is_number_distance f -> is_number_distance g ->
  le_distance f g <-> (key f <= key g)%Z.
Proof.
  intros Hf Hg. unfold le_distance, key. rewrite leb_ord by assumption.
  apply Z.leb_le.
Qed.

Lemma lt_distance_key f g :
  is_number_distance f -> is_number_distance g ->
  (distance_miles f <? distance_miles g) = (key f <? key g)%Z.
Proof. intros Hf Hg. now apply ltb_ord. Qed.

Lemma insert_facility_perm f l : Permutation (f :: l) (insert_facility f l).
Proof.
  induction l as [|g l IH]; cbn [insert_facility]; [reflexivity|].
  destruct (distance_miles f <? distance_miles g); [reflexivity|].
  rewrite perm_swap. now constructor.
Qed.

Lemma sort_from_perm l : forall acc,
  Permutation (l ++ acc)
    (fold_left (fun sorted f => insert_facility f sorted) l acc).
Proof.
  induction l as [|f l IH]; intros acc; cbn [fold_left app]; [reflexivity|].
  rewrite <- IH. rewrite <- insert_facility_perm.
  apply Permutation_middle.
Qed.

Lemma sort_by_distance_perm l : Permutation l (sort_by_distance l).
Proof.
  unfold sort_by_distance. rewrite <- sort_from_perm. now rewrite app_nil_r.
Qed.

Lemma insert_facility_sorted f l :
  is_number_distance f -> Forall is_number_distance l ->
  StronglySorted le_distance l ->
  StronglySorted le_distance (insert_facility f l).
Proof.
  intros Hf. induction l as [|g l IH]; intros Hl Hs; cbn [insert_facility].
  - repeat constructor.
  - inversion Hl as [|? ? Hg Hl']; subst.
    inversion Hs as [|? ? Hs' Hall]; subst.
    rewrite lt_distance_key by assumption.
    destruct (Z.ltb_spec (key f) (key g)) as [Hlt|Hge].
    + constructor; [assumption|]. constructor.
      * apply le_distance_key; auto. lia.
      * rewrite Forall_forall in *. intros h Hh.
        apply le_distance_key; auto.
        pose proof (proj1 (le_distance_key g h Hg (Hl' h Hh)) (Hall h Hh)). lia.
    + constructor; [auto|].
      rewrite <- (insert_facility_perm f l). constructor; [|assumption].
      apply le_distance_key; auto.
Qed.

Lemma sort_from_sorted l : forall acc,
  Forall is_number_distance l -> Forall is_number_distance acc ->
  StronglySorted le_distance acc ->
  StronglySorted le_distance
    (fold_left (fun sorted f => insert_facility f sorted) l acc).
Proof.
  induction l as [|f l IH]; intros acc Hl Hacc Hs; cbn [fold_left]; [assumption|].
  inversion Hl; subst. apply IH; [assumption | |].
  - rewrite <- (insert_facility_perm f acc). now constructor.
  - now apply insert_facility_sorted.
Qed.

Lemma filter_none {A} (p : A -> bool) l :
  Forall (fun x => p x = false) l -> filter p l = [].
Proof.
  induction 1 as [|x l Hx _ IH]; cbn [filter]; [reflexivity|]. now rewrite Hx.
Qed.

Lemma same_distance_key d f :
  PrimFloat.is_nan d = false -> is_number_distance f ->
  same_distance d f = (key f =? ord d)%Z.
Proof. intros Hd Hf. now apply eqb_ord. Qed.

(** A facility goes behind the facilities of its own distance. *)
Lemma insert_facility_filter d f l :
  PrimFloat.is_nan d = false ->
  is_number_distance f -> Forall is_number_distance l ->
  StronglySorted le_distance l ->
  filter (same_distance d) (insert_facility f l)
  = filter (same_distance d) l ++ filter (same_distance d) [f].
Proof.
  intros Hd Hf. induction l as [|g l IH]; intros Hl Hs; cbn [insert_facility].
  - reflexivity.
  - inversion Hl as [|? ? Hg Hl']; subst.
    inversion Hs as [|? ? Hs' Hall]; subst.
    rewrite lt_distance_key by assumption.
    destruct (Z.ltb_spec (key f) (key g)) as [Hlt|Hge].
    + change (f :: g :: l) with ([f] ++ g :: l). rewrite filter_app.
      assert (Hone : filter (same_distance d) [f]
                     = if same_distance d f then [f] else []) by reflexivity.
      rewrite Hone. destruct (same_distance d f) eqn:Ef.
      * rewrite (filter_none _ (g :: l)); [reflexivity|].
        rewrite same_distance_key in Ef by assumption.
        apply Z.eqb_eq in Ef.
        assert (Hall' : Forall (fun h => is_number_distance h /\ (key g <= key h)%Z)
                          (g :: l)).
        { constructor; [split; [assumption | lia]|].
          rewrite Forall_forall in *. intros h Hh. split; [auto|].
          apply (le_distance_key g h); auto. }
        eapply Forall_impl; [|exact Hall']. intros h [Hh Hk]. cbn beta.
        rewrite same_distance_key by assumption. apply Z.eqb_neq. lia.
      * now rewrite app_nil_r.
    + cbn [filter]. rewrite IH by assumption. cbn [filter].
      destruct (same_distance d g); reflexivity.
Qed.

Lemma sort_from_filter d l : forall acc,
  PrimFloat.is_nan d = false ->
  Forall is_number_distance l -> Forall is_number_distance acc ->
  StronglySorted le_distance acc ->
  filter (same_distance d)
    (fold_left (fun sorted f => insert_facility f sorted) l acc)
  = filter (same_distance d) acc ++ filter (same_distance d) l.
Proof.
  induction l as [|f l IH]; intros acc Hd Hl Hacc Hs; cbn [fold_left].
  - cbn [filter]. now rewrite app_nil_r.
  - inversion Hl; subst. rewrite IH; try assumption.
    + rewrite insert_facility_filter by assumption.
      rewrite <- app_assoc, <- filter_app. reflexivity.
    + rewrite <- (insert_facility_perm f acc). now constructor.
    + now apply insert_facility_sorted.
Qed.

Lemma same_distance_nan d f : PrimFloat.is_nan d = true -> same_distance d f = false.
Proof.
  intros H. unfold same_distance. apply is_nan_Prim2SF in H.
  rewrite eqb_spec. unfold SFeqb. rewrite H.
  destruct (Prim2SF (distance_miles f)); reflexivity.
Qed.

(** Sorting a list of number distances: ascending, a rearrangement, and
    with each group of equal distances in its old order. *)
Lemma sort_by_distance_spec l :
  Forall is_number_distance l ->
  StronglySorted le_distance (sort_by_distance l)
  /\ Permutation l (sort_by_distance l)
  /\ forall d, filter (same_distance d) (sort_by_distance l)
               = filter (same_distance d) l.
Proof.
  intros Hl. split; [|split].
  - apply sort_from_sorted; [assumption | constructor | constructor].
  - apply sort_by_distance_perm.
  - intros d. destruct (PrimFloat.is_nan d) eqn:Hd.
    + rewrite !filter_none; [reflexivity | |];
        apply Forall_forall; intros; now apply same_distance_nan.
    + unfold sort_by_distance. rewrite sort_from_filter; try assumption;
        constructor.
Qed.

End DistanceFacts.

(** ** The facilities of a report: within the radius, and in order *)

Module RankingFacts.

Import FloatFacts DistanceFacts.

Local Open Scope float_scope.

Definition bounded_trig (f : float -> float) : Prop :=
  forall x, PrimFloat.is_nan (f x) = true \/ (PrimFloat.abs (f x) <=? 1) = true.

(** The platform as the program expects it: sine and cosine within
    [-1, 1], a square and a rounding that turn a finite float into a
    number. *)
Record well_behaved (rt : runtime) : Prop := {
  sin_range : bounded_trig (libm_sin rt);
  cos_range : bounded_trig (libm_cos rt);
  pow_number : forall x, PyFloat.is_finite x = true ->
                 PrimFloat.is_nan (libm_pow rt x 2) = false;
  round_number : forall x n, PyFloat.is_finite x = true ->
                   PrimFloat.is_nan (round_ndigits rt x n) = false
}.

Lemma found_distances rt lat lon radius l found :
  well_behaved rt ->
  merge_loop rt lat lon radius l [] [] = Ret found ->
  Forall (fun f => is_number_distance f
                   /\ (radius <? distance_miles f) = false) found.
Proof.
  intros [Hs Hc Hp Hr]. now apply merge_loop_distances.
Qed.

Lemma valid_radius a r req :
  validate_request a r = Ret req ->
  (0 <? radius_miles req) = true /\ (radius_miles req <=? 50) = true.
Proof.
  unfold validate_request.
  destruct (PyStr.strip (PyStr.of_string a)); [discriminate|].
  destruct (0 <? r) eqn:H0; [|discriminate].
  destruct (r <=? 50) eqn:H1; [|discriminate].
  cbn [andb]. intros [= <-]. cbn. auto.
Qed.

Lemma ltb_true_not_nan x y :
  (x <? y) = true -> PrimFloat.is_nan x = false /\ PrimFloat.is_nan y = false.
Proof.
  intros H. split.
  - destruct (PrimFloat.is_nan x) eqn:E; [|reflexivity].
    rewrite (ltb_nan_l x y E) in H. discriminate.
  - destruct (PrimFloat.is_nan y) eqn:E; [|reflexivity].
    rewrite (ltb_nan_r x y E) in H. discriminate.
Qed.

(** C1: every facility of a report lies within the radius of the report.
    A distance beyond the radius is dropped by the loop; a distance that
    is no number cannot be among the facilities, because
    [cardinal_direction] raises on the same record. *)
Theorem report_within_radius rt a r req nominatim echo nwis resp :
  well_behaved rt ->
  validate_request a r = Ret req ->
  report rt req nominatim echo nwis = Ret resp ->
  Forall (fun f => (distance_miles f <=? rep_radius_miles resp) = true)
    (facilities resp).
Proof.
  intros Hrt Hreq H.
  destruct (report_inv rt _ _ _ _ _ H)
    as (geo & epa & usgs & found & _ & _ & _ & Hm & Hf & Hr).
  rewrite Hf, Hr.
  destruct (valid_radius _ _ _ Hreq) as [H0 _].
  destruct (ltb_true_not_nan _ _ H0) as [_ Hrad].
  apply (Permutation_Forall (sort_by_distance_perm found)).
  eapply Forall_impl; [|exact (found_distances _ _ _ _ _ _ Hrt Hm)].
  intros f [Hn Hlt]. now apply not_ltb_leb.
Qed.

(** C7: the facilities of a report are in ascending order of distance, and
    they are the facilities that the loop found, rearranged so that those
    of one distance keep the order they were found in. *)
Theorem report_sorted_stable rt req nominatim echo nwis resp :
  well_behaved rt ->
  report rt req nominatim echo nwis = Ret resp ->
  StronglySorted le_distance (facilities resp)
  /\ Sorted le_distance (facilities resp)
  /\ exists geo epa_results usgs_results found,
       geocode_step rt (address req) nominatim = Ret geo
       /\ fetch_usgs rt (geo_latitude geo) (geo_longitude geo) (radius_miles req) nwis
          = Ret usgs_results
       /\ fetch_epa_echo rt (geo_latitude geo) (geo_longitude geo) (radius_miles req) echo
          = Ret epa_results
       /\ merge_loop rt (geo_latitude geo) (geo_longitude geo) (radius_miles req)
            (epa_results ++ usgs_results) [] [] = Ret found
       /\ Permutation found (facilities resp)
       /\ forall d, filter (same_distance d) (facilities resp)
                    = filter (same_distance d) found.
Proof.
  intros Hrt H.
  destruct (report_inv rt _ _ _ _ _ H)
    as (geo & epa & usgs & found & Hg & Hu & He & Hm & Hf & Hr).
  assert (Hn : Forall is_number_distance found).
  { eapply Forall_impl; [|exact (found_distances _ _ _ _ _ _ Hrt Hm)].
    now intros f [Hn _]. }
  destruct (sort_by_distance_spec found Hn) as (Hs & Hp & Hst).
  rewrite Hf. split; [exact Hs|]. split; [now apply StronglySorted_Sorted|].
  exists geo, epa, usgs, found. auto 10.
Qed.

(** *** The sample platform is well behaved *)

Lemma mul_zero_cases x :
  x * 0 = nan \/ x * 0 = PrimFloat.zero \/ x * 0 = PrimFloat.neg_zero.
Proof.
  rewrite <- (SF2Prim_Prim2SF (x * 0)), mul_spec.
  change (Prim2SF 0) with (S754_zero false).
  destruct (Prim2SF x) as [[]|[]| |[] m e]; cbn; auto.
Qed.

Lemma sample_well_behaved : well_behaved Sample.platform.
Proof.
  split; cbn [libm_sin libm_cos libm_pow round_ndigits Sample.platform].
  - intros x. destruct (mul_zero_cases x) as [->|[->| ->]]; vm_compute; auto.
  - intros x. destruct (mul_zero_cases x) as [->|[->| ->]]; vm_compute; auto.
  - intros x Hx. now apply mul_finite_not_nan.
  - intros x _ Hx. now apply is_finite_not_nan.
Qed.

Lemma report_within_radius_witness :
  exists resp,
    ReportFacts.sample_report = Ret resp
    /\ Forall (fun f => (distance_miles f <=? rep_radius_miles resp) = true)
         (facilities resp)
    /\ List.length (facilities resp) = 3%nat.
Proof.
  destruct ReportFacts.sample_report as [resp|e] eqn:H;
    [|vm_compute in H; discriminate].
  exists resp. split; [reflexivity|]. split.
  - apply (report_within_radius Sample.platform "1 Main St, Apt 4" 3
             Sample.request _ _ _ resp sample_well_behaved eq_refl H).
  - vm_compute in H. injection H as <-. reflexivity.
Defined.

Lemma report_sorted_stable_witness :
  exists resp,
    ReportFacts.sample_report = Ret resp
    /\ StronglySorted le_distance (facilities resp)
    /\ List.length (facilities resp) = 3%nat.
Proof.
  destruct ReportFacts.sample_report as [resp|e] eqn:H;
    [|vm_compute in H; discriminate].
  exists resp. split; [reflexivity|]. split.
  - exact (proj1 (report_sorted_stable Sample.platform _ _ _ _ resp
                    sample_well_behaved H)).
  - vm_compute in H. injection H as <-. reflexivity.
Defined.

End RankingFacts.

(** ** Rounding against a float that bounds the exact result *)

Module RoundingFacts.

Import FloatFacts.

Local Open Scope Z_scope.

Lemma iter_pos_nat {A} (f : A -> A) p : forall x,
  iter_pos f p x = Nat.iter (Pos.to_nat p) f x.
Proof.
  induction p as [p IH|p IH|]; intros x; cbn [iter_pos].
  - rewrite !IH, Pos2Nat.inj_xI, Nat.iter_succ_r.
    replace (2 * Pos.to_nat p)%nat with (Pos.to_nat p + Pos.to_nat p)%nat by lia.
    now rewrite Nat.iter_add.
  - rewrite !IH, Pos2Nat.inj_xO.
    replace (2 * Pos.to_nat p)%nat with (Pos.to_nat p + Pos.to_nat p)%nat by lia.
    now rewrite Nat.iter_add.
  - reflexivity.
Qed.

(** Shifting right drops bits: what is left, put back in place, is at most
    the number, and is less when a dropped bit was set. *)
Definition shifted (z : Z) (n : nat) (mrs : shr_record) : Prop :=
  0 <= shr_m mrs
  /\ shr_m mrs * 2 ^ Z.of_nat n <= z
  /\ (loc_of_shr_record mrs <> loc_Exact -> shr_m mrs * 2 ^ Z.of_nat n < z).

Lemma shr_1_shifted z n mrs : shifted z n mrs -> shifted z (S n) (shr_1 mrs).
Proof.
  unfold shifted. rewrite Nat2Z.inj_succ, Z.pow_succ_r by lia.
  destruct mrs as [m r s]. cbn [shr_m]. intros (H0 & Hle & Hlt).
  set (P := 2 ^ Z.of_nat n) in *.
  assert (Hp : 0 < P) by (apply Z.pow_pos_nonneg; lia).
  assert (Hrs : r || s = true -> m * P < z).
  { intros E. apply Hlt. destruct r, s; cbn in *; congruence. }
  clear Hlt. clearbody P.
  destruct m as [|[p|p|]|p]; [| | | |lia];
    cbn [shr_1 shr_m]; (split; [lia|]); (split; [nia|]);
    destruct r, s; cbn [orb loc_of_shr_record] in *; intros Hne;
    try (exfalso; apply Hne; reflexivity);
    try specialize (Hrs eq_refl); nia.
Qed.

Lemma shr_iter_shifted z n :
  0 <= z -> shifted z n (Nat.iter n shr_1 (Build_shr_record z false false)).
Proof.
  intros Hz. apply Nat.iter_ind.
  - unfold shifted. cbn. split; [lia|]. split; [lia|]. congruence.
  - intros k mrs. apply shr_1_shifted.
Qed.

(** [shr_fexp] on an exact number. *)
Lemma shr_fexp_shifted m e :
  0 <= m ->
  let '(mrs, e1) := shr_fexp prec emax m e loc_Exact in
  e <= e1
  /\ e1 = Z.max e (fexp prec emax (Zdigits2 m + e))
  /\ 0 <= shr_m mrs
  /\ shr_m mrs * 2 ^ (e1 - e) <= m
  /\ (loc_of_shr_record mrs <> loc_Exact -> shr_m mrs * 2 ^ (e1 - e) < m).
Proof.
  intros Hm. unfold shr_fexp, shr. cbn [shr_record_of_loc].
  destruct (fexp prec emax (Zdigits2 m + e) - e) as [|p|p] eqn:E.
  - replace (e - e) with 0 by lia. cbn [shr_m loc_of_shr_record].
    repeat split; try lia. congruence.
  - rewrite iter_pos_nat.
    destruct (shr_iter_shifted m (Pos.to_nat p) Hm) as (H0 & Hle & Hlt).
    rewrite positive_nat_Z in Hle, Hlt.
    replace (e + Z.pos p - e) with (Z.pos p) by lia.
    repeat split; try lia; assumption.
  - replace (e - e) with 0 by lia. cbn [shr_m loc_of_shr_record].
    repeat split; try lia. congruence.
Qed.

(** Rounding to nearest does not pass an integer that bounds the number. *)
Lemma round_nearest_even_le z n mrs K :
  0 <= n -> 0 <= shr_m mrs ->
  shr_m mrs * 2 ^ n <= z ->
  (loc_of_shr_record mrs <> loc_Exact -> shr_m mrs * 2 ^ n < z) ->
  z <= K * 2 ^ n ->
  round_nearest_even (shr_m mrs) (loc_of_shr_record mrs) <= K.
Proof.
  intros Hn H0 Hle Hlt HK.
  assert (Hp : 0 < 2 ^ n) by (apply Z.pow_pos_nonneg; lia).
  destruct (loc_of_shr_record mrs) as [|c] eqn:E; cbn [round_nearest_even].
  - nia.
  - assert (shr_m mrs < K) by (specialize (Hlt ltac:(congruence)); nia).
    destruct c; try destruct (Z.even (shr_m mrs)); lia.
Qed.

(** *** Values, in units of [2^-1074] *)

Definition val (m e : Z) : Z := m * 2 ^ (e + 1074).

Lemma val_shift m e k : -1074 <= e -> 0 <= k -> val (m * 2 ^ k) e = val m (e + k).
Proof.
  intros He Hk. unfold val.
  replace (e + k + 1074) with (k + (e + 1074)) by lia.
  rewrite (Z.pow_add_r 2 k (e + 1074)) by lia. ring.
Qed.

Lemma Zdigits2_bounds m : 0 < m -> 2 ^ (Zdigits2 m - 1) <= m < 2 ^ Zdigits2 m.
Proof. destruct m as [|p|p]; try lia. intros _. apply digits2_pos_bounds. Qed.

(** The smaller value has the smaller exponent of the leading bit. *)
Lemma digits_le_of_val a ea b eb :
  0 < a -> 0 < b -> -1074 <= ea -> -1074 <= eb ->
  val a ea <= val b eb ->
  Zdigits2 a + ea <= Zdigits2 b + eb.
Proof.
  intros Ha Hb Hea Heb H. unfold val in H.
  pose proof (Zdigits2_bounds a Ha) as [Hlo _].
  pose proof (Zdigits2_bounds b Hb) as [_ Hhi].
  assert (Hda : 0 < Zdigits2 a) by (destruct a; cbn; lia).
  assert (Hdb : 0 < Zdigits2 b) by (destruct b; cbn; lia).
  assert (H1 : 2 ^ (Zdigits2 a - 1 + (ea + 1074)) <= a * 2 ^ (ea + 1074)).
  { rewrite (Z.pow_add_r 2 (Zdigits2 a - 1) (ea + 1074)) by lia. apply Z.mul_le_mono_nonneg_r; [|assumption].
    apply Z.pow_nonneg. lia. }
  assert (H2 : b * 2 ^ (eb + 1074) < 2 ^ (Zdigits2 b + (eb + 1074))).
  { rewrite (Z.pow_add_r 2 (Zdigits2 b) (eb + 1074)) by lia. apply Z.mul_lt_mono_pos_r; [|assumption].
    apply Z.pow_pos_nonneg; lia. }
  assert (H3 : 2 ^ (Zdigits2 a - 1 + (ea + 1074)) < 2 ^ (Zdigits2 b + (eb + 1074)))
    by lia.
  apply Z.pow_lt_mono_r_iff in H3; lia.
Qed.

Lemma fexp_le_of_val a ea mx ex :
  0 < a -> -1074 <= ea ->
  bounded prec emax mx ex = true ->
  val a ea <= val (Z.pos mx) ex ->
  fexp prec emax (Zdigits2 a + ea) <= ex.
Proof.
  intros Ha Hea Hb H.
  pose proof (bounded_range _ _ Hb) as [_ Hex].
  pose proof (digits_le_of_val a ea (Z.pos mx) ex Ha ltac:(lia) Hea ltac:(lia) H) as Hd.
  unfold bounded, canonical_mantissa in Hb. apply andb_prop in Hb as [Hc _].
  apply Z.eqb_eq in Hc. cbn [Zdigits2] in Hd.
  unfold fexp, SpecFloat.emin, prec, emax in *. lia.
Qed.

Lemma bounded_normal m e :
  bounded prec emax m e = true -> -1074 < e -> 2 ^ 52 <= Z.pos m.
Proof.
  intros Hb He. unfold bounded, canonical_mantissa in Hb.
  apply andb_prop in Hb as [Hc _]. apply Z.eqb_eq in Hc.
  unfold fexp, SpecFloat.emin, prec, emax in Hc.
  assert (Hd : Z.pos (digits2_pos m) = 53) by lia.
  pose proof (digits2_pos_bounds m) as [Hlo _]. rewrite Hd in Hlo. exact Hlo.
Qed.

(** Among valid floats the order of the values is the order of the codes. *)
Lemma mag_le_of_val m e m' e' :
  bounded prec emax m e = true -> bounded prec emax m' e' = true ->
  val (Z.pos m) e <= val (Z.pos m') e' -> mag m e <= mag m' e'.
Proof.
  intros Hb Hb' H.
  pose proof (bounded_range _ _ Hb) as [Hm He].
  pose proof (bounded_range _ _ Hb') as [Hm' He'].
  unfold mag, val in *. change (2 ^ 53) with 9007199254740992 in *.
  destruct (Z.lt_trichotomy e e') as [Hlt|[->|Hgt]]; [lia| |].
  - assert (0 < 2 ^ (e' + 1074)) by (apply Z.pow_pos_nonneg; lia). nia.
  - exfalso.
    pose proof (bounded_normal _ _ Hb ltac:(lia)) as Hn.
    change (2 ^ 52) with 4503599627370496 in Hn.
    replace (e + 1074) with ((e - e') + (e' + 1074)) in H by lia.
    rewrite (Z.pow_add_r 2 (e - e') (e' + 1074)) in H by lia.
    assert (0 < 2 ^ (e' + 1074)) by (apply Z.pow_pos_nonneg; lia).
    assert (HB : 2 ^ 1 <= 2 ^ (e - e')) by (apply Z.pow_le_mono_r; lia).
    change (2 ^ 1) with 2 in HB.
    rewrite Z.mul_assoc in H.
    apply Z.mul_le_mono_pos_r in H; [|assumption].
    set (B := 2 ^ (e - e')) in *. clearbody B. nia.
Qed.

Lemma val_rescale m e e' : -1074 <= e' <= e -> val m e = val (m * 2 ^ (e - e')) e'.
Proof.
  intros H. rewrite val_shift by lia. f_equal. lia.
Qed.

Lemma val_le_iff a b e : -1074 <= e -> (val a e <= val b e <-> a <= b).
Proof.
  intros He. unfold val.
  assert (0 < 2 ^ (e + 1074)) by (apply Z.pow_pos_nonneg; lia).
  split; intros H0; nia.
Qed.

Lemma pos_iter_xO m d : Z.pos (Pos.iter xO m d) = Z.pos m * 2 ^ Z.pos d.
Proof.
  induction d as [|d IH] using Pos.peano_ind.
  - cbn. lia.
  - rewrite Pos.iter_succ, Pos2Z.inj_succ, Z.pow_succ_r by lia.
    rewrite Pos2Z.inj_xO, IH. ring.
Qed.

Lemma shl_align_spec mx ex ex' :
  let '(mz, ez) := shl_align mx ex ex' in
  ez = Z.min ex ex' /\ Z.pos mz = Z.pos mx * 2 ^ (ex - ez).
Proof.
  unfold shl_align. destruct (ex' - ex) as [|d|d] eqn:E.
  - replace (ex - ex) with 0 by lia. split; [lia|]. cbn. lia.
  - replace (ex - ex) with 0 by lia. split; [lia|]. cbn. lia.
  - split; [lia|]. rewrite pos_iter_xO. f_equal. f_equal. lia.
Qed.

Lemma fexp_ge e : -1074 <= fexp prec emax e.
Proof. unfold fexp, SpecFloat.emin, prec, emax. lia. Qed.

(** Rounding a number that does not exceed a float gives a float that does
    not exceed it either. *)
Lemma binary_round_le s pz ez mx ex :
  bounded prec emax mx ex = true -> -1074 <= ez ->
  val (Z.pos pz) ez <= val (Z.pos mx) ex ->
  valid_binary (binary_round prec emax s pz ez) = true ->
  binary_round prec emax s pz ez = S754_zero s
  \/ exists m e, binary_round prec emax s pz ez = S754_finite s m e
                 /\ mag m e <= mag mx ex.
Proof.
  intros Hb Hez Hval.
  pose proof (bounded_range _ _ Hb) as [_ Hex].
  pose proof (fexp_le_of_val (Z.pos pz) ez mx ex ltac:(lia) Hez Hb Hval) as Hf.
  pose proof (fexp_ge (Z.pos (digits2_pos pz) + ez)) as Hf0.
  cbn [Zdigits2] in Hf.
  unfold binary_round.
  pose proof (shl_align_spec pz ez (fexp prec emax (Z.pos (digits2_pos pz) + ez)))
    as Hsh.
  destruct (shl_align pz ez _) as [mz e0]. destruct Hsh as [He0 Hmz].
  assert (Hv0 : val (Z.pos mz) e0 <= val (Z.pos mx) ex).
  { rewrite Hmz, val_shift by lia. now replace (e0 + (ez - e0)) with ez by lia. }
  unfold binary_round_aux.
  pose proof (shr_fexp_shifted (Z.pos mz) e0 ltac:(lia)) as H1.
  destruct (shr_fexp prec emax (Z.pos mz) e0 loc_Exact) as [mrs' e1].
  destruct H1 as (H1a & H1b & H1c & H1d & H1e).
  pose proof (fexp_le_of_val (Z.pos mz) e0 mx ex ltac:(lia) ltac:(lia) Hb Hv0) as Hf1.
  assert (He1 : e1 <= ex) by lia.
  set (K := Z.pos mx * 2 ^ (ex - e1)).
  assert (HK : val K e1 = val (Z.pos mx) ex).
  { unfold K. symmetry. apply val_rescale. lia. }
  assert (HmzK : Z.pos mz <= K * 2 ^ (e1 - e0)).
  { apply (val_le_iff _ _ e0); [lia|].
    rewrite val_shift by lia. replace (e0 + (e1 - e0)) with e1 by lia.
    now rewrite HK. }
  set (mr := round_nearest_even (shr_m mrs') (loc_of_shr_record mrs')).
  assert (Hmr : mr <= K).
  { apply (round_nearest_even_le (Z.pos mz) (e1 - e0)); try assumption; lia. }
  pose proof (round_nearest_even_range (shr_m mrs') (loc_of_shr_record mrs') H1c)
    as Hmr0. fold mr in Hmr0.
  pose proof (shr_fexp_shifted mr e1 ltac:(lia)) as H2.
  destruct (shr_fexp prec emax mr e1 loc_Exact) as [mrs'' e2].
  destruct H2 as (H2a & H2b & H2c & H2d & _).
  destruct (shr_m mrs'') as [|m|m] eqn:Em; [auto | | lia].
  assert (Hp : 0 < 2 ^ (e2 - e1)) by (apply Z.pow_pos_nonneg; lia).
  assert (Hmrpos : 0 < mr) by nia.
  assert (Hvr : val mr e1 <= val (Z.pos mx) ex).
  { rewrite <- HK. apply val_le_iff; lia. }
  pose proof (fexp_le_of_val mr e1 mx ex Hmrpos ltac:(lia) Hb Hvr) as Hf2.
  assert (He2 : e2 <= ex) by lia.
  replace (e2 <=? emax - prec) with true
    by (symmetry; apply Z.leb_le; unfold emax, prec; lia).
  intros Hvalid. cbn [valid_binary] in Hvalid.
  right. exists m, e2. split; [reflexivity|].
  apply mag_le_of_val; try assumption.
  eapply Z.le_trans; [|exact Hvr].
  rewrite (val_rescale (Z.pos m) e2 e1) by lia.
  apply val_le_iff; lia.
Qed.

(** *** Adding and subtracting a float that is not negative *)

Definition nonneg_sf (y : spec_float) : Prop :=
  match y with
  | S754_zero _ | S754_infinity false | S754_finite false _ _ => True
  | _ => False
  end.

Lemma signed_Zcode s r :
  signed s r -> valid_binary r = true ->
  if s then Zcode r <= 0 else 0 <= Zcode r.
Proof.
  intros [->|[(m & e & ->)| ->]] Hv; cbn [Zcode valid_binary] in *.
  - destruct s; lia.
  - pose proof (mag_range _ _ Hv). destruct s; lia.
  - destruct s; cbn; lia.
Qed.

Lemma binary_round_signed s m e : signed s (binary_round prec emax s m e).
Proof.
  unfold binary_round. destruct (shl_align _ _ _) as [mz ez].
  apply binary_round_aux_signed. lia.
Qed.

Lemma aligned_val m e e' :
  -1074 <= e' ->
  val (Z.pos (fst (shl_align m e (Z.min e e')))) (Z.min e e') = val (Z.pos m) e.
Proof.
  intros He'.
  pose proof (shl_align_spec m e (Z.min e e')) as H.
  destruct (shl_align m e (Z.min e e')) as [mz ez]. cbn [fst].
  destruct H as [Hez Hmz]. rewrite Hmz.
  destruct (Z_le_gt_dec (-1074) e) as [He|He].
  - rewrite val_shift by lia. f_equal. lia.
  - unfold val. replace (Z.min e e') with e by lia.
    replace ez with e by lia. replace (e - e) with 0 by lia.
    now rewrite Z.mul_1_r.
Qed.

(** [x - y] is at most the larger of [x] and zero. *)
Lemma SFsub_nonneg_le x y :
  valid_binary x = true -> valid_binary y = true ->
  finite_sf x -> nonneg_sf y ->
  valid_binary (SF64sub x y) = true ->
  Zcode (SF64sub x y) <= Z.max (Zcode x) 0.
Proof.
  intros Vx Vy Fx Ny.
  destruct x as [sx|sx| |sx mx ex]; try contradiction;
    destruct y as [sy|[]| |[] my ey]; try contradiction;
    cbn [SF64sub SFsub Zcode valid_binary negb] in *.
  - destruct sx, sy; cbn; lia.
  - intros _. cbn. lia.
  - intros V. pose proof (mag_range _ _ V). lia.
  - intros _. lia.
  - intros _. destruct sx; pose proof (mag_range _ _ Vx); cbn; lia.
  - pose proof (bounded_range _ _ Vx) as [_ Hex].
    pose proof (bounded_range _ _ Vy) as [_ Hey].
    cbv zeta.
    pose proof (aligned_val mx ex ey ltac:(lia)) as Ax.
    set (MX := Z.pos (fst (shl_align mx ex (Z.min ex ey)))) in *.
    set (MY := Z.pos (fst (shl_align my ey (Z.min ex ey)))).
    assert (HMY : 0 < MY) by (unfold MY; lia).
    assert (HMX : 0 < MX) by (unfold MX; lia).
    cbn [cond_Zopp].
    destruct (cond_Zopp sx MX - MY) as [|pz|pz] eqn:E;
      cbn [binary_normalize Zcode]; intros V; try lia.
    + destruct sx; cbn [cond_Zopp] in E; [lia|].
      destruct (binary_round_le false pz (Z.min ex ey) mx ex Vx ltac:(lia))
        as [->|(m & e & -> & Hm)]; try assumption; cbn [Zcode]; try lia.
      rewrite <- Ax. apply val_le_iff; lia.
    + pose proof (signed_Zcode true _ (binary_round_signed true pz (Z.min ex ey)) V).
      cbn beta iota in H. lia.
Qed.

(** [x + y] is at least the smaller of [x] and zero. *)
Lemma SFadd_nonneg_ge x y :
  valid_binary x = true -> valid_binary y = true ->
  finite_sf x -> nonneg_sf y ->
  valid_binary (SF64add x y) = true ->
  Z.min (Zcode x) 0 <= Zcode (SF64add x y).
Proof.
  intros Vx Vy Fx Ny.
  destruct x as [sx|sx| |sx mx ex]; try contradiction;
    destruct y as [sy|[]| |[] my ey]; try contradiction;
    cbn [SF64add SFadd Zcode valid_binary negb] in *.
  - destruct sx, sy; cbn; lia.
  - intros _. cbn. lia.
  - intros V. pose proof (mag_range _ _ V). lia.
  - intros _. lia.
  - intros _. destruct sx; pose proof (mag_range _ _ Vx); cbn; lia.
  - pose proof (bounded_range _ _ Vx) as [_ Hex].
    pose proof (bounded_range _ _ Vy) as [_ Hey].
    cbv zeta.
    pose proof (aligned_val mx ex ey ltac:(lia)) as Ax.
    set (MX := Z.pos (fst (shl_align mx ex (Z.min ex ey)))) in *.
    set (MY := Z.pos (fst (shl_align my ey (Z.min ex ey)))).
    assert (HMY : 0 < MY) by (unfold MY; lia).
    assert (HMX : 0 < MX) by (unfold MX; lia).
    cbn [cond_Zopp].
    destruct (cond_Zopp sx MX + MY) as [|pz|pz] eqn:E;
      cbn [binary_normalize Zcode]; intros V.
    + destruct sx; pose proof (mag_range _ _ Vx); lia.
    + pose proof (signed_Zcode false _ (binary_round_signed false pz (Z.min ex ey)) V).
      cbn beta iota in H. destruct sx; pose proof (mag_range _ _ Vx); lia.
    + destruct sx; cbn [cond_Zopp] in E; [|lia].
      destruct (binary_round_le true pz (Z.min ex ey) mx ex Vx ltac:(lia))
        as [->|(m & e & -> & Hm)]; try assumption; cbn [Zcode];
        pose proof (mag_range _ _ Vx); try lia.
      rewrite <- Ax. apply val_le_iff; lia.
Qed.

Local Open Scope float_scope.

Lemma nonneg_Prim2SF y : (0 <=? y) = true -> nonneg_sf (Prim2SF y).
Proof.
  rewrite leb_spec. change (Prim2SF 0) with (S754_zero false). unfold SFleb.
  destruct (Prim2SF y) as [s|[]| |[] m e]; cbn; auto; discriminate.
Qed.

Lemma nonneg_sf_not_nan y : nonneg_sf y -> y <> S754_nan.
Proof. destruct y; cbn; auto; discriminate. Qed.

Lemma sub_nonneg x y :
  PyFloat.is_finite x = true -> (0 <=? y) = true ->
  PrimFloat.is_nan (x - y) = false /\ (ord (x - y) <= Z.max (ord x) 0)%Z.
Proof.
  intros Hx Hy. apply is_finite_Prim2SF in Hx. apply nonneg_Prim2SF in Hy.
  split.
  - apply not_nan_Prim2SF. rewrite sub_spec.
    apply SFsub_finite_l; [assumption | now apply nonneg_sf_not_nan].
  - unfold ord. rewrite sub_spec.
    apply SFsub_nonneg_le; try apply Prim2SF_valid; try assumption.
    rewrite <- sub_spec. apply Prim2SF_valid.
Qed.

Lemma add_nonneg x y :
  PyFloat.is_finite x = true -> (0 <=? y) = true ->
  PrimFloat.is_nan (x + y) = false /\ (Z.min (ord x) 0 <= ord (x + y))%Z.
Proof.
  intros Hx Hy. apply is_finite_Prim2SF in Hx. apply nonneg_Prim2SF in Hy.
  split.
  - apply not_nan_Prim2SF. rewrite add_spec.
    apply SFadd_finite_l; [assumption | now apply nonneg_sf_not_nan].
  - unfold ord. rewrite add_spec.
    apply SFadd_nonneg_ge; try apply Prim2SF_valid; try assumption.
    rewrite <- add_spec. apply Prim2SF_valid.
Qed.

End RoundingFacts.

(** ** The bounding box *)

Module BoundingBoxFacts.

Import FloatFacts DistanceFacts RankingFacts RoundingFacts.

Local Open Scope float_scope.

Definition pos_sf (x : spec_float) : Prop :=
  x = S754_infinity false \/ exists m e, x = S754_finite false m e.

Lemma leb_true_not_nan x y :
  (x <=? y) = true -> PrimFloat.is_nan x = false /\ PrimFloat.is_nan y = false.
Proof.
  rewrite leb_spec, !not_nan_Prim2SF. unfold SFleb.
  destruct (Prim2SF x), (Prim2SF y); cbn; intros H; split; congruence.
Qed.

Lemma ord_pos x :
  PrimFloat.is_nan x = false -> (0 < ord x)%Z -> pos_sf (Prim2SF x).
Proof.
  intros Hn. apply not_nan_Prim2SF in Hn. unfold ord, pos_sf.
  pose proof (Prim2SF_valid x) as V.
  destruct (Prim2SF x) as [s|s| |s m e]; cbn [Zcode valid_binary] in *.
  - lia.
  - destruct s; [|auto]. change (2 ^ 70)%Z with 1180591620717411303424%Z. lia.
  - congruence.
  - pose proof (mag_range _ _ V). destruct s; [lia|eauto].
Qed.

Lemma ltb_pos c x :
  (0 <=? c) = true -> (c <? x) = true -> pos_sf (Prim2SF x).
Proof.
  intros Hc Hx. destruct (ltb_true_not_nan _ _ Hx) as [Nc Nx].
  destruct (leb_true_not_nan _ _ Hc) as [N0 _].
  rewrite leb_ord in Hc by assumption. rewrite ltb_ord in Hx by assumption.
  change (ord 0) with 0%Z in Hc. apply Z.leb_le in Hc. apply Z.ltb_lt in Hx.
  apply ord_pos; [assumption | lia].
Qed.

Lemma SFmul_pos m e y :
  pos_sf y -> signed false (SF64mul (S754_finite false m e) y).
Proof.
  intros [->|(m' & e' & ->)]; cbn [SF64mul SFmul xorb].
  - right. right. reflexivity.
  - apply binary_round_aux_signed. lia.
Qed.

Lemma SFdiv_pos m e y :
  signed false y -> signed false (SF64div (S754_finite false m e) y).
Proof.
  intros [->|[(m' & e' & ->)| ->]]; cbn [SF64div SFdiv xorb].
  - right. right. reflexivity.
  - pose proof (SFdiv_core_binary_nonneg (Z.pos m) e (Z.pos m') e'
                  ltac:(lia) ltac:(lia)) as Hq.
    destruct (SFdiv_core_binary prec emax (Z.pos m) e (Z.pos m') e') as [[mz ez] lz].
    cbn [fst] in Hq. apply binary_round_aux_signed. lia.
  - left. reflexivity.
Qed.

Lemma signed_nonneg z : signed false (Prim2SF z) -> (0 <=? z) = true.
Proof.
  rewrite leb_spec. change (Prim2SF 0) with (S754_zero false). unfold SFleb.
  intros [->|[(m & e & ->)| ->]]; reflexivity.
Qed.


Lemma finite_ord_range x :
  PyFloat.is_finite x = true -> (- 2 ^ 70 < ord x < 2 ^ 70)%Z.
Proof.
  intros H. apply is_finite_Prim2SF in H. unfold ord.
  pose proof (Prim2SF_valid x) as V.
  destruct (Prim2SF x) as [s|s| |s m e]; try contradiction;
    cbn [Zcode valid_binary] in *.
  - change (2 ^ 70)%Z with 1180591620717411303424%Z. lia.
  - pose proof (mag_range _ _ V). destruct s; lia.
Qed.

Lemma ord_bounded_finite x lo hi :
  PrimFloat.is_nan x = false ->
  PyFloat.is_finite lo = true -> PyFloat.is_finite hi = true ->
  (ord lo <= ord x <= ord hi)%Z -> PyFloat.is_finite x = true.
Proof.
  intros Hn Hlo Hhi H. apply finite_ord_range in Hlo, Hhi.
  apply is_finite_Prim2SF. apply not_nan_Prim2SF in Hn. unfold ord in H at 2 3.
  destruct (Prim2SF x) as [s|s| |s m e]; try exact I; try congruence.
  destruct s; cbn [Zcode] in H; lia.
Qed.

Lemma leb_between lo x hi :
  (lo <=? x) = true -> (x <=? hi) = true ->
  PrimFloat.is_nan x = false /\ (ord lo <= ord x <= ord hi)%Z.
Proof.
  intros H1 H2.
  destruct (leb_true_not_nan _ _ H1) as [Nlo Nx].
  destruct (leb_true_not_nan _ _ H2) as [_ Nhi].
  rewrite leb_ord in H1, H2 by assumption.
  apply Z.leb_le in H1, H2. auto.
Qed.

Lemma py_max_between v lo hi :
  PrimFloat.is_nan v = false -> PrimFloat.is_nan lo = false ->
  (ord v <= ord hi)%Z -> (ord lo <= ord hi)%Z ->
  PrimFloat.is_nan (PyFloat.py_max v lo) = false
  /\ (ord lo <= ord (PyFloat.py_max v lo) <= ord hi)%Z.
Proof.
  intros Nv Nlo Hv Hlo. unfold PyFloat.py_max.
  rewrite ltb_ord by assumption.
  destruct (Z.ltb_spec (ord v) (ord lo)); split; auto; lia.
Qed.

Lemma py_min_between v lo hi :
  PrimFloat.is_nan v = false -> PrimFloat.is_nan hi = false ->
  (ord lo <= ord v)%Z -> (ord lo <= ord hi)%Z ->
  PrimFloat.is_nan (PyFloat.py_min v hi) = false
  /\ (ord lo <= ord (PyFloat.py_min v hi) <= ord hi)%Z.
Proof.
  intros Nv Nhi Hv Hlo. unfold PyFloat.py_min.
  rewrite ltb_ord by assumption.
  destruct (Z.ltb_spec (ord hi) (ord v)); split; auto; lia.
Qed.

(** The platform as [_bounding_box] expects it: a cosine that is a finite
    number on a finite angle, and a [round(x, n)] that keeps the order of
    the floats and leaves a whole number alone (for [n] not negative). *)
Record rounding_platform (rt : runtime) : Prop := {
  cos_finite : forall x, PyFloat.is_finite x = true ->
                 PyFloat.is_finite (libm_cos rt x) = true;
  round_monotone : forall x y n,
      PyFloat.is_finite x = true -> PyFloat.is_finite y = true ->
      (x <=? y) = true ->
      (round_ndigits rt x n <=? round_ndigits rt y n) = true;
  round_integer : forall z x n,
      (0 <= n)%Z -> PyFloat.of_int z = Ret x -> round_ndigits rt x n = x
}.

(** [lo <= x <= hi] on floats. *)
Definition between (lo x hi : float) : Prop :=
  (lo <=? x) = true /\ (x <=? hi) = true.

Section Edges.

Variable rt : runtime.
Hypothesis platform_ok : rounding_platform rt.

Variables (lo hi : float) (zlo zhi : Z).
Hypothesis lo_integer : PyFloat.of_int zlo = Ret lo.
Hypothesis hi_integer : PyFloat.of_int zhi = Ret hi.
Hypothesis lo_finite : PyFloat.is_finite lo = true.
Hypothesis hi_finite : PyFloat.is_finite hi = true.
Hypothesis lo_nonpos : (lo <=? 0) = true.
Hypothesis hi_nonneg : (0 <=? hi) = true.

Lemma round_between x :
  PrimFloat.is_nan x = false -> (ord lo <= ord x <= ord hi)%Z ->
  between lo (py_round rt x 6) hi.
Proof.
  intros Nx Hx.
  pose proof (ord_bounded_finite x lo hi Nx lo_finite hi_finite Hx) as Fx.
  pose proof (is_finite_not_nan _ lo_finite) as Nlo.
  pose proof (is_finite_not_nan _ hi_finite) as Nhi.
  unfold py_round. rewrite Fx. split.
  - rewrite <- (round_integer rt platform_ok zlo lo 6 ltac:(lia) lo_integer) at 1.
    apply (round_monotone rt platform_ok); try assumption.
    rewrite leb_ord by assumption. apply Z.leb_le. lia.
  - rewrite <- (round_integer rt platform_ok zhi hi 6 ltac:(lia) hi_integer) at 1.
    apply (round_monotone rt platform_ok); try assumption.
    rewrite leb_ord by assumption. apply Z.leb_le. lia.
Qed.

Lemma ends_ord : (ord lo <= 0 <= ord hi)%Z.
Proof.
  pose proof (is_finite_not_nan _ lo_finite) as Nlo.
  pose proof (is_finite_not_nan _ hi_finite) as Nhi.
  pose proof lo_nonpos as H1. pose proof hi_nonneg as H2.
  rewrite leb_ord in H1, H2 by (assumption || reflexivity).
  change (ord 0) with 0%Z in *. apply Z.leb_le in H1, H2. lia.
Qed.

(** The lower edge [round(max(c - d, lo), 6)]. *)
Lemma lower_edge c d :
  between lo c hi -> (0 <=? d) = true ->
  between lo (py_round rt (PyFloat.py_max (c - d) lo) 6) hi.
Proof.
  intros [H1 H2] Hd.
  destruct (leb_between _ _ _ H1 H2) as [Nc Hc].
  pose proof (ord_bounded_finite c lo hi Nc lo_finite hi_finite Hc) as Fc.
  destruct (sub_nonneg c d Fc Hd) as [Nv Hv].
  pose proof ends_ord as He.
  destruct (py_max_between (c - d) lo hi Nv (is_finite_not_nan _ lo_finite))
    as [Nw Hw]; try lia.
  now apply round_between.
Qed.

(** The upper edge [round(min(c + d, hi), 6)]. *)
Lemma upper_edge c d :
  between lo c hi -> (0 <=? d) = true ->
  between lo (py_round rt (PyFloat.py_min (c + d) hi) 6) hi.
Proof.
  intros [H1 H2] Hd.
  destruct (leb_between _ _ _ H1 H2) as [Nc Hc].
  pose proof (ord_bounded_finite c lo hi Nc lo_finite hi_finite Hc) as Fc.
  destruct (add_nonneg c d Fc Hd) as [Nv Hv].
  pose proof ends_ord as He.
  destruct (py_min_between (c + d) lo hi Nv (is_finite_not_nan _ hi_finite))
    as [Nw Hw]; try lia.
  now apply round_between.
Qed.

End Edges.


(** *** The two deltas are not negative *)

Lemma radius_finite r :
  (0 <? r) = true -> (r <=? 50) = true ->
  exists m e, Prim2SF r = S754_finite false m e.
Proof.
  intros H0 H1.
  pose proof (ltb_pos 0 r eq_refl H0) as [E|E]; [|exact E].
  destruct (leb_true_not_nan _ _ H1) as [Nr N50].
  rewrite leb_ord in H1 by assumption. apply Z.leb_le in H1.
  pose proof (finite_ord_range 50 eq_refl) as H50.
  unfold ord in H1 at 1. rewrite E in H1. cbn [Zcode] in H1. lia.
Qed.

Lemma lat_delta_nonneg r :
  (0 <? r) = true -> (r <=? 50) = true -> (0 <=? lat_delta r) = true.
Proof.
  intros H0 H1. destruct (radius_finite r H0 H1) as (m & e & Er).
  apply signed_nonneg. unfold lat_delta. rewrite div_spec, Er.
  apply SFdiv_pos. right. left. eexists. eexists. reflexivity.
Qed.

Lemma lon_delta_nonneg c r :
  (0 <? r) = true -> (r <=? 50) = true -> (0 <=? lon_delta c r) = true.
Proof.
  intros H0 H1. destruct (radius_finite r H0 H1) as (m & e & Er).
  unfold lon_delta. destruct (1e-6 <? c) eqn:Hc; [|reflexivity].
  apply signed_nonneg. rewrite div_spec, Er. apply SFdiv_pos.
  rewrite mul_spec.
  assert (E69 : exists m' e', Prim2SF 69.0 = S754_finite false m' e')
    by (eexists; eexists; reflexivity).
  destruct E69 as (m' & e' & ->). apply SFmul_pos.
  exact (ltb_pos 1e-6 c eq_refl Hc).
Qed.

(** *** The angle handed to the cosine *)

Lemma small_exponent x :
  between (-90) x 90 ->
  (exists s, Prim2SF x = S754_zero s)
  \/ (exists s m e, Prim2SF x = S754_finite s m e /\ (e <= -46)%Z).
Proof.
  intros [H1 H2]. destruct (leb_between _ _ _ H1 H2) as [Nx Hx].
  apply not_nan_Prim2SF in Nx. unfold ord in Hx.
  pose proof (Prim2SF_valid x) as V.
  assert (E90 : Prim2SF 90 = S754_finite false 6333186975989760 (-46))
    by reflexivity.
  assert (E90' : Prim2SF (-90) = S754_finite true 6333186975989760 (-46))
    by reflexivity.
  rewrite E90, E90' in Hx. cbn [Zcode] in Hx. unfold mag in Hx.
  change (2 ^ 53)%Z with 9007199254740992%Z in Hx.
  destruct (Prim2SF x) as [s|s| |s m e]; cbn [Zcode valid_binary] in *.
  - eauto.
  - change (2 ^ 70)%Z with 1180591620717411303424%Z in Hx. destruct s; lia.
  - congruence.
  - right. exists s, m, e. split; [reflexivity|].
    apply bounded_range in V as [Hm He]. unfold mag in Hx.
    change (2 ^ 53)%Z with 9007199254740992%Z in *. destruct s; lia.
Qed.

Lemma radians_finite x :
  between (-90) x 90 -> PyFloat.is_finite (PyFloat.radians x) = true.
Proof.
  intros H. apply is_finite_Prim2SF. unfold PyFloat.radians.
  rewrite mul_spec, Prim2SF_degToRad.
  pose proof (Prim2SF_valid x) as V.
  destruct (small_exponent x H) as [[s E]|(s & m & e & E & He)];
    rewrite E in *; cbn [SF64mul SFmul finite_sf]; auto.
  cbn [valid_binary] in V. apply bounded_range in V as [Hm _].
  destruct (binary_round_aux_in_range (xorb s false)
              (Z.pos (m * 5030569068109113)) (e + -58) loc_Exact 106)
    as [->|(m0 & e0 & ->)]; try exact I; lia.
Qed.

Lemma math_1_finite f x :
  PyFloat.is_finite (f x) = true -> PyFloat.math_1 f x = Ret (f x).
Proof.
  intros H. destruct (is_finite_split _ H) as [Hn Hi].
  unfold PyFloat.math_1. now rewrite Hn, Hi.
Qed.

(** C8: for a center that is a coordinate and a radius the request model
    admits, [_bounding_box] returns the text of four numbers with commas
    between them: [round(max(lon - dlon, -180), 6)],
    [round(max(lat - dlat, -90), 6)], [round(min(lon + dlon, 180), 6)] and
    [round(min(lat + dlat, 90), 6)], in this order, with [dlat = r / 69.0]
    and [dlon = r / (69.0 * cos(radians(lat)))], or [dlon = 180.0] when the
    cosine is at most [1e-6]; west and east lie in [-180, 180] and south and
    north in [-90, 90]. *)
Theorem bounding_box_clamped rt lat lon r :
  rounding_platform rt ->
  between (-90) lat 90 -> between (-180) lon 180 ->
  (0 <? r) = true -> (r <=? 50) = true ->
  exists cos_lat dlon b,
    math_cos rt (PyFloat.radians lat) = Ret cos_lat
    /\ _bounding_box rt lat lon r
       = Ret (str_of_value rt (PFloat (west b)) ++ "," ++
              str_of_value rt (PFloat (south b)) ++ "," ++
              str_of_value rt (PFloat (east b)) ++ "," ++
              str_of_value rt (PFloat (north b)))%string
    /\ bounding_box_values rt lat lon r = Ret b
    /\ ((1e-6 <? cos_lat) = true -> dlon = r / (69.0 * cos_lat))
    /\ ((cos_lat <=? 1e-6) = true -> dlon = 180.0)
    /\ west b = py_round rt (PyFloat.py_max (lon - dlon) (-180.0)) 6
    /\ south b = py_round rt (PyFloat.py_max (lat - r / 69.0) (-90.0)) 6
    /\ east b = py_round rt (PyFloat.py_min (lon + dlon) 180.0) 6
    /\ north b = py_round rt (PyFloat.py_min (lat + r / 69.0) 90.0) 6
    /\ between (-180) (west b) 180 /\ between (-90) (south b) 90
    /\ between (-180) (east b) 180 /\ between (-90) (north b) 90.
Proof.
  intros P Hlat Hlon H0 H1.
  pose proof (radians_finite lat Hlat) as Fa.
  pose proof (math_1_finite (libm_cos rt) _ (cos_finite rt P _ Fa)) as Hc.
  fold (math_cos rt (PyFloat.radians lat)) in Hc.
  set (cos_lat := libm_cos rt (PyFloat.radians lat)) in *.
  pose proof (lat_delta_nonneg r H0 H1) as Dlat.
  pose proof (lon_delta_nonneg cos_lat r H0 H1) as Dlon.
  exists cos_lat, (lon_delta cos_lat r). eexists.
  split; [exact Hc|].
  assert (Hb : bounding_box_values rt lat lon r = Ret _)
    by (unfold bounding_box_values; rewrite Hc; cbn [bind]; reflexivity).
  split. { unfold _bounding_box. rewrite Hb. reflexivity. }
  split; [exact Hb|].
  cbn [west south east north].
  split. { intros E. unfold lon_delta. now rewrite E. }
  split.
  { intros E. unfold lon_delta.
    destruct (leb_true_not_nan _ _ E) as [N1 N2].
    rewrite leb_ord in E by assumption. rewrite ltb_ord by assumption.
    apply Z.leb_le in E. destruct (Z.ltb_spec (ord 1e-6) (ord cos_lat)); [lia|reflexivity]. }
  repeat (split; [reflexivity|]).
  split; [|split; [|split]].
  - apply (lower_edge rt P (-180) 180 (-180) 180); auto; reflexivity.
  - apply (lower_edge rt P (-90) 90 (-90) 90); auto; reflexivity.
  - apply (upper_edge rt P (-180) 180 (-180) 180); auto; reflexivity.
  - apply (upper_edge rt P (-90) 90 (-90) 90); auto; reflexivity.
Qed.

(** *** The sample platform *)

Lemma sample_cos_finite x :
  PyFloat.is_finite x = true -> PyFloat.is_finite (x * 0 + 1) = true.
Proof.
  intros H. apply is_finite_Prim2SF in H.
  assert (E : x * 0 = PrimFloat.zero \/ x * 0 = PrimFloat.neg_zero).
  { rewrite <- (SF2Prim_Prim2SF (x * 0)), mul_spec.
    change (Prim2SF 0) with (S754_zero false).
    destruct (Prim2SF x) as [[]|[]| |[] m e]; try contradiction; cbn; auto. }
  destruct E as [->| ->]; reflexivity.
Qed.

Lemma sample_rounding_platform : rounding_platform Sample.platform.
Proof.
  split; cbn [libm_cos round_ndigits Sample.platform].
  - exact sample_cos_finite.
  - intros x y _ _ _ H. exact H.
  - reflexivity.
Qed.

(** *** A platform that knows the poles

    The sample platform with another cosine: 1 up to an angle of 1.5, and 0
    beyond it, so that the latitudes 90 and -90 meet the guard of
    [_bounding_box] and the box is cut at 180, at -180, at 90 and at -90. *)
Definition polar_platform : runtime :=
  {| libm_sin := libm_sin Sample.platform;
     libm_cos := fun x => if PrimFloat.abs x <? 1.5 then 1 else 0;
     libm_atan2 := libm_atan2 Sample.platform;
     libm_pow := libm_pow Sample.platform;
     round_ndigits := round_ndigits Sample.platform;
     float_of_str := float_of_str Sample.platform;
     str_of_value := str_of_value Sample.platform |}.

Lemma polar_rounding_platform : rounding_platform polar_platform.
Proof.
  split; cbn.
  - intros x _. destruct (PrimFloat.abs x <? 1.5); reflexivity.
  - intros x y _ _ _ H. exact H.
  - reflexivity.
Qed.

Lemma bounding_box_clamped_witness :
  (exists b,
      _bounding_box Sample.platform 1.5 2.5 3
      = Ret (Sample.str (PFloat (west b)) ++ "," ++ Sample.str (PFloat (south b)) ++ ","
             ++ Sample.str (PFloat (east b)) ++ "," ++ Sample.str (PFloat (north b)))%string
      /\ west b = 2.5 - 3 / 69.0 /\ south b = 1.5 - 3 / 69.0
      /\ east b = 2.5 + 3 / 69.0 /\ north b = 1.5 + 3 / 69.0
      /\ between (-180) (west b) 180 /\ between (-90) (north b) 90)
  /\ (exists b,
        _bounding_box polar_platform 90 10 50
        = Ret (Sample.str (PFloat (west b)) ++ "," ++ Sample.str (PFloat (south b)) ++ ","
               ++ Sample.str (PFloat (east b)) ++ "," ++ Sample.str (PFloat (north b)))%string
        /\ west b = -170 /\ south b = 90 - 50 / 69.0
        /\ east b = 180 /\ north b = 90
        /\ between (-180) (east b) 180 /\ between (-90) (north b) 90)
  /\ (exists b,
        _bounding_box polar_platform (-90) (-175) 50
        = Ret (Sample.str (PFloat (west b)) ++ "," ++ Sample.str (PFloat (south b)) ++ ","
               ++ Sample.str (PFloat (east b)) ++ "," ++ Sample.str (PFloat (north b)))%string
        /\ west b = -180 /\ south b = -90
        /\ east b = 5 /\ north b = -90 + 50 / 69.0
        /\ between (-180) (west b) 180 /\ between (-90) (south b) 90).
Proof.
  split; [|split].
  - destruct (bounding_box_clamped Sample.platform 1.5 2.5 3 sample_rounding_platform)
      as (c & d & b & _ & Ht & Hb & _ & _ & _ & _ & _ & _ & Hw & _ & _ & Hn);
      [split; reflexivity | split; reflexivity | reflexivity | reflexivity |].
    exists b. split; [exact Ht|].
    vm_compute in Hb. injection Hb as <-.
    repeat split; try reflexivity.
  - destruct (bounding_box_clamped polar_platform 90 10 50 polar_rounding_platform)
      as (c & d & b & _ & Ht & Hb & _ & _ & _ & _ & _ & _ & _ & _ & He & Hn);
      [split; reflexivity | split; reflexivity | reflexivity | reflexivity |].
    exists b. split; [exact Ht|].
    vm_compute in Hb. injection Hb as <-.
    repeat split; try reflexivity.
  - destruct (bounding_box_clamped polar_platform (-90) (-175) 50 polar_rounding_platform)
      as (c & d & b & _ & Ht & Hb & _ & _ & _ & _ & _ & _ & Hw & Hs & _ & _);
      [split; reflexivity | split; reflexivity | reflexivity | reflexivity |].
    exists b. split; [exact Ht|].
    vm_compute in Hb. injection Hb as <-.
    repeat split; try reflexivity.
Defined.

End BoundingBoxFacts.

(** ** [strip_unit] on any address *)

Module AddressFacts.

Import Re ReFacts StripUnit.

Lemma of_to_string l : PyStr.of_string (PyStr.to_string l) = l.
Proof. apply list_ascii_of_string_of_list_ascii. Qed.

Lemma rstrip_by_prefix p l : exists suf, l = PyStr.rstrip_by p l ++ suf.
Proof.
  unfold PyStr.rstrip_by.
  destruct (dropwhile_split p (rev l)) as (xs & Hl & _ & _).
  exists (rev xs). rewrite <- rev_app_distr, <- Hl. symmetry. apply rev_involutive.
Qed.

Lemma rstrip_by_end p l pre c :
  PyStr.rstrip_by p l = pre ++ [c] -> p c = false.
Proof.
  unfold PyStr.rstrip_by. intros H.
  apply (f_equal (@rev ascii)) in H. rewrite rev_involutive, rev_app_distr in H.
  cbn [rev app] in H.
  destruct (dropwhile_split p (rev l)) as (xs & _ & _ & Hs).
  rewrite H in Hs. exact Hs.
Qed.

Lemma prefix_head (l t suf : list ascii) c rest :
  l = t ++ suf -> t = c :: rest -> exists rest', l = c :: rest'.
Proof. intros -> ->. cbn [app]. eauto. Qed.

(** X1: whatever the address, [strip_unit] returns a text that does not
    start with white space and does not end with a comma. *)
Theorem strip_unit_trimmed address :
  (forall c rest,
      PyStr.of_string (strip_unit address) = c :: rest -> PyStr.is_space c = false)
  /\ (forall pre, PyStr.of_string (strip_unit address) <> pre ++ [","%char]).
Proof.
  unfold strip_unit. rewrite of_to_string.
  set (l := sub_empty UNIT_PATTERNS (PyStr.of_string address)).
  split.
  - intros c rest H. unfold PyStr.rstrip_comma in H.
    destruct (rstrip_by_prefix (fun c => Ascii.eqb c ",") (PyStr.strip l)) as [s1 H1].
    destruct (prefix_head _ _ _ _ _ H1 H) as [r1 E1].
    unfold PyStr.strip in E1.
    destruct (rstrip_by_prefix PyStr.is_space (PyStr.lstrip_by PyStr.is_space l))
      as [s2 H2].
    destruct (prefix_head _ _ _ _ _ H2 E1) as [r2 E2].
    unfold PyStr.lstrip_by in E2.
    destruct (dropwhile_split PyStr.is_space l) as (xs & _ & _ & Hs).
    rewrite E2 in Hs. exact Hs.
  - intros pre H. apply rstrip_by_end in H. discriminate.
Qed.


(** *** Addresses with no unit marker *)

(** [label] spells the start of [s], letter case apart. *)
Fixpoint starts_with_ci (label s : list ascii) : bool :=
  match label, s with
  | [], _ => true
  | a :: label', c :: s' =>
      Ascii.eqb (PyStr.lower c) (PyStr.lower a) && starts_with_ci label' s'
  | _ :: _, [] => false
  end.

(** A place of [s] where a hash sign stands or one of the labels starts. *)
Definition marker_here (s : list ascii) : bool :=
  match s with
  | [] => false
  | c :: _ =>
      Ascii.eqb c "#"
      || existsb (fun label => starts_with_ci (PyStr.of_string label) s) unit_labels
  end.

Fixpoint has_unit_marker (s : list ascii) : bool :=
  match s with
  | [] => false
  | _ :: s' => marker_here s || has_unit_marker s'
  end.

Definition suffix (s' s : list ascii) : Prop := exists pre, s = pre ++ s'.

Lemma suffix_refl s : suffix s s.
Proof. now exists []. Qed.

Lemma suffix_trans a b c : suffix a b -> suffix b c -> suffix a c.
Proof. intros [p ->] [q ->]. exists (q ++ p). now rewrite app_assoc. Qed.

Lemma suffix_tail c s : suffix s (c :: s).
Proof. now exists [c]. Qed.

(** A continuation that fails on every suffix makes the match fail: the
    matcher only ever hands a suffix of its text on. *)
Lemma star_loop_fails m k :
  (forall s k', (forall s', suffix s' s -> k' s' = None) -> m s k' = None) ->
  forall n s, (forall s', suffix s' s -> k s' = None) -> star_loop m k n s = None.
Proof.
  intros Hm. induction n as [|n IH]; intros s Hk.
  - cbn. apply Hk, suffix_refl.
  - rewrite star_loop_S. rewrite Hm.
    + apply Hk, suffix_refl.
    + intros s1 H1. destruct (List.length s1 <? List.length s)%nat; [|reflexivity].
      apply IH. intros s' H'. apply Hk. eapply suffix_trans; eassumption.
Qed.

Lemma rmatch_fails r :
  forall s k, (forall s', suffix s' s -> k s' = None) -> rmatch r s k = None.
Proof.
  induction r as [p| |r1 IH1 r2 IH2|r1 IH1 r2 IH2|r1 IH1|r1 IH1|]; intros s k Hk.
  - destruct s as [|c s]; [reflexivity|]. rewrite rmatch_chr_cons.
    destruct (p c); [|reflexivity]. apply Hk, suffix_tail.
  - apply Hk, suffix_refl.
  - rewrite rmatch_cat. apply IH1. intros s1 H1. apply IH2.
    intros s' H'. apply Hk. eapply suffix_trans; eassumption.
  - rewrite rmatch_alt, IH1 by assumption. now apply IH2.
  - change (rmatch (Star r1) s k) with (star_loop (rmatch r1) k (List.length s) s).
    apply star_loop_fails; assumption.
  - rewrite rmatch_ahead. destruct (rmatch r1 s (fun _ => Some [])); [|reflexivity].
    apply Hk, suffix_refl.
  - cbn [rmatch]. destruct s as [|c [|d s]]; try reflexivity.
    + apply Hk, suffix_refl.
    + destruct (Ascii.eqb c "010"); [|reflexivity]. apply Hk, suffix_refl.
Qed.

Lemma chr_ci_unfold a c s k :
  rmatch (chr_ci a) (c :: s) k
  = if Ascii.eqb (PyStr.lower c) (PyStr.lower a) then k s else None.
Proof. reflexivity. Qed.

Lemma lit_ci_fails label :
  forall s k, starts_with_ci label s = false -> rmatch (lit_ci label) s k = None.
Proof.
  induction label as [|a label IH]; intros s k H; [discriminate|].
  destruct s as [|c s].
  - destruct label; reflexivity.
  - cbn [starts_with_ci] in H.
    destruct label as [|b label].
    + cbn [lit_ci]. rewrite chr_ci_unfold.
      destruct (Ascii.eqb (PyStr.lower c) (PyStr.lower a)); [discriminate|reflexivity].
    + change (lit_ci (a :: b :: label)) with (Cat (chr_ci a) (lit_ci (b :: label))).
      rewrite rmatch_cat, chr_ci_unfold.
      destruct (Ascii.eqb (PyStr.lower c) (PyStr.lower a)); [|reflexivity].
      apply IH. exact H.
Qed.

Lemma alts_fails rs s k :
  Forall (fun r => rmatch r s k = None) rs -> rmatch (alts rs) s k = None.
Proof.
  induction 1 as [|r rs Hr Hrs IH]; [destruct s; reflexivity|].
  destruct rs as [|r' rs]; [exact Hr|].
  change (alts (r :: r' :: rs)) with (Alt r (alts (r' :: rs))).
  now rewrite rmatch_alt, Hr.
Qed.

Lemma labels_fail s k :
  existsb (fun label => starts_with_ci (PyStr.of_string label) s) unit_labels = false ->
  rmatch labels_re s k = None.
Proof.
  intros H. unfold labels_re. apply alts_fails.
  apply Forall_forall. intros r Hr. apply in_map_iff in Hr as (label & <- & Hin).
  apply lit_ci_fails.
  destruct (starts_with_ci (PyStr.of_string label) s) eqn:E; [|reflexivity].
  assert (Hex : existsb (fun label => starts_with_ci (PyStr.of_string label) s)
                  unit_labels = true)
    by (apply existsb_exists; eauto).
  congruence.
Qed.

Lemma no_marker_no_body s k :
  marker_here s = false -> rmatch (Alt numbered_re labelled_re) s k = None.
Proof.
  intros H. rewrite rmatch_alt.
  destruct s as [|c s]; [reflexivity|].
  cbn [marker_here] in H. apply orb_false_iff in H as [Hc Hl].
  assert (Hn : rmatch numbered_re (c :: s) k = None).
  { unfold numbered_re. rewrite rmatch_cat, rmatch_chr_cons. now rewrite Hc. }
  rewrite Hn. unfold labelled_re. rewrite rmatch_cat. now apply labels_fail.
Qed.

Lemma has_unit_marker_suffix s s' :
  has_unit_marker s = false -> suffix s' s -> marker_here s' = false.
Proof.
  intros H [pre ->]. induction pre as [|c pre IH].
  - destruct s' as [|c s']; [reflexivity|].
    cbn [app has_unit_marker] in H. now apply orb_false_iff in H.
  - cbn [app has_unit_marker] in H. apply orb_false_iff in H as [_ H]. auto.
Qed.

Lemma no_marker_no_match s :
  has_unit_marker s = false ->
  forall s', suffix s' s -> match_prefix UNIT_PATTERNS s' = None.
Proof.
  intros H s' Hs'. unfold match_prefix.
  rewrite UNIT_PATTERNS_shape, rmatch_cat.
  apply rmatch_fails. intros s1 H1. rewrite rmatch_cat.
  apply no_marker_no_body.
  apply (has_unit_marker_suffix s); [assumption|].
  eapply suffix_trans; eassumption.
Qed.

Lemma sub_empty_no_match r s :
  (forall s', suffix s' s -> match_prefix r s' = None) -> sub_empty r s = s.
Proof.
  induction s as [|c s IH]; intros H.
  - rewrite sub_empty_unfold, (H [] (suffix_refl _)). reflexivity.
  - rewrite sub_empty_unfold, (H _ (suffix_refl _)). cbn [keep_one].
    f_equal. apply IH. intros s' Hs'. apply H.
    eapply suffix_trans; [eassumption | apply suffix_tail].
Qed.

(** X2: among the addresses whose characters all lie below code point 256
    (the texts a [string] holds), one in which no hash sign stands and none
    of the eleven labels starts, in either case of its ASCII letters, is only
    trimmed: the white space around it and the commas at its end go, nothing
    else changes.  The limit matters: beyond code point 256 the pattern of
    the source also takes U+017F for an s and U+0130 or U+0131 for an i, so
    that a label can start where no ASCII spelling of it does. *)
Theorem strip_unit_without_marker address :
  has_unit_marker (PyStr.of_string address) = false ->
  strip_unit address
  = PyStr.to_string (PyStr.rstrip_comma (PyStr.strip (PyStr.of_string address))).
Proof.
  intros H. unfold strip_unit.
  rewrite (sub_empty_no_match UNIT_PATTERNS _ (no_marker_no_match _ H)).
  reflexivity.
Qed.

Lemma strip_unit_without_marker_witness :
  strip_unit "  12 Oak Lane, Dallas, TX 75201,, "
  = PyStr.to_string
      (PyStr.rstrip_comma
         (PyStr.strip (PyStr.of_string "  12 Oak Lane, Dallas, TX 75201,, "))).
Proof.
  apply strip_unit_without_marker. reflexivity.
Defined.


(** *** [strip_unit] only deletes *)

(** [a] is [b] with some characters left out. *)
Inductive subseq : list ascii -> list ascii -> Prop :=
| subseq_nil : subseq [] []
| subseq_keep c a b : subseq a b -> subseq (c :: a) (c :: b)
| subseq_drop c a b : subseq a b -> subseq a (c :: b).

Lemma subseq_refl l : subseq l l.
Proof. induction l; constructor; assumption. Qed.

Lemma subseq_trans a b c : subseq a b -> subseq b c -> subseq a c.
Proof.
  intros Hab Hbc. revert a Hab.
  induction Hbc as [|x b c Hbc IH|x b c Hbc IH]; intros a Hab.
  - exact Hab.
  - inversion Hab; subst; constructor; auto.
  - constructor. auto.
Qed.

Lemma subseq_length a b : subseq a b -> (List.length a <= List.length b)%nat.
Proof. induction 1; cbn [List.length]; lia. Qed.

Lemma subseq_suffix s' s : suffix s' s -> subseq s' s.
Proof.
  intros [pre ->]. induction pre as [|c pre IH]; [apply subseq_refl|].
  cbn [app]. now constructor.
Qed.

Lemma subseq_prefix (l suf : list ascii) : subseq l (l ++ suf).
Proof.
  induction l as [|c l IH]; cbn [app].
  - induction suf; constructor; assumption.
  - now constructor.
Qed.

Lemma subseq_rstrip_by p l : subseq (PyStr.rstrip_by p l) l.
Proof.
  destruct (rstrip_by_prefix p l) as [suf H]. rewrite H at 2. apply subseq_prefix.
Qed.

Lemma subseq_dropwhile p l : subseq (PyStr.dropwhile p l) l.
Proof.
  apply subseq_suffix. destruct (dropwhile_split p l) as (xs & H & _). now exists xs.
Qed.

(** A match ends where the continuation took over, and that place is a
    suffix of the text. *)
Lemma star_loop_some m k out :
  (forall s k', m s k' = Some out -> exists s', suffix s' s /\ k' s' = Some out) ->
  forall n s, star_loop m k n s = Some out ->
    exists s', suffix s' s /\ k s' = Some out.
Proof.
  intros Hm. induction n as [|n IH]; intros s H.
  - exists s. split; [apply suffix_refl|exact H].
  - rewrite star_loop_S in H.
    destruct (m s _) as [o|] eqn:E.
    + injection H as ->. apply Hm in E as (s1 & H1 & E).
      destruct (List.length s1 <? List.length s)%nat; [|discriminate].
      apply IH in E as (s' & H' & E). exists s'. split; [|exact E].
      eapply suffix_trans; eassumption.
    + exists s. split; [apply suffix_refl|exact H].
Qed.

Lemma rmatch_some r out :
  forall s k, rmatch r s k = Some out -> exists s', suffix s' s /\ k s' = Some out.
Proof.
  induction r as [p| |r1 IH1 r2 IH2|r1 IH1 r2 IH2|r1 IH1|r1 IH1|]; intros s k H.
  - destruct s as [|c s]; [discriminate|]. rewrite rmatch_chr_cons in H.
    destruct (p c); [|discriminate]. exists s. split; [apply suffix_tail|exact H].
  - exists s. split; [apply suffix_refl|exact H].
  - rewrite rmatch_cat in H. apply IH1 in H as (s1 & H1 & H).
    apply IH2 in H as (s' & H' & H). exists s'. split; [|exact H].
    eapply suffix_trans; eassumption.
  - rewrite rmatch_alt in H. destruct (rmatch r1 s k) as [o|] eqn:E.
    + injection H as ->. now apply IH1.
    + now apply IH2.
  - change (rmatch (Star r1) s k) with (star_loop (rmatch r1) k (List.length s) s) in H.
    eapply star_loop_some; [|exact H]. intros s0 k'. apply IH1.
  - rewrite rmatch_ahead in H. destruct (rmatch r1 s (fun _ => Some [])); [|discriminate].
    exists s. split; [apply suffix_refl|exact H].
  - exists s. split; [apply suffix_refl|]. cbn [rmatch] in H.
    destruct s as [|c [|d s]]; try discriminate; [exact H|].
    destruct (Ascii.eqb c "010"); [exact H|discriminate].
Qed.

Lemma match_prefix_suffix r s rest : match_prefix r s = Some rest -> suffix rest s.
Proof.
  unfold match_prefix. intros H. apply rmatch_some in H as (s' & Hs & [= ->]).
  exact Hs.
Qed.

Lemma sub_empty_fuel_subseq r :
  forall fuel s, subseq (sub_empty_fuel fuel r s) s.
Proof.
  induction fuel as [|fuel IH]; intros s; [apply subseq_refl|].
  cbn [sub_empty_fuel].
  assert (Hkeep : subseq match s with
                         | [] => []
                         | c :: s' => c :: sub_empty_fuel fuel r s'
                         end s).
  { destruct s as [|c s']; constructor. apply IH. }
  destruct (match_prefix r s) as [rest|] eqn:Hm; [|exact Hkeep].
  destruct (List.length rest <? List.length s)%nat; [|exact Hkeep].
  eapply subseq_trans; [apply IH|].
  apply subseq_suffix. exact (match_prefix_suffix r s rest Hm).
Qed.

(** X3: [strip_unit] only deletes.  What it returns is the address with
    some characters left out, in the old order; so it is never longer than
    the address. *)
Theorem strip_unit_only_deletes address :
  subseq (PyStr.of_string (strip_unit address)) (PyStr.of_string address)
  /\ (String.length (strip_unit address) <= String.length address)%nat.
Proof.
  assert (H : subseq (PyStr.of_string (strip_unit address)) (PyStr.of_string address)).
  { unfold strip_unit. rewrite of_to_string.
    eapply subseq_trans; [apply subseq_rstrip_by|].
    unfold PyStr.strip. eapply subseq_trans; [apply subseq_rstrip_by|].
    unfold PyStr.lstrip_by. eapply subseq_trans; [apply subseq_dropwhile|].
    apply sub_empty_fuel_subseq. }
  split; [exact H|].
  apply subseq_length in H.
  assert (L : forall s, List.length (PyStr.of_string s) = String.length s).
  { induction s as [|c s IH]; [reflexivity|]. cbn. now rewrite <- IH. }
  now rewrite !L in H.
Qed.

End AddressFacts.

(** ** [strip_unit] on a qualifier behind a comma *)

Module CommaFacts.

Import Re ReFacts StripUnit AddressFacts.

Definition comma : ascii := ","%char.

(** White space in front of the pattern: the rest of the pattern is tried
    only where the text goes on after some of its leading white space. *)
Lemma star_space_loop_fails k :
  forall n s,
    (forall sp s1, s = sp ++ s1 -> run PyStr.is_space sp -> k s1 = None) ->
    star_loop (rmatch space) k n s = None.
Proof.
  induction n as [|n IH]; intros s Hk.
  - cbn. apply (Hk [] s eq_refl). constructor.
  - rewrite star_loop_S.
    assert (Hs : k s = None) by (apply (Hk [] s eq_refl); constructor).
    destruct s as [|c s]; [exact Hs|].
    unfold space at 1. rewrite rmatch_chr_cons.
    destruct (PyStr.is_space c) eqn:Hc; [|exact Hs].
    destruct (List.length s <? List.length (c :: s))%nat; [|exact Hs].
    rewrite IH; [exact Hs|].
    intros sp s1 E Hsp. apply (Hk (c :: sp) s1).
    + cbn [app]. now rewrite E.
    + now constructor.
Qed.

Lemma star_space_fails k s :
  (forall sp s1, s = sp ++ s1 -> run PyStr.is_space sp -> k s1 = None) ->
  rmatch (Star space) s k = None.
Proof.
  intros H.
  change (rmatch (Star space) s k) with (star_loop (rmatch space) k (List.length s) s).
  now apply star_space_loop_fails.
Qed.

(** No label has a comma in it, so a label that starts in front of a comma
    ends in front of it. *)
Lemma starts_with_ci_comma label :
  Forall (fun a => Ascii.eqb (PyStr.lower comma) (PyStr.lower a) = false) label ->
  forall p rest,
    starts_with_ci label (p ++ comma :: rest) = starts_with_ci label p.
Proof.
  induction 1 as [|a label Ha _ IH]; intros p rest; [reflexivity|].
  destruct p as [|c p]; cbn [app starts_with_ci].
  - now rewrite Ha.
  - now rewrite IH.
Qed.

Lemma labels_have_no_comma :
  Forall (fun label =>
            Forall (fun a => Ascii.eqb (PyStr.lower comma) (PyStr.lower a) = false)
              (PyStr.of_string label))
    unit_labels.
Proof. repeat constructor. Qed.

Lemma marker_here_comma p rest :
  marker_here (p ++ comma :: rest) = marker_here p.
Proof.
  destruct p as [|c p]; [reflexivity|].
  cbn [app marker_here]. f_equal.
  change (c :: p ++ comma :: rest) with ((c :: p) ++ comma :: rest).
  pose proof labels_have_no_comma as H.
  induction H as [|label labels Hl _ IH]; [reflexivity|].
  cbn [existsb]. rewrite (starts_with_ci_comma _ Hl). now rewrite IH.
Qed.

Lemma space_run_before_comma :
  forall sp p rest s1,
    p ++ comma :: rest = sp ++ s1 -> run PyStr.is_space sp ->
    exists p', p = sp ++ p' /\ s1 = p' ++ comma :: rest.
Proof.
  induction sp as [|x sp IH]; intros p rest s1 E Hsp.
  - exists p. auto.
  - inversion Hsp as [|? ? Hx Hsp']; subst.
    destruct p as [|c p]; cbn [app] in E; injection E as Ex E; subst x.
    + discriminate.
    + destruct (IH _ _ _ E Hsp') as (p' & -> & ->). exists p'. auto.
Qed.

(** In front of a comma, a text with no marker in it gives the pattern no
    place to start. *)
Lemma no_match_before_comma pre rest :
  has_unit_marker pre = false ->
  forall p, suffix p pre -> match_prefix UNIT_PATTERNS (p ++ comma :: rest) = None.
Proof.
  intros Hpre p Hp. unfold match_prefix.
  rewrite UNIT_PATTERNS_shape, rmatch_cat. apply star_space_fails.
  intros sp s1 E Hsp.
  destruct (space_run_before_comma _ _ _ _ E Hsp) as (p' & -> & ->).
  rewrite rmatch_cat. apply no_marker_no_body. rewrite marker_here_comma.
  apply (has_unit_marker_suffix pre); [assumption|].
  eapply suffix_trans; [|exact Hp]. now exists sp.
Qed.

Lemma no_match_within_before_comma pre rest :
  has_unit_marker pre = false ->
  no_match_within UNIT_PATTERNS (pre ++ [comma]) rest = true.
Proof.
  intros Hpre.
  assert (H : forall p, suffix p pre ->
                no_match_within UNIT_PATTERNS (p ++ [comma]) rest = true).
  { induction p as [|c p IH]; intros Hp.
    - pose proof (no_match_before_comma pre rest Hpre [] Hp) as E.
      cbn [app] in E. cbn [app no_match_within]. now rewrite E.
    - pose proof (no_match_before_comma pre rest Hpre (c :: p) Hp) as E.
      replace ((c :: p) ++ comma :: rest) with (((c :: p) ++ [comma]) ++ rest) in E
        by (now rewrite <- app_assoc).
      cbn [app] in E |- *. cbn [no_match_within]. cbn [app]. rewrite E.
      apply IH. eapply suffix_trans; [apply suffix_tail|exact Hp]. }
  apply H, suffix_refl.
Qed.

Lemma sub_empty_nil : sub_empty UNIT_PATTERNS [] = [].
Proof. reflexivity. Qed.

Lemma sub_empty_comma post :
  sub_empty UNIT_PATTERNS (comma :: post) = comma :: sub_empty UNIT_PATTERNS post.
Proof.
  rewrite sub_empty_unfold.
  assert (H : match_prefix UNIT_PATTERNS (comma :: post) = None).
  { apply (no_match_before_comma [] post eq_refl [] (suffix_refl _)). }
  now rewrite H.
Qed.

(** The substitution on a qualifier that stands behind a comma: the
    qualifier and the white space before it go, the comma stays, and so
    does all that follows the qualifier. *)
Lemma sub_empty_behind_comma pre ws q post :
  has_unit_marker pre = false ->
  run PyStr.is_space ws -> qualifier q ->
  followed_by_comma_or_end post = true ->
  sub_empty UNIT_PATTERNS (pre ++ comma :: ws ++ q ++ post)
  = pre ++ comma :: sub_empty UNIT_PATTERNS post.
Proof.
  intros Hpre Hws Hq Hpost.
  assert (Hne : ws ++ q <> []).
  { pose proof (qualifier_nonempty q Hq). destruct ws; [assumption|discriminate]. }
  pose proof (sub_empty_leftmost UNIT_PATTERNS (ws ++ q) post Hne
                (qualifier_matches ws q post Hws Hq Hpost) (pre ++ [comma])
                (no_match_within_before_comma pre _ Hpre)) as H.
  rewrite <- !app_assoc in H. cbn [app] in H. exact H.
Qed.

(** C3, where the code departs from it (for addresses of characters below
    code point 256, the texts of this development).  A qualifier that
    stands between two commas goes, with the white space before it, but
    both commas stay: [strip] and [rstrip(",")] only tidy the two ends.  So
    "123 Main St, Suite 200, Austin, TX" comes back as
    "123 Main St,, Austin, TX" and not as the "123 Main St, Austin, TX" of
    the scenario.  A qualifier at the end of the address does come out
    clean: there the comma before it is at the end of what is left, and
    [rstrip(",")] takes it away. *)
Theorem strip_unit_doubles_comma :
  (forall pre ws q post,
      has_unit_marker pre = false -> has_unit_marker post = false ->
      run PyStr.is_space ws -> qualifier q ->
      strip_unit (PyStr.to_string (pre ++ comma :: ws ++ q ++ comma :: post))
      = PyStr.to_string
          (PyStr.rstrip_comma (PyStr.strip (pre ++ comma :: comma :: post))))
  /\ (forall pre ws q,
        has_unit_marker pre = false -> run PyStr.is_space ws -> qualifier q ->
        strip_unit (PyStr.to_string (pre ++ comma :: ws ++ q))
        = PyStr.to_string (PyStr.rstrip_comma (PyStr.strip (pre ++ [comma]))))
  /\ strip_unit "123 Main St, Suite 200, Austin, TX" = "123 Main St,, Austin, TX"
  /\ strip_unit "123 Main St, Suite 200, Austin, TX" <> "123 Main St, Austin, TX"
  /\ strip_unit "123 Main St, Suite 200" = "123 Main St".
Proof.
  split; [|split; [|split; [|split]]].
  - intros pre ws q post Hpre Hpost Hws Hq. unfold strip_unit.
    rewrite of_to_string.
    rewrite (sub_empty_behind_comma pre ws q (comma :: post) Hpre Hws Hq eq_refl).
    rewrite sub_empty_comma.
    rewrite (sub_empty_no_match UNIT_PATTERNS post (no_marker_no_match _ Hpost)).
    reflexivity.
  - intros pre ws q Hpre Hws Hq. unfold strip_unit.
    rewrite of_to_string.
    pose proof (sub_empty_behind_comma pre ws q [] Hpre Hws Hq eq_refl) as H.
    rewrite app_nil_r in H. rewrite H, sub_empty_nil. reflexivity.
  - reflexivity.
  - vm_compute. discriminate.
  - reflexivity.
Qed.

Lemma suite_200_is_qualifier : qualifier (PyStr.of_string "Suite 200").
Proof.
  apply (labelled "Suite" (PyStr.of_string " ") (PyStr.of_string "200")).
  - cbn. auto.
  - discriminate.
  - repeat constructor.
  - discriminate.
  - repeat constructor.
Qed.

Lemma strip_unit_doubles_comma_witness :
  strip_unit
    (PyStr.to_string
       (PyStr.of_string "123 Main St" ++ comma :: PyStr.of_string " "
        ++ PyStr.of_string "Suite 200" ++ comma :: PyStr.of_string " Austin, TX"))
  = "123 Main St,, Austin, TX"
  /\ strip_unit
       (PyStr.to_string
          (PyStr.of_string "  500 Oak Ave" ++ comma :: PyStr.of_string " "
           ++ PyStr.of_string "Suite 200"))
     = "500 Oak Ave".
Proof.
  destruct strip_unit_doubles_comma as (Hmid & Hend & _).
  split.
  - rewrite (Hmid (PyStr.of_string "123 Main St") (PyStr.of_string " ")
               (PyStr.of_string "Suite 200") (PyStr.of_string " Austin, TX")
               eq_refl eq_refl);
      [reflexivity | repeat constructor | exact suite_200_is_qualifier].
  - rewrite (Hend (PyStr.of_string "  500 Oak Ave") (PyStr.of_string " ")
               (PyStr.of_string "Suite 200") eq_refl);
      [reflexivity | repeat constructor | exact suite_200_is_qualifier].
Defined.

End CommaFacts.

(** ** The geocoder and the two endpoints *)

Module GeocodeFacts.

Import Re ReFacts StripUnit.

Definition empty_address_detail : string :=
  "Address became empty after removing unit/suite number. Please provide a full street address.".

Definition timeout_detail : string :=
  "Geocoding service timed out. Please try again.".

(** Both endpoints, asked about [a] while the geocoder answers [n], raise
    [e], whatever the two providers would say. *)
Definition both_raise (rt : runtime) (a : string) (n : reply) (e : exn) : Prop :=
  geocode rt {| req_address := a |} n = Raise e
  /\ forall r echo nwis,
       report rt {| address := a; radius_miles := r |} n echo nwis = Raise e.

Lemma geocode_step_raises rt a n e :
  geocode_step rt a n = Raise e -> both_raise rt a n e.
Proof.
  intros H. split.
  - unfold geocode. cbn [req_address]. now rewrite H.
  - intros r echo nwis. unfold report. cbn [address]. now rewrite H.
Qed.

Lemma strip_unit_of_qualifier ws q :
  run PyStr.is_space ws -> qualifier q -> strip_unit (PyStr.to_string (ws ++ q)) = "".
Proof.
  intros Hws Hq. unfold strip_unit.
  rewrite list_ascii_of_string_of_list_ascii.
  pose proof (qualifier_matches ws q [] Hws Hq eq_refl) as Hm.
  assert (Hne : ws ++ q <> []).
  { pose proof (qualifier_nonempty q Hq). destruct ws; [assumption|discriminate]. }
  pose proof (sub_empty_leftmost UNIT_PATTERNS (ws ++ q) [] Hne Hm [] eq_refl) as Hs.
  cbn [app] in Hs. rewrite app_nil_r in Hs. rewrite Hs. reflexivity.
Qed.

(** X4: an address that is nothing but a unit qualifier (with or without
    white space before it) is refused with status 400 by both endpoints
    before the geocoder is asked: the answer does not depend on any reply. *)
Theorem unit_only_address_rejected rt ws q n :
  run PyStr.is_space ws -> qualifier q ->
  both_raise rt (PyStr.to_string (ws ++ q)) n (HTTPException 400 empty_address_detail).
Proof.
  intros Hws Hq. apply geocode_step_raises.
  unfold geocode_step, geocode_address.
  rewrite (strip_unit_of_qualifier ws q Hws Hq). reflexivity.
Qed.

Lemma apt_4_is_qualifier : qualifier (PyStr.of_string "Apt 4B").
Proof.
  apply (labelled "Apt" (PyStr.of_string " ") (PyStr.of_string "4B")).
  - cbn. auto.
  - discriminate.
  - repeat constructor.
  - discriminate.
  - repeat constructor.
Qed.

Lemma unit_only_address_rejected_witness :
  both_raise Sample.platform " Apt 4B" (Responds (Sample.ok_json Sample.hit))
    (HTTPException 400 empty_address_detail).
Proof.
  apply (unit_only_address_rejected Sample.platform (PyStr.of_string " ")
           (PyStr.of_string "Apt 4B")).
  - repeat constructor.
  - exact apt_4_is_qualifier.
Defined.

Lemma nonempty_eqb s : s <> "" -> (s =? "")%string = false.
Proof. intros H. apply String.eqb_neq. exact H. Qed.

(** X5: with an address that survives [strip_unit], a geocoder that times
    out gives status 504 on both endpoints; any other transport error, and
    any answer with a status outside 2xx, gives status 502 with the text of
    the error in the detail. *)
Theorem geocoder_failure_status rt a :
  strip_unit a <> "" ->
  both_raise rt a (Fails TimeoutException) (HTTPException 504 timeout_detail)
  /\ (forall msg,
        both_raise rt a (Fails (HTTPError msg))
          (HTTPException 502 ("Geocoding service error: " ++ msg)))
  /\ (forall resp,
        raise_for_status resp <> Ret tt ->
        both_raise rt a (Responds resp)
          (HTTPException 502 ("Geocoding service error: " ++ reason resp))).
Proof.
  intros Ha. apply nonempty_eqb in Ha.
  split; [|split].
  - apply geocode_step_raises. unfold geocode_step, geocode_address.
    now rewrite Ha.
  - intros msg. apply geocode_step_raises. unfold geocode_step, geocode_address.
    now rewrite Ha.
  - intros resp Hs. apply geocode_step_raises.
    unfold geocode_step, geocode_address. rewrite Ha.
    unfold raise_for_status in *.
    destruct ((200 <=? status_code resp) && (status_code resp <? 300))%Z;
      [contradiction|reflexivity].
Qed.

Definition unavailable : response :=
  {| status_code := 503; reason := "Server error '503 Service Unavailable'";
     text := ""; json := None |}.

Lemma geocoder_failure_status_witness :
  both_raise Sample.platform "1 Main St, Apt 4" (Fails TimeoutException)
    (HTTPException 504 timeout_detail)
  /\ both_raise Sample.platform "1 Main St, Apt 4" (Responds unavailable)
       (HTTPException 502
          "Geocoding service error: Server error '503 Service Unavailable'").
Proof.
  assert (H : strip_unit "1 Main St, Apt 4" <> "") by (vm_compute; discriminate).
  destruct (geocoder_failure_status Sample.platform "1 Main St, Apt 4" H)
    as (H1 & _ & H3).
  split; [exact H1|]. apply (H3 unavailable). discriminate.
Defined.

(** X6: two answers of the geocoder that no [except] clause covers.  A 2xx
    answer whose body is no JSON leaves both endpoints with a [ValueError],
    and one whose first match has no ["lat"] with a [KeyError]; neither is
    turned into an [HTTPException]. *)
Theorem geocoder_malformed_answer rt a resp :
  strip_unit a <> "" -> raise_for_status resp = Ret tt ->
  (json resp = None -> both_raise rt a (Responds resp) ValueError)
  /\ (forall d rest,
        json resp = Some (PList (PDict d :: rest)) -> Py.lookup "lat" d = None ->
        both_raise rt a (Responds resp) KeyError).
Proof.
  intros Ha Hs. apply nonempty_eqb in Ha. split.
  - intros Hj. apply geocode_step_raises.
    unfold geocode_step, geocode_address, resp_json. now rewrite Ha, Hs, Hj.
  - intros d rest Hj Hl. apply geocode_step_raises.
    unfold geocode_step, geocode_address, resp_json. rewrite Ha, Hs, Hj.
    cbn [bind Py.truthy negb Py.first Py.getitem]. now rewrite Hl.
Qed.

Lemma geocoder_malformed_answer_witness :
  both_raise Sample.platform "1 Main St, Apt 4"
    (Responds (Sample.ok_text "<html>busy</html>")) ValueError
  /\ both_raise Sample.platform "1 Main St, Apt 4"
       (Responds (Sample.ok_json (PList [PDict [("lon", PStr "2.5")]]))) KeyError.
Proof.
  assert (H : strip_unit "1 Main St, Apt 4" <> "") by (vm_compute; discriminate).
  split.
  - apply (proj1 (geocoder_malformed_answer Sample.platform "1 Main St, Apt 4"
                    (Sample.ok_text "<html>busy</html>") H eq_refl)).
    reflexivity.
  - apply (proj2 (geocoder_malformed_answer Sample.platform "1 Main St, Apt 4"
                    (Sample.ok_json (PList [PDict [("lon", PStr "2.5")]])) H eq_refl)
             [("lon", PStr "2.5")] []); reflexivity.
Defined.

(** What [geocode_address] returned is about the address it was given. *)
Lemma geocode_address_ret rt a n geo :
  geocode_address rt a n = Ret geo ->
  original_address geo = a /\ cleaned_address geo = strip_unit a.
Proof.
  unfold geocode_address.
  destruct (strip_unit a =? "")%string; [discriminate|].
  destruct n as [e|r]; [discriminate|]. intros H.
  repeat match type of H with
         | bind ?c _ = Ret _ => destruct c; cbn [bind] in H; [|discriminate]
         | (if ?b then _ else _) = Ret _ => destruct b; [discriminate|]
         end.
  injection H as <-. auto.
Qed.

Lemma geocode_step_ret rt a n geo :
  geocode_step rt a n = Ret geo -> geocode_address rt a n = Ret geo.
Proof.
  unfold geocode_step. destruct (geocode_address rt a n) as [g|e].
  - now intros [= ->].
  - destruct e; discriminate.
Qed.

(** X7: the two endpoints agree.  When [/geocode] and [/report] both answer
    for one address and one reply of the geocoder, the report carries the
    cleaned address and the coordinates that [/geocode] returns; and
    [/geocode] returns the address as it was sent next to [strip_unit] of
    it. *)
Theorem endpoints_agree rt a r n echo nwis g resp :
  geocode rt {| req_address := a |} n = Ret g ->
  report rt {| address := a; radius_miles := r |} n echo nwis = Ret resp ->
  res_original_address g = a
  /\ res_cleaned_address g = strip_unit a
  /\ rep_address resp = res_cleaned_address g
  /\ rep_latitude resp = res_latitude g
  /\ rep_longitude resp = res_longitude g.
Proof.
  unfold geocode, report. cbn [req_address address radius_miles].
  destruct (geocode_step rt a n) as [geo|] eqn:Hg; [|discriminate].
  cbn [bind]. intros H1 H2.
  destruct (geocode_address_ret _ _ _ _ (geocode_step_ret _ _ _ _ Hg)) as [Ho Hc].
  destruct (str_field (display_name geo)); [|discriminate]. cbn [bind] in H1.
  injection H1 as <-. cbn.
  repeat match type of H2 with
         | bind ?c _ = Ret _ => destruct c; cbn [bind] in H2; [|discriminate]
         end.
  injection H2 as <-. cbn. auto.
Qed.

Lemma endpoints_agree_witness :
  exists g resp,
    geocode Sample.platform {| req_address := "1 Main St, Apt 4" |}
      (Responds (Sample.ok_json Sample.hit)) = Ret g
    /\ ReportFacts.sample_report = Ret resp
    /\ res_cleaned_address g = "1 Main St"
    /\ rep_address resp = res_cleaned_address g
    /\ rep_latitude resp = res_latitude g.
Proof.
  destruct (geocode Sample.platform {| req_address := "1 Main St, Apt 4" |}
              (Responds (Sample.ok_json Sample.hit))) as [g|] eqn:Hg;
    [|vm_compute in Hg; discriminate].
  destruct ReportFacts.sample_report as [resp|] eqn:Hr;
    [|vm_compute in Hr; discriminate].
  exists g, resp.
  destruct (endpoints_agree Sample.platform "1 Main St, Apt 4" 3 _ _ _ g resp Hg Hr)
    as (_ & Hc & Ha & Hlat & _).
  repeat split; assumption.
Defined.

(** X8: what [/geocode] makes of a 2xx answer whose first match carries a
    latitude and a longitude that [float] accepts.  Only the first match
    counts; a match with no ["display_name"] gets the empty name; a name
    that is no string (a JSON [null], a number) fails the response model. *)
Theorem geocode_first_match rt a resp d rest vlat vlon flat flon :
  strip_unit a <> "" -> raise_for_status resp = Ret tt ->
  json resp = Some (PList (PDict d :: rest)) ->
  Py.lookup "lat" d = Some vlat -> py_float rt vlat = Ret flat ->
  Py.lookup "lon" d = Some vlon -> py_float rt vlon = Ret flon ->
  let answer dn :=
    Ret {| res_original_address := a; res_cleaned_address := strip_unit a;
           res_latitude := flat; res_longitude := flon;
           res_display_name := dn |} in
  geocode rt {| req_address := a |} (Responds resp) =
    match Py.lookup "display_name" d with
    | None => answer ""
    | Some (PStr s) => answer s
    | Some _ => Raise ValidationError
    end.
Proof.
  intros Ha Hs Hj Hlat Hflat Hlon Hflon answer. subst answer.
  apply nonempty_eqb in Ha.
  unfold geocode, geocode_step, geocode_address, resp_json.
  cbn [req_address]. rewrite Ha, Hs, Hj.
  cbn [bind Py.truthy negb Py.first Py.getitem Py.get]. rewrite Hlat. cbn [bind].
  rewrite Hflat. cbn [bind]. rewrite Hlon. cbn [bind]. rewrite Hflon. cbn [bind].
  destruct (Py.lookup "display_name" d) as [[]|]; reflexivity.
Qed.

Lemma geocode_first_match_witness :
  geocode Sample.platform {| req_address := "1 Main St, Apt 4" |}
    (Responds (Sample.ok_json
       (PList [PDict [("lat", PStr "1.5"); ("lon", PStr "2.5");
                      ("display_name", PNone)];
               PDict []])))
  = Raise ValidationError.
Proof.
  apply (geocode_first_match Sample.platform "1 Main St, Apt 4"
           (Sample.ok_json
              (PList [PDict [("lat", PStr "1.5"); ("lon", PStr "2.5");
                             ("display_name", PNone)];
                      PDict []]))
           [("lat", PStr "1.5"); ("lon", PStr "2.5"); ("display_name", PNone)]
           [PDict []] (PStr "1.5") (PStr "2.5") 1.5%float 2.5%float);
    try reflexivity.
  vm_compute. discriminate.
Defined.

End GeocodeFacts.

(** ** Directions and the distance of a point from itself *)

Module CompassFacts.

Import FloatFacts GeoMathFacts DistanceFacts RankingFacts BoundingBoxFacts.

Local Open Scope float_scope.

Lemma cardinal_direction_In rt lat1 lon1 lat2 lon2 d :
  cardinal_direction rt lat1 lon1 lat2 lon2 = Ret d -> In d directions.
Proof.
  unfold cardinal_direction. intros H.
  destruct (math_atan2 rt (lon2 - lon1) (lat2 - lat1)) as [t|]; [|discriminate].
  cbn [bind] in H.
  destruct (PyFloat.round_int _) as [n|]; [|discriminate].
  cbn [bind] in H. injection H as <-.
  change (In (nth (Z.to_nat (n mod 8)) directions "N"%string) directions).
  apply nth_In. change (List.length directions) with 8%nat.
  pose proof (Z.mod_pos_bound n 8 ltac:(lia)). lia.
Qed.

(** X9: a direction that [cardinal_direction] returns is one of the eight
    names of the compass. *)
Theorem cardinal_direction_is_compass_point rt lat1 lon1 lat2 lon2 d :
  cardinal_direction rt lat1 lon1 lat2 lon2 = Ret d -> In d directions.
Proof.
  unfold cardinal_direction. intros H.
  destruct (math_atan2 rt (lon2 - lon1) (lat2 - lat1)) as [t|]; [|discriminate].
  cbn [bind] in H.
  destruct (PyFloat.round_int (PyFloat.float_rem (PyFloat.degrees t + 360) 360 / 45))
    as [n|]; [|discriminate].
  cbn [bind] in H. injection H as <-.
  assert (Hi : (Z.to_nat (n mod 8) < 8)%nat)
    by (pose proof (Z.mod_pos_bound n 8 ltac:(lia)); lia).
  change (In (nth (Z.to_nat (n mod 8)) directions "N"%string) directions).
  now apply nth_In.
Qed.

Lemma cardinal_direction_is_compass_point_witness :
  In "N"%string directions.
Proof.
  apply (cardinal_direction_is_compass_point Sample.platform 30 (-97) 30 (-97)).
  reflexivity.
Defined.

Lemma get_sign_pos d : (0 <? d) = true -> PrimFloat.get_sign d = false.
Proof.
  intros H. destruct (ltb_true_not_nan _ _ H) as [N0 Nd].
  rewrite ltb_ord in H by assumption. apply Z.ltb_lt in H.
  change (ord 0) with 0%Z in H.
  unfold PrimFloat.get_sign, PrimFloat.is_zero.
  rewrite (eqb_ord d PrimFloat.zero) by assumption. change (ord PrimFloat.zero) with 0%Z.
  replace (ord d =? 0)%Z with false by (symmetry; apply Z.eqb_neq; lia).
  rewrite (ltb_ord d PrimFloat.zero) by assumption. change (ord PrimFloat.zero) with 0%Z.
  apply Z.ltb_ge. lia.
Qed.

Lemma get_sign_neg d : (d <? 0) = true -> PrimFloat.get_sign d = true.
Proof.
  intros H. destruct (ltb_true_not_nan _ _ H) as [Nd N0].
  pose proof H as H'. rewrite ltb_ord in H' by assumption. apply Z.ltb_lt in H'.
  change (ord 0) with 0%Z in H'.
  unfold PrimFloat.get_sign, PrimFloat.is_zero.
  rewrite (eqb_ord d PrimFloat.zero) by assumption. change (ord PrimFloat.zero) with 0%Z.
  replace (ord d =? 0)%Z with false by (symmetry; apply Z.eqb_neq; lia).
  exact H.
Qed.

(** [atan2(+0.0, d)] for a number [d] that is not zero: CPython answers it
    without the C library. *)
Lemma m_atan2_on_axis f d :
  PrimFloat.is_nan d = false ->
  PyFloat.m_atan2 f 0 d = if PrimFloat.get_sign d then PyFloat.pi else 0.
Proof.
  intros Hd. unfold PyFloat.m_atan2. rewrite Hd.
  change (PrimFloat.is_nan 0) with false. cbn [orb].
  change (PrimFloat.is_infinity 0) with false. cbv iota.
  change (0 =? 0) with true. rewrite orb_true_r.
  destruct (PrimFloat.get_sign d); reflexivity.
Qed.

(** X10: two points on one meridian.  When the longitudes are the same
    finite number, the direction is "N" if the latitude difference is
    positive and "S" if it is negative, whatever the platform. *)
Theorem cardinal_direction_on_meridian rt lat1 lat2 lon :
  PyFloat.is_finite lon = true ->
  ((0 <? lat2 - lat1) = true ->
     cardinal_direction rt lat1 lon lat2 lon = Ret "N"%string)
  /\ ((lat2 - lat1 <? 0) = true ->
        cardinal_direction rt lat1 lon lat2 lon = Ret "S"%string).
Proof.
  intros Hlon. unfold cardinal_direction, math_atan2, PyFloat.math_2.
  rewrite (sub_diag lon Hlon). split; intros H.
  - destruct (ltb_true_not_nan _ _ H) as [_ Hn].
    rewrite (m_atan2_on_axis _ _ Hn), (get_sign_pos _ H).
    vm_compute. reflexivity.
  - destruct (ltb_true_not_nan _ _ H) as [Hn _].
    rewrite (m_atan2_on_axis _ _ Hn), (get_sign_neg _ H).
    vm_compute. reflexivity.
Qed.

Lemma cardinal_direction_on_meridian_witness :
  cardinal_direction Sample.platform 30 (-97) 31 (-97) = Ret "N"%string
  /\ cardinal_direction Sample.platform 30 (-97) 29 (-97) = Ret "S"%string.
Proof.
  split.
  - apply (proj1 (cardinal_direction_on_meridian Sample.platform 30 31 (-97) eq_refl)).
    reflexivity.
  - apply (proj2 (cardinal_direction_on_meridian Sample.platform 30 29 (-97) eq_refl)).
    reflexivity.
Defined.

Lemma finite_mul_zero x :
  PyFloat.is_finite x = true -> x * 0 = 0 \/ x * 0 = -0.
Proof.
  intros H. apply is_finite_Prim2SF in H.
  rewrite <- (SF2Prim_Prim2SF (x * 0)), mul_spec.
  change (Prim2SF 0) with (S754_zero false).
  destruct (Prim2SF x) as [[]|[]| |[] m e]; try contradiction; cbn; auto.
Qed.

(** X11: the distance from a point to itself is [0.0], for a latitude in
    [-90, 90] and a finite longitude, on a platform whose sine of zero is
    zero, whose cosine of a finite angle lies in [-1, 1] and whose [round]
    leaves zero alone. *)
Theorem haversine_same_point rt lat lon :
  libm_sin rt 0 = 0 ->
  (forall x, PyFloat.is_finite x = true ->
             (PrimFloat.abs (libm_cos rt x) <=? 1) = true) ->
  round_ndigits rt 0 2 = 0 ->
  between (-90) lat 90 -> PyFloat.is_finite lon = true ->
  haversine rt lat lon lat lon = Ret 0.
Proof.
  intros Hsin Hcos Hround Hlat Hlon.
  assert (Flat : PyFloat.is_finite lat = true).
  { destruct Hlat as [H1 H2]. destruct (leb_between _ _ _ H1 H2) as [N O].
    now apply (ord_bounded_finite lat (-90) 90). }
  rewrite haversine_hav. rewrite (sub_diag lat Flat), (sub_diag lon Hlon).
  assert (Hhav : hav rt 0 = Ret 0).
  { unfold hav, math_sin, PyFloat.math_1.
    change (PyFloat.radians 0 / 2) with 0. rewrite Hsin. reflexivity. }
  rewrite Hhav. cbn [bind].
  pose proof (Hcos _ (radians_finite lat Hlat)) as Hc.
  set (c := libm_cos rt (PyFloat.radians lat)) in *.
  assert (Hmc : math_cos rt (PyFloat.radians lat) = Ret c).
  { apply math_1_finite. now apply abs_le_one_finite. }
  rewrite Hmc. cbn [bind]. cbv zeta.
  assert (Ha : 0 + c * c * 0 = 0).
  { destruct (finite_mul_zero (c * c) (mul_bounded_finite c c Hc Hc)) as [-> | ->];
      reflexivity. }
  rewrite Ha.
  change (PyFloat.math_sqrt 0) with (@Ret float 0). cbn [bind].
  change (PyFloat.math_sqrt (1 - 0)) with (@Ret float 1). cbn [bind].
  assert (Ht : math_atan2 rt 0 1 = Ret 0) by reflexivity.
  rewrite Ht. cbn [bind].
  change (3958.8 * (2 * 0)) with 0. unfold py_round.
  change (PyFloat.is_finite 0) with true. cbv iota. now rewrite Hround.
Qed.

Lemma haversine_same_point_witness :
  haversine Sample.platform 30 (-97) 30 (-97) = Ret 0.
Proof.
  apply haversine_same_point; try reflexivity.
  - intros x Hx. cbn [libm_cos Sample.platform].
    assert (E : x * 0 = 0 \/ x * 0 = -0) by now apply finite_mul_zero.
    destruct E as [-> | ->]; reflexivity.
  - split; reflexivity.
Defined.

End CompassFacts.

(** ** What the two adapters hand on *)

Module ProviderFacts.

Import FloatFacts DistanceFacts BoundingBoxFacts.

(** *** The facility registry *)

(** A record as [fetch_epa_echo] builds it: two floats that are not both
    zero, under the source "EPA_ECHO". *)
Definition epa_record (x : raw) : Prop :=
  source x = "EPA_ECHO"
  /\ exists a b, latitude x = PFloat a /\ longitude x = PFloat b
                 /\ ((a =? 0)%float && (b =? 0)%float) = false.

Lemma epa_row_some rt row x : epa_row rt row = Ret (Some x) -> epa_record x.
Proof.
  unfold epa_row, try_except. intros H.
  destruct (get2 row "Lat83" "FacLat" (PInt 0)) as [vlat|e]; cbn [bind] in H;
    [|destruct (caught_value_type e); discriminate].
  destruct (py_float rt vlat) as [a|e]; cbn [bind] in H;
    [|destruct (caught_value_type e); discriminate].
  destruct (get2 row "Long83" "FacLong" (PInt 0)) as [vlon|e]; cbn [bind] in H;
    [|destruct (caught_value_type e); discriminate].
  destruct (py_float rt vlon) as [b|e]; cbn [bind] in H;
    [|destruct (caught_value_type e); discriminate].
  destruct ((a =? 0)%float && (b =? 0)%float) eqn:Hz; [discriminate|].
  destruct (get2 row "FacName" "Name" (PStr "Unknown Facility")) as [nm|e];
    cbn [bind] in H; [|destruct (caught_value_type e); discriminate].
  destruct (get2 row "RegistryID" "FacId" (PStr "N/A")) as [rid|e];
    cbn [bind] in H; [|destruct (caught_value_type e); discriminate].
  injection H as <-. split; [reflexivity|]. exists a, b. auto.
Qed.

Lemma epa_loop_Forall rt (P : raw -> Prop) :
  (forall row x, epa_row rt row = Ret (Some x) -> P x) ->
  forall rows acc l, Forall P acc -> epa_loop rt rows acc = Ret l -> Forall P l.
Proof.
  intros HP. induction rows as [|row rows IH]; intros acc l Hacc H.
  - injection H as <-. exact Hacc.
  - cbn [epa_loop] in H.
    destruct (epa_row rt row) as [[x|]|] eqn:Hr; cbn [bind] in H; [| |discriminate].
    + apply (IH _ _ (proj2 (Forall_app _ _ _)
                       (conj Hacc (Forall_cons _ (HP _ _ Hr) (Forall_nil _)))) H).
    + apply (IH _ _ Hacc H).
Qed.

Lemma fetch_epa_echo_Forall rt (P : raw -> Prop) lat lon r echo l :
  (forall row x, epa_row rt row = Ret (Some x) -> P x) ->
  fetch_epa_echo rt lat lon r echo = Ret l -> Forall P l.
Proof.
  intros HP. unfold fetch_epa_echo.
  destruct (epa_data echo) as [data|]; [|intros [= <-]; constructor].
  destruct (epa_rows data) as [rows|]; [|discriminate]. cbn [bind].
  destruct (Py.iter rows) as [items|]; [|discriminate]. cbn [bind].
  apply (epa_loop_Forall rt P HP); constructor.
Qed.

(** X12: every record that [fetch_epa_echo] returns carries the source
    "EPA_ECHO" and two float coordinates that are not both zero: a row at
    (0, 0), which is also what a row with no coordinates defaults to, is
    never handed on. *)
Theorem fetch_epa_echo_records rt lat lon r echo l :
  fetch_epa_echo rt lat lon r echo = Ret l -> Forall epa_record l.
Proof.
  apply fetch_epa_echo_Forall. intros row x. apply epa_row_some.
Qed.

Lemma fetch_epa_echo_records_witness :
  exists l,
    fetch_epa_echo Sample.platform 1.5 2.5 3
      (Responds (Sample.ok_json Sample.registry)) = Ret l
    /\ List.length l = 1%nat /\ Forall epa_record l.
Proof.
  destruct (fetch_epa_echo Sample.platform 1.5 2.5 3
              (Responds (Sample.ok_json Sample.registry))) as [l|] eqn:H;
    [|vm_compute in H; discriminate].
  exists l. split; [reflexivity|]. split.
  - vm_compute in H. injection H as <-. reflexivity.
  - exact (fetch_epa_echo_records _ _ _ _ _ _ H).
Defined.

(** The exceptions that get out of [fetch_epa_echo]. *)
Definition escapes_epa (e : exn) : Prop :=
  e = AttributeError \/ e = TypeError \/ e = OverflowError.

Lemma get_raises v k d e : Py.get v k d = Raise e -> e = AttributeError.
Proof. destruct v; cbn; congruence. Qed.

Lemma get2_raises row k1 k2 d e :
  get2 row k1 k2 d = Raise e -> e = AttributeError.
Proof.
  unfold get2. destruct (Py.get row k2 d) as [inner|e'] eqn:H1; cbn [bind].
  - apply get_raises.
  - intros [= <-]. now apply get_raises in H1.
Qed.

Lemma py_float_raises rt v e :
  py_float rt v = Raise e -> e = ValueError \/ e = TypeError \/ e = OverflowError.
Proof.
  destruct v; cbn; try (intros [= <-]; auto).
  - unfold PyFloat.of_int. destruct (PrimFloat.is_infinity _); intros [= <-]; auto.
  - destruct (float_of_str rt s); intros [= <-]; auto.
Qed.

Lemma epa_row_raises rt row e :
  epa_row rt row = Raise e -> e = AttributeError \/ e = OverflowError.
Proof.
  unfold epa_row, try_except.
  repeat match goal with
  | |- context [bind (get2 row ?a ?b ?c) _] =>
      let H := fresh "H" in
      destruct (get2 row a b c) eqn:H; cbn [bind];
        [|apply get2_raises in H; subst; cbn; intros [= <-]; auto]
  | |- context [bind (py_float rt ?v) _] =>
      let H := fresh "H" in
      destruct (py_float rt v) eqn:H; cbn [bind];
        [|apply py_float_raises in H as [->|[->| ->]]; cbn;
          first [discriminate | intros [= <-]; auto]]
  | |- context [if ?b then Ret None else _] => destruct b; [discriminate|]
  end.
  discriminate.
Qed.

Lemma epa_loop_raises rt rows :
  forall acc e, epa_loop rt rows acc = Raise e -> e = AttributeError \/ e = OverflowError.
Proof.
  induction rows as [|row rows IH]; intros acc e H; [discriminate|].
  cbn [epa_loop] in H.
  destruct (epa_row rt row) as [x|e'] eqn:Hr; cbn [bind] in H.
  - eapply IH; eassumption.
  - injection H as <-. now apply epa_row_raises in Hr.
Qed.

Lemma epa_rows_raises data e : epa_rows data = Raise e -> e = AttributeError.
Proof.
  unfold epa_rows, or_else.
  destruct (Py.get data "Results" (PDict [])) as [results|e1] eqn:H1; cbn [bind];
    [|intros [= <-]; now apply get_raises in H1].
  destruct (Py.get results "Facilities" (PList [])) as [facs|e2] eqn:H2; cbn [bind];
    [|intros [= <-]; now apply get_raises in H2].
  destruct (Py.truthy facs); [discriminate|].
  destruct (Py.get results "FacilityList" (PList [])) as [lst|e3] eqn:H3; cbn [bind];
    [|intros [= <-]; now apply get_raises in H3].
  destruct (Py.truthy lst); discriminate.
Qed.

(** X13: the exceptions that leave [fetch_epa_echo] are [AttributeError]
    (the body, its ["Results"] or a row is no JSON object), [TypeError] (the
    rows cannot be iterated) and [OverflowError] (an integer coordinate
    beyond the floats).  No error of the request, no bad status and no
    [ValueError] ever does: those end in the empty list or in a skipped
    row. *)
Theorem fetch_epa_echo_escapes rt lat lon r echo e :
  fetch_epa_echo rt lat lon r echo = Raise e -> escapes_epa e.
Proof.
  unfold fetch_epa_echo, escapes_epa.
  destruct (epa_data echo) as [data|]; [|discriminate].
  destruct (epa_rows data) as [rows|e1] eqn:H1; cbn [bind];
    [|intros [= <-]; apply epa_rows_raises in H1; auto].
  destruct (Py.iter rows) as [items|e2] eqn:H2; cbn [bind].
  - intros H. apply epa_loop_raises in H as [->| ->]; auto.
  - intros [= <-]. destruct rows; cbn in H2; try discriminate;
      injection H2 as <-; auto.
Qed.

(** A coordinate that is the integer 10^400. *)
Definition huge_row : pyval :=
  PDict [("Lat83", PInt (10 ^ 400)); ("Long83", PFloat 1)].

Lemma fetch_epa_echo_escapes_witness :
  fetch_epa_echo Sample.platform 1.5 2.5 3
    (Responds (Sample.ok_json
       (PDict [("Results", PDict [("Facilities", PList [huge_row])])])))
  = Raise OverflowError
  /\ escapes_epa OverflowError.
Proof.
  assert (H : fetch_epa_echo Sample.platform 1.5 2.5 3
                (Responds (Sample.ok_json
                   (PDict [("Results", PDict [("Facilities", PList [huge_row])])])))
              = Raise OverflowError) by (vm_compute; reflexivity).
  split; [exact H|].
  exact (fetch_epa_echo_escapes _ _ _ _ _ _ H).
Defined.


(** X14: which rows [fetch_epa_echo] reads from a JSON object.  With no
    ["Results"] there are none; a non-empty ["Facilities"] list is read and
    ["FacilityList"] is then not looked at; ["FacilityList"] is read only
    when ["Facilities"] is missing or empty. *)
Theorem fetch_epa_echo_rows rt lat lon r resp d :
  raise_for_status resp = Ret tt -> json resp = Some (PDict d) ->
  let fetched := fetch_epa_echo rt lat lon r (Responds resp) in
  (Py.lookup "Results" d = None -> fetched = Ret [])
  /\ (forall res,
        Py.lookup "Results" d = Some (PDict res) ->
        let facs := Py.lookup "Facilities" res in
        let lst := Py.lookup "FacilityList" res in
        (forall x xs, facs = Some (PList (x :: xs)) ->
                      fetched = epa_loop rt (x :: xs) [])
        /\ (facs = None \/ facs = Some (PList []) ->
            (forall rows, lst = Some (PList rows) -> fetched = epa_loop rt rows [])
            /\ (lst = None -> fetched = Ret []))).
Proof.
  intros Hs Hj fetched. subst fetched.
  unfold fetch_epa_echo, epa_data, resp_json. rewrite Hs, Hj. cbn [bind].
  unfold epa_rows, or_else. cbn [Py.get bind]. split.
  - intros ->. reflexivity.
  - intros res ->. cbn [Py.get bind]. split.
    + intros x xs ->. reflexivity.
    + intros Hf. split.
      * intros rows ->. destruct Hf as [-> | ->]; cbn [Py.truthy bind];
          destruct rows; reflexivity.
      * intros ->. destruct Hf as [-> | ->]; reflexivity.
Qed.

Lemma fetch_epa_echo_rows_witness :
  fetch_epa_echo Sample.platform 1.5 2.5 3
    (Responds (Sample.ok_json
       (PDict [("Results",
                PDict [("Facilities", PList []);
                       ("FacilityList",
                        PList [PDict [("FacLat", PFloat 1); ("FacLong", PFloat 2)]])])])))
  = epa_loop Sample.platform
      [PDict [("FacLat", PFloat 1); ("FacLong", PFloat 2)]] [].
Proof.
  refine (proj1 (proj2 (proj2 (fetch_epa_echo_rows Sample.platform 1.5 2.5 3
                   (Sample.ok_json
                      (PDict [("Results",
                               PDict [("Facilities", PList []);
                                      ("FacilityList",
                                       PList [PDict [("FacLat", PFloat 1);
                                                     ("FacLong", PFloat 2)]])])]))
                   _ eq_refl eq_refl) _ eq_refl) (or_intror eq_refl)) _ eq_refl).
Defined.

(** *** The monitoring sites *)

(** A record as [fetch_usgs] builds it: a name and an identifier that are
    texts, a float latitude, and a longitude that is a float or, for a row
    of five fields, the integer zero; never the point (0, 0). *)
Definition usgs_record (x : raw) : Prop :=
  source x = "USGS"
  /\ (exists nm rid, name x = PStr nm /\ registry_id x = PStr rid)
  /\ exists a, latitude x = PFloat a
       /\ ((longitude x = PInt 0 /\ (a =? 0)%float = false)
           \/ exists b, longitude x = PFloat b
                        /\ ((a =? 0)%float && (b =? 0)%float) = false).

Lemma usgs_site_some rt parts x : usgs_site rt parts = Ret (Some x) -> usgs_record x.
Proof.
  unfold usgs_site, try_except, float_of_text. intros H.
  destruct (float_of_str rt (PyStr.to_string (nth 4 parts []))) as [a|];
    cbn [bind caught_value_index] in H; [|discriminate].
  destruct (5 <? List.length parts)%nat; cbn [bind] in H.
  - destruct (float_of_str rt (PyStr.to_string (nth 5 parts []))) as [b|];
      cbn [bind caught_value_index] in H; [|discriminate].
    destruct ((a =? 0)%float && (b =? 0)%float) eqn:Hz; [discriminate|].
    injection H as <-. split; [reflexivity|].
    split; [do 2 eexists; split; reflexivity|].
    exists a. split; [reflexivity|]. right. exists b. auto.
  - destruct (a =? 0)%float eqn:Hz; cbn [andb] in H; [discriminate|].
    injection H as <-. split; [reflexivity|].
    split; [do 2 eexists; split; reflexivity|].
    exists a. split; [reflexivity|]. left. auto.
Qed.

Lemma usgs_loop_Forall rt (P : raw -> Prop) :
  (forall parts x, usgs_site rt parts = Ret (Some x) -> P x) ->
  forall lines header_seen acc l,
    Forall P acc -> usgs_loop rt lines header_seen acc = Ret l -> Forall P l.
Proof.
  intros HP. induction lines as [|line lines IH]; intros header_seen acc l Hacc H.
  - injection H as <-. exact Hacc.
  - cbn [usgs_loop] in H.
    destruct (PyStr.startswith "#" line); [eauto|].
    destruct (negb header_seen); [eauto|].
    destruct (is_dtype_row (PyStr.split "009" line)); [eauto|].
    destruct (List.length (PyStr.split "009" line) <? 5)%nat; [eauto|].
    destruct (usgs_site rt (PyStr.split "009" line)) as [[x|]|] eqn:Hr;
      cbn [bind] in H; [| |discriminate].
    + apply (IH _ _ _ (proj2 (Forall_app _ _ _)
                         (conj Hacc (Forall_cons _ (HP _ _ Hr) (Forall_nil _)))) H).
    + eauto.
Qed.

Lemma fetch_usgs_Forall rt (P : raw -> Prop) lat lon r nwis l :
  (forall parts x, usgs_site rt parts = Ret (Some x) -> P x) ->
  fetch_usgs rt lat lon r nwis = Ret l -> Forall P l.
Proof.
  intros HP. unfold fetch_usgs.
  destruct (_bounding_box rt lat lon r); [|discriminate]. cbn [bind].
  destruct (usgs_text nwis) as [t|]; [|intros [= <-]; constructor].
  apply (usgs_loop_Forall rt P HP); constructor.
Qed.

(** X15: every record that [fetch_usgs] returns carries the source "USGS",
    a name and an identifier that are texts, a float latitude and a
    longitude that is a float or the integer 0 of a five-field row; a site
    at (0, 0) is never handed on. *)
Theorem fetch_usgs_records rt lat lon r nwis l :
  fetch_usgs rt lat lon r nwis = Ret l -> Forall usgs_record l.
Proof.
  apply fetch_usgs_Forall. intros parts x. apply usgs_site_some.
Qed.

Lemma fetch_usgs_records_witness :
  exists l,
    fetch_usgs Sample.platform 1.5 2.5 3 (Responds (Sample.ok_text Sample.sites))
    = Ret l
    /\ List.length l = 2%nat /\ Forall usgs_record l.
Proof.
  destruct (fetch_usgs Sample.platform 1.5 2.5 3
              (Responds (Sample.ok_text Sample.sites))) as [l|] eqn:H;
    [|vm_compute in H; discriminate].
  exists l. split; [reflexivity|]. split.
  - vm_compute in H. injection H as <-. reflexivity.
  - exact (fetch_usgs_records _ _ _ _ _ _ H).
Defined.

(** X16: a comment line, wherever it stands among the lines of the answer
    (before the header, between two sites), changes nothing in what the loop
    of [fetch_usgs] collects. *)
Theorem usgs_comment_lines_ignored rt comment :
  PyStr.startswith "#" comment = true ->
  forall before after header_seen sites,
    usgs_loop rt (before ++ comment :: after) header_seen sites
    = usgs_loop rt (before ++ after) header_seen sites.
Proof.
  intros Hc. induction before as [|line before IH]; intros after header_seen sites.
  - cbn [app usgs_loop]. now rewrite Hc.
  - cbn [app usgs_loop].
    destruct (PyStr.startswith "#" line); [apply IH|].
    destruct (negb header_seen); [apply IH|].
    destruct (is_dtype_row (PyStr.split "009" line)); [apply IH|].
    destruct (List.length (PyStr.split "009" line) <? 5)%nat; [apply IH|].
    destruct (usgs_site rt (PyStr.split "009" line)) as [x|e]; cbn [bind];
      [apply IH|reflexivity].
Qed.

Lemma usgs_comment_lines_ignored_witness :
  usgs_loop Sample.platform
    (PyStr.splitlines (PyStr.of_string Sample.sites) ++
     PyStr.of_string "# retrieved: today" :: PyStr.splitlines (PyStr.of_string Sample.sites))
    false []
  = usgs_loop Sample.platform
      (PyStr.splitlines (PyStr.of_string Sample.sites) ++
       PyStr.splitlines (PyStr.of_string Sample.sites))
      false [].
Proof.
  apply usgs_comment_lines_ignored. reflexivity.
Defined.

(** X17: for a latitude in [-90, 90], on a platform whose cosine of a
    finite angle is finite, [fetch_usgs] raises nothing, whatever the
    provider does; a request that fails, or an answer with a status outside
    2xx, gives the empty list. *)
Theorem fetch_usgs_never_raises rt lat lon r :
  (forall x, PyFloat.is_finite x = true ->
             PyFloat.is_finite (libm_cos rt x) = true) ->
  between (-90) lat 90 ->
  (forall nwis, exists l, fetch_usgs rt lat lon r nwis = Ret l)
  /\ (forall e, fetch_usgs rt lat lon r (Fails e) = Ret [])
  /\ (forall resp, raise_for_status resp <> Ret tt ->
                   fetch_usgs rt lat lon r (Responds resp) = Ret []).
Proof.
  intros Hcos Hlat.
  assert (Hbox : exists box, _bounding_box rt lat lon r = Ret box).
  { unfold _bounding_box, bounding_box_values.
    pose proof (math_1_finite (libm_cos rt) _ (Hcos _ (radians_finite lat Hlat))) as Hc.
    fold (math_cos rt (PyFloat.radians lat)) in Hc. rewrite Hc. cbn [bind]. eauto. }
  destruct Hbox as [box Hbox]. split; [|split].
  - intros nwis. exact (AdapterFacts.fetch_usgs_returns rt lat lon r nwis box Hbox).
  - intros e. exact (AdapterFacts.fetch_usgs_transport_failure rt lat lon r e box Hbox).
  - intros resp Hs. unfold fetch_usgs, usgs_text. rewrite Hbox. cbn [bind].
    destruct (raise_for_status resp) as [[]|]; [contradiction|reflexivity].
Qed.

Lemma fetch_usgs_never_raises_witness :
  (forall nwis, exists l, fetch_usgs Sample.platform 30 (-97) 3 nwis = Ret l)
  /\ (forall e, fetch_usgs Sample.platform 30 (-97) 3 (Fails e) = Ret [])
  /\ (forall resp, raise_for_status resp <> Ret tt ->
                   fetch_usgs Sample.platform 30 (-97) 3 (Responds resp) = Ret []).
Proof.
  apply fetch_usgs_never_raises.
  - exact sample_cos_finite.
  - split; reflexivity.
Defined.

End ProviderFacts.

(** ** What a report holds *)

Module ResponseFacts.

Import FloatFacts DistanceFacts RankingFacts BoundingBoxFacts ProviderFacts CompassFacts.

(** The facility registry answering with an empty JSON object, and the
    monitoring sites answering with an empty text. *)
Definition empty_registry : response :=
  {| status_code := 200; reason := ""; text := "{}"; json := Some (PDict []) |}.

Definition empty_sites : response :=
  {| status_code := 200; reason := ""; text := ""; json := None |}.

Lemma fetch_epa_echo_failed rt lat lon r echo :
  epa_data echo = None ->
  fetch_epa_echo rt lat lon r echo
  = fetch_epa_echo rt lat lon r (Responds empty_registry).
Proof. intros H. unfold fetch_epa_echo. now rewrite H. Qed.

Lemma fetch_usgs_failed rt lat lon r nwis :
  usgs_text nwis = None ->
  fetch_usgs rt lat lon r nwis = fetch_usgs rt lat lon r (Responds empty_sites).
Proof. intros H. unfold fetch_usgs. now rewrite H. Qed.

Lemma report_same_providers rt req n echo echo' nwis nwis' :
  (forall lat lon, fetch_epa_echo rt lat lon (radius_miles req) echo
                   = fetch_epa_echo rt lat lon (radius_miles req) echo') ->
  (forall lat lon, fetch_usgs rt lat lon (radius_miles req) nwis
                   = fetch_usgs rt lat lon (radius_miles req) nwis') ->
  report rt req n echo nwis = report rt req n echo' nwis'.
Proof.
  intros He Hu. unfold report.
  destruct (geocode_step rt (address req) n) as [geo|]; [|reflexivity].
  cbn [bind]. now rewrite He, Hu.
Qed.

(** X18: a provider that fails is a provider that has nothing.  Whatever
    the request and the other replies, [report] gives the same outcome when
    the facility registry does not answer, or answers outside 2xx, or with a
    body that is no JSON, as when it answers with an empty JSON object; and
    the same outcome when the monitoring sites do not answer, or answer
    outside 2xx, as when they answer with an empty text. *)
Theorem failed_provider_is_empty_provider rt req n :
  (forall e nwis,
      report rt req n (Fails e) nwis = report rt req n (Responds empty_registry) nwis)
  /\ (forall resp nwis,
        raise_for_status resp <> Ret tt \/ json resp = None ->
        report rt req n (Responds resp) nwis
        = report rt req n (Responds empty_registry) nwis)
  /\ (forall e echo,
        report rt req n echo (Fails e) = report rt req n echo (Responds empty_sites))
  /\ (forall resp echo,
        raise_for_status resp <> Ret tt ->
        report rt req n echo (Responds resp)
        = report rt req n echo (Responds empty_sites)).
Proof.
  split; [|split; [|split]].
  - intros e nwis. apply report_same_providers; [|reflexivity].
    intros lat lon. now apply fetch_epa_echo_failed.
  - intros resp nwis H. apply report_same_providers; [|reflexivity].
    intros lat lon. apply fetch_epa_echo_failed. unfold epa_data, resp_json.
    destruct (raise_for_status resp) as [[]|]; [|reflexivity]. cbn [bind].
    destruct H as [H|H]; [contradiction | now rewrite H].
  - intros e echo. apply report_same_providers; [reflexivity|].
    intros lat lon. now apply fetch_usgs_failed.
  - intros resp echo H. apply report_same_providers; [reflexivity|].
    intros lat lon. apply fetch_usgs_failed. unfold usgs_text.
    destruct (raise_for_status resp) as [[]|]; [contradiction|reflexivity].
Qed.

Lemma failed_provider_is_empty_provider_witness :
  report Sample.platform Sample.request (Responds (Sample.ok_json Sample.hit))
    (Fails TimeoutException) (Responds (Sample.ok_text Sample.sites))
  = report Sample.platform Sample.request (Responds (Sample.ok_json Sample.hit))
      (Responds empty_registry) (Responds (Sample.ok_text Sample.sites)).
Proof.
  apply (proj1 (failed_provider_is_empty_provider Sample.platform Sample.request
                  (Responds (Sample.ok_json Sample.hit)))).
Defined.

(** *** What a report holds *)

Lemma report_parts rt req n echo nwis resp :
  report rt req n echo nwis = Ret resp ->
  exists geo epa_results usgs_results found,
    geocode_step rt (address req) n = Ret geo
    /\ fetch_usgs rt (geo_latitude geo) (geo_longitude geo) (radius_miles req) nwis
       = Ret usgs_results
    /\ fetch_epa_echo rt (geo_latitude geo) (geo_longitude geo) (radius_miles req) echo
       = Ret epa_results
    /\ place_all rt (geo_latitude geo) (geo_longitude geo) (radius_miles req)
         (keep_first rt (epa_results ++ usgs_results)) [] = Ret found
    /\ resp = {| rep_address := cleaned_address geo;
                 rep_latitude := geo_latitude geo;
                 rep_longitude := geo_longitude geo;
                 rep_radius_miles := radius_miles req;
                 total_findings := Z.of_nat (List.length (sort_by_distance found));
                 facilities := sort_by_distance found |}.
Proof.
  unfold report. intros H.
  destruct (geocode_step rt (address req) n) as [geo|] eqn:Hg; [|discriminate].
  cbn [bind] in H.
  destruct (fetch_usgs rt _ _ _ nwis) as [usgs_results|] eqn:Hu; [|discriminate].
  cbn [bind] in H.
  destruct (fetch_epa_echo rt _ _ _ echo) as [epa_results|] eqn:He; [|discriminate].
  cbn [bind] in H.
  destruct (merge_loop rt _ _ _ _ [] []) as [found|] eqn:Hm; [|discriminate].
  cbn [bind] in H. injection H as <-.
  rewrite DedupFacts.merge_loop_first_occurrences,
    DedupFacts.first_occurrences_nil in Hm.
  exists geo, epa_results, usgs_results, found. auto 10.
Qed.

Lemma place_all_In rt lat lon radius f :
  forall l acc found,
    place_all rt lat lon radius l acc = Ret found ->
    (In f found <->
     In f acc \/ exists r, In r l /\ place rt lat lon radius r = Ret (Some f)).
Proof.
  induction l as [|r l IH]; intros acc found H.
  - injection H as <-. split; [auto|]. intros [H|(r & [] & _)]. exact H.
  - cbn [place_all] in H.
    destruct (place rt lat lon radius r) as [o|] eqn:Hp; cbn [bind] in H;
      [|discriminate].
    rewrite (IH _ _ H). split.
    + intros [Hin|(r' & Hr' & Hp')].
      * destruct o as [g|]; [|auto].
        apply in_app_or in Hin as [Hin|[<-|[]]]; [auto|].
        right. exists r. split; [now left|exact Hp].
      * right. exists r'. split; [now right|exact Hp'].
    + intros [Hin|(r' & [<-|Hr'] & Hp')].
      * left. destruct o; [apply in_or_app|]; auto.
      * left. rewrite Hp in Hp'. injection Hp' as ->. apply in_or_app. right. now left.
      * right. eauto.
Qed.

Lemma place_all_length rt lat lon radius :
  forall l acc found,
    place_all rt lat lon radius l acc = Ret found ->
    (List.length found <= List.length acc + List.length l)%nat.
Proof.
  induction l as [|r l IH]; intros acc found H.
  - injection H as <-. cbn. lia.
  - cbn [place_all] in H.
    destruct (place rt lat lon radius r) as [o|]; cbn [bind] in H; [|discriminate].
    apply IH in H. destruct o; rewrite ?length_app in H; cbn [List.length] in *; lia.
Qed.

Lemma keep_first_length rt l : (List.length (keep_first rt l) <= List.length l)%nat.
Proof.
  induction l as [|r l IH]; [reflexivity|]. cbn [keep_first List.length].
  pose proof (filter_length_le (fun x => negb (same_key rt r x)) (keep_first rt l)).
  lia.
Qed.

(** X19: which facilities a report lists.  A facility is in the report
    exactly when it is what a record of the two providers gives that is the
    first of its key and does not lie beyond the radius; [total_findings]
    counts the facilities listed, and there are never more of them than
    records the providers returned. *)
Theorem report_facilities_exact rt req n echo nwis resp :
  report rt req n echo nwis = Ret resp ->
  exists geo epa_results usgs_results,
    geocode_step rt (address req) n = Ret geo
    /\ fetch_epa_echo rt (geo_latitude geo) (geo_longitude geo) (radius_miles req) echo
       = Ret epa_results
    /\ fetch_usgs rt (geo_latitude geo) (geo_longitude geo) (radius_miles req) nwis
       = Ret usgs_results
    /\ (forall f,
          In f (facilities resp) <->
          exists r, In r (keep_first rt (epa_results ++ usgs_results))
                    /\ place rt (geo_latitude geo) (geo_longitude geo)
                         (radius_miles req) r = Ret (Some f))
    /\ total_findings resp = Z.of_nat (List.length (facilities resp))
    /\ (List.length (facilities resp)
        <= List.length epa_results + List.length usgs_results)%nat.
Proof.
  intros H.
  destruct (report_parts _ _ _ _ _ _ H)
    as (geo & epa & usgs & found & Hg & Hu & He & Hp & ->).
  exists geo, epa, usgs. cbn [facilities total_findings].
  split; [exact Hg|]. split; [exact He|]. split; [exact Hu|].
  pose proof (sort_by_distance_perm found) as Hperm.
  split; [|split].
  - intros f. split.
    + intros Hin. apply (Permutation_in _ (Permutation_sym Hperm)) in Hin.
      apply (place_all_In rt _ _ _ f _ _ _ Hp) in Hin as [[]|Hex]. exact Hex.
    + intros Hex. apply (Permutation_in _ Hperm).
      apply (place_all_In rt _ _ _ f _ _ _ Hp). now right.
  - reflexivity.
  - rewrite <- (Permutation_length Hperm).
    pose proof (place_all_length _ _ _ _ _ _ _ Hp) as Hl.
    pose proof (keep_first_length rt (epa ++ usgs)) as Hk.
    rewrite length_app in Hk. cbn [List.length] in Hl. lia.
Qed.


Lemma place_some rt lat lon radius r f :
  place rt lat lon radius r = Ret (Some f) ->
  name r = PStr (fac_name f) /\ registry_id r = PStr (fac_registry_id f)
  /\ as_number (latitude r) = Ret (fac_latitude f)
  /\ as_number (longitude r) = Ret (fac_longitude f)
  /\ fac_source f = source r
  /\ haversine rt lat lon (fac_latitude f) (fac_longitude f) = Ret (distance_miles f)
  /\ cardinal_direction rt lat lon (fac_latitude f) (fac_longitude f)
     = Ret (direction f).
Proof.
  unfold place.
  destruct (as_number (latitude r)) as [rlat|]; [|discriminate]. cbn [bind].
  destruct (as_number (longitude r)) as [rlon|]; [|discriminate]. cbn [bind].
  destruct (haversine rt lat lon rlat rlon) as [dist|] eqn:Hd; [|discriminate].
  cbn [bind]. destruct (radius <? dist)%float; [discriminate|].
  destruct (cardinal_direction rt lat lon rlat rlon) as [dir|] eqn:Hdir;
    [|discriminate].
  cbn [bind].
  destruct (name r) as [| | | |nm| |]; try discriminate. cbn [str_field bind].
  destruct (registry_id r) as [| | | |rid| |]; try discriminate. cbn [str_field bind].
  intros [= <-]. cbn. auto 10.
Qed.

Lemma keep_first_In rt r l : In r (keep_first rt l) -> In r l.
Proof.
  revert r. induction l as [|a l IH]; intros r; [auto|].
  cbn [keep_first]. intros [<-|H]; [now left|].
  apply filter_In in H as [H _]. right. auto.
Qed.

(** A record of one of the two providers. *)
Definition provider_record (x : raw) : Prop := epa_record x \/ usgs_record x.

Lemma provider_record_place rt lat lon radius r f :
  provider_record r -> place rt lat lon radius r = Ret (Some f) ->
  (fac_source f = "EPA_ECHO" \/ fac_source f = "USGS")
  /\ ((fac_latitude f =? 0)%float && (fac_longitude f =? 0)%float) = false.
Proof.
  intros Hr Hp.
  destruct (place_some _ _ _ _ _ _ Hp) as (_ & _ & Hlat & Hlon & Hsrc & _).
  destruct Hr as [(Hs & a & b & Ha & Hb & Hz)
                 |(Hs & _ & a & Ha & [(Hb & Hz)|(b & Hb & Hz)])];
    rewrite Hsrc, Hs; (split; [auto|]);
    rewrite Ha, Hb in *; cbn in Hlat, Hlon;
    injection Hlat as <-; injection Hlon as <-; try exact Hz.
  now rewrite Hz.
Qed.

(** X20: what a report says about each facility.  Its distance and its
    direction are [haversine] and [cardinal_direction] from the coordinates
    of the report to its own; the direction is one of the eight names of the
    compass, the source is "EPA_ECHO" or "USGS", and the facility does not
    sit at (0, 0). *)
Theorem report_facility_fields rt req n echo nwis resp :
  report rt req n echo nwis = Ret resp ->
  Forall (fun f =>
            haversine rt (rep_latitude resp) (rep_longitude resp)
              (fac_latitude f) (fac_longitude f) = Ret (distance_miles f)
            /\ cardinal_direction rt (rep_latitude resp) (rep_longitude resp)
                 (fac_latitude f) (fac_longitude f) = Ret (direction f)
            /\ In (direction f) directions
            /\ (fac_source f = "EPA_ECHO" \/ fac_source f = "USGS")
            /\ ((fac_latitude f =? 0)%float && (fac_longitude f =? 0)%float) = false)
         (facilities resp).
Proof.
  intros H.
  destruct (report_parts _ _ _ _ _ _ H)
    as (geo & epa & usgs & found & Hg & Hu & He & Hp & ->).
  cbn [facilities rep_latitude rep_longitude].
  apply Forall_forall. intros f Hin.
  apply (Permutation_in _ (Permutation_sym (sort_by_distance_perm found))) in Hin.
  apply (place_all_In rt _ _ _ f _ _ _ Hp) in Hin as [[]|(r & Hr & Hpl)].
  apply keep_first_In in Hr.
  assert (Hrec : provider_record r).
  { apply in_app_or in Hr as [Hr|Hr].
    - left. pose proof (fetch_epa_echo_Forall rt epa_record _ _ _ _ _
                          (epa_row_some rt) He) as Hall.
      rewrite Forall_forall in Hall. auto.
    - right. pose proof (fetch_usgs_Forall rt usgs_record _ _ _ _ _
                           (usgs_site_some rt) Hu) as Hall.
      rewrite Forall_forall in Hall. auto. }
  destruct (provider_record_place _ _ _ _ _ _ Hrec Hpl) as [Hsrc Hz].
  destruct (place_some _ _ _ _ _ _ Hpl) as (_ & _ & _ & _ & _ & Hd & Hdir).
  repeat split; try assumption.
  exact (cardinal_direction_In _ _ _ _ _ _ Hdir).
Qed.

Lemma report_facility_fields_witness :
  exists resp,
    ReportFacts.sample_report = Ret resp
    /\ List.length (facilities resp) = 3%nat
    /\ Forall (fun f => In (direction f) directions
                        /\ (fac_source f = "EPA_ECHO" \/ fac_source f = "USGS"))
         (facilities resp).
Proof.
  destruct ReportFacts.sample_report as [resp|] eqn:H;
    [|vm_compute in H; discriminate].
  exists resp. split; [reflexivity|]. split.
  - vm_compute in H. injection H as <-. reflexivity.
  - eapply Forall_impl; [|exact (report_facility_fields _ _ _ _ _ _ H)].
    cbn beta. intros f (_ & _ & Hd & Hs & _). auto.
Defined.

Lemma report_facilities_exact_witness :
  exists resp,
    ReportFacts.sample_report = Ret resp
    /\ total_findings resp = 3%Z
    /\ total_findings resp = Z.of_nat (List.length (facilities resp)).
Proof.
  destruct ReportFacts.sample_report as [resp|] eqn:H;
    [|vm_compute in H; discriminate].
  exists resp. split; [reflexivity|].
  destruct (report_facilities_exact _ _ _ _ _ _ H)
    as (geo & epa & usgs & _ & _ & _ & _ & Ht & _).
  split; [|exact Ht].
  vm_compute in H. injection H as <-. reflexivity.
Defined.


Lemma place_all_each rt lat lon radius :
  forall l acc found,
    place_all rt lat lon radius l acc = Ret found ->
    Forall (fun r => exists o, place rt lat lon radius r = Ret o) l.
Proof.
  induction l as [|r l IH]; intros acc found H; [constructor|].
  cbn [place_all] in H.
  destruct (place rt lat lon radius r) as [o|] eqn:Hp; cbn [bind] in H; [|discriminate].
  constructor; [eauto|]. eapply IH. eassumption.
Qed.

(** X21: nothing within the radius is left out.  In a report that is
    returned, every record that is the first of its key and whose distance
    from the geocoded point is at most the radius (the radius itself
    included) is listed, with that distance and with its own coordinates. *)
Theorem report_lists_records_within_radius rt req n echo nwis resp :
  report rt req n echo nwis = Ret resp ->
  exists geo epa_results usgs_results,
    geocode_step rt (address req) n = Ret geo
    /\ fetch_epa_echo rt (geo_latitude geo) (geo_longitude geo) (radius_miles req) echo
       = Ret epa_results
    /\ fetch_usgs rt (geo_latitude geo) (geo_longitude geo) (radius_miles req) nwis
       = Ret usgs_results
    /\ forall r rlat rlon d,
         In r (keep_first rt (epa_results ++ usgs_results)) ->
         as_number (latitude r) = Ret rlat ->
         as_number (longitude r) = Ret rlon ->
         haversine rt (geo_latitude geo) (geo_longitude geo) rlat rlon = Ret d ->
         (d <=? radius_miles req)%float = true ->
         exists f, In f (facilities resp)
                   /\ name r = PStr (fac_name f)
                   /\ registry_id r = PStr (fac_registry_id f)
                   /\ fac_latitude f = rlat /\ fac_longitude f = rlon
                   /\ distance_miles f = d /\ fac_source f = source r.
Proof.
  intros H.
  destruct (report_parts _ _ _ _ _ _ H)
    as (geo & epa & usgs & found & Hg & Hu & He & Hp & ->).
  exists geo, epa, usgs. cbn [facilities].
  split; [exact Hg|]. split; [exact He|]. split; [exact Hu|].
  intros r rlat rlon d Hr Hlat Hlon Hd Hle.
  pose proof (place_all_each _ _ _ _ _ _ _ Hp) as Hall.
  rewrite Forall_forall in Hall. destruct (Hall r Hr) as [o Ho].
  assert (Hsome : exists f, o = Some f).
  { unfold place in Ho. rewrite Hlat, Hlon in Ho. cbn [bind] in Ho.
    rewrite Hd in Ho. cbn [bind] in Ho.
    destruct (leb_true_not_nan _ _ Hle) as [Nd Nr].
    rewrite leb_ord in Hle by assumption. rewrite ltb_ord in Ho by assumption.
    apply Z.leb_le in Hle.
    replace (ord (radius_miles req) <? ord d)%Z with false in Ho
      by (symmetry; apply Z.ltb_ge; exact Hle).
    destruct (cardinal_direction rt _ _ rlat rlon); [|discriminate]. cbn [bind] in Ho.
    destruct (str_field (name r)); [|discriminate]. cbn [bind] in Ho.
    destruct (str_field (registry_id r)); [|discriminate]. cbn [bind] in Ho.
    injection Ho as <-. eauto. }
  destruct Hsome as [f ->]. exists f.
  destruct (place_some _ _ _ _ _ _ Ho) as (Hn & Hi & Hla & Hlo & Hs & Hd' & _).
  rewrite Hlat in Hla. injection Hla as Hla.
  rewrite Hlon in Hlo. injection Hlo as Hlo.
  subst rlat rlon. rewrite Hd in Hd'. injection Hd' as Hd'.
  split.
  - apply (Permutation_in _ (sort_by_distance_perm found)).
    apply (place_all_In rt _ _ _ f _ _ _ Hp). right. eauto.
  - auto 10.
Qed.

Lemma report_lists_records_within_radius_witness :
  exists resp,
    ReportFacts.sample_report = Ret resp
    /\ exists f, In f (facilities resp) /\ fac_name f = "Plant"%string.
Proof.
  destruct ReportFacts.sample_report as [resp|] eqn:H;
    [|vm_compute in H; discriminate].
  exists resp. split; [reflexivity|].
  destruct (report_lists_records_within_radius _ _ _ _ _ _ H)
    as (geo & epa & usgs & Hg & He & Hu & Hall).
  vm_compute in Hg. injection Hg as <-.
  vm_compute in He. injection He as <-.
  vm_compute in Hu. injection Hu as <-.
  destruct (Hall {| name := PStr "Plant"; registry_id := PStr "110000";
                    latitude := PFloat 1; longitude := PFloat 3;
                    source := "EPA_ECHO" |} 1%float 3%float 0%float)
    as (f & Hin & Hn & _); try reflexivity.
  - left. reflexivity.
  - exists f. split; [exact Hin|]. cbn in Hn. now injection Hn as <-.
Defined.

(** X22: a record that comes without an identifier is told apart by its
    name and its coordinates.  A registry row with neither ["RegistryID"]
    nor ["FacId"] gets the identifier "N/A", and a monitoring site with a
    blank second field the empty identifier; for both the key of the
    deduplication is the name, the latitude, the longitude and the
    source. *)
Theorem record_without_id_uses_fallback_key rt :
  (forall d x,
      Py.lookup "RegistryID" d = None -> Py.lookup "FacId" d = None ->
      epa_row rt (PDict d) = Ret (Some x) ->
      registry_id x = PStr "N/A"
      /\ dedup_key rt x
         = (fmt rt (name x) ++ "|" ++ fmt rt (latitude x) ++ "|"
            ++ fmt rt (longitude x) ++ "|" ++ "EPA_ECHO")%string)
  /\ (forall parts x,
        PyStr.strip (nth 1 parts []) = [] ->
        usgs_site rt parts = Ret (Some x) ->
        registry_id x = PStr ""
        /\ dedup_key rt x
           = (fmt rt (name x) ++ "|" ++ fmt rt (latitude x) ++ "|"
              ++ fmt rt (longitude x) ++ "|" ++ "USGS")%string).
Proof.
  split.
  - intros d x H1 H2 H.
    assert (Hid : registry_id x = PStr "N/A").
    { unfold epa_row, try_except in H.
      repeat match type of H with
      | context [bind ?c _] =>
          destruct c as [?|e] eqn:?; cbn [bind] in H;
            [|destruct (caught_value_type e); discriminate]
      | context [if ?b then Ret None else _] => destruct b; [discriminate|]
      end.
      injection H as <-. cbn [registry_id].
      match goal with
      | E : get2 (PDict d) "RegistryID" "FacId" _ = Ret ?v |- _ =>
          unfold get2 in E; cbn [Py.get bind] in E; rewrite H1, H2 in E;
            now injection E as <-
      end. }
    split; [exact Hid|].
    destruct (epa_row_some _ _ _ H) as [Hs _].
    unfold dedup_key. rewrite Hid, Hs. reflexivity.
  - intros parts x Hblank H.
    assert (Hid : registry_id x = PStr "").
    { unfold usgs_site, try_except in H.
      repeat match type of H with
      | context [bind ?c _] =>
          destruct c as [?|e] eqn:?; cbn [bind] in H;
            [|destruct (caught_value_index e); discriminate]
      | context [if ?b then Ret None else _] => destruct b; [discriminate|]
      end.
      injection H as <-. cbn [registry_id]. now rewrite Hblank. }
    split; [exact Hid|].
    destruct (usgs_site_some _ _ _ H) as [Hs _].
    unfold dedup_key. rewrite Hid, Hs. reflexivity.
Qed.

Lemma record_without_id_uses_fallback_key_witness :
  exists x,
    epa_row Sample.platform
      (PDict [("FacLat", PFloat 1); ("FacLong", PFloat 2); ("Name", PStr "Depot")])
    = Ret (Some x)
    /\ registry_id x = PStr "N/A"
    /\ name x = PStr "Depot".
Proof.
  destruct (epa_row Sample.platform
              (PDict [("FacLat", PFloat 1); ("FacLong", PFloat 2);
                      ("Name", PStr "Depot")])) as [[x|]|] eqn:H;
    try (vm_compute in H; discriminate).
  exists x. split; [reflexivity|]. split.
  - exact (proj1 (proj1 (record_without_id_uses_fallback_key Sample.platform)
                    [("FacLat", PFloat 1); ("FacLong", PFloat 2);
                     ("Name", PStr "Depot")] x eq_refl eq_refl H)).
  - vm_compute in H. injection H as <-. reflexivity.
Defined.


(** X23: with both providers down the report is still made, and is empty.
    When the geocoder has answered with a latitude in [-90, 90] and neither
    provider can be reached, [report] returns the cleaned address and the
    coordinates with no facility and [total_findings] 0 (on a platform whose
    cosine of a finite angle is finite). *)
Theorem report_with_providers_down rt req n geo e1 e2 :
  (forall x, PyFloat.is_finite x = true ->
             PyFloat.is_finite (libm_cos rt x) = true) ->
  geocode_step rt (address req) n = Ret geo ->
  between (-90) (geo_latitude geo) 90 ->
  report rt req n (Fails e1) (Fails e2)
  = Ret {| rep_address := cleaned_address geo;
           rep_latitude := geo_latitude geo;
           rep_longitude := geo_longitude geo;
           rep_radius_miles := radius_miles req;
           total_findings := 0;
           facilities := [] |}.
Proof.
  intros Hcos Hg Hlat. unfold report. rewrite Hg. cbn [bind].
  assert (Hu : fetch_usgs rt (geo_latitude geo) (geo_longitude geo) (radius_miles req)
                 (Fails e2) = Ret []).
  { unfold fetch_usgs, _bounding_box, bounding_box_values.
    pose proof (math_1_finite (libm_cos rt) _
                  (Hcos _ (radians_finite _ Hlat))) as Hc.
    fold (math_cos rt (PyFloat.radians (geo_latitude geo))) in Hc.
    rewrite Hc. reflexivity. }
  rewrite Hu. reflexivity.
Qed.

Lemma report_with_providers_down_witness :
  report Sample.platform Sample.request (Responds (Sample.ok_json Sample.hit))
    (Fails TimeoutException) (Fails (HTTPError "connection refused"))
  = Ret {| rep_address := "1 Main St";
           rep_latitude := 1.5;
           rep_longitude := 2.5;
           rep_radius_miles := 3;
           total_findings := 0;
           facilities := [] |}.
Proof.
  apply (report_with_providers_down Sample.platform Sample.request
           (Responds (Sample.ok_json Sample.hit))
           {| original_address := "1 Main St, Apt 4"; cleaned_address := "1 Main St";
              geo_latitude := 1.5; geo_longitude := 2.5;
              display_name := PStr "1 Main St" |}).
  - exact sample_cos_finite.
  - vm_compute. reflexivity.
  - split; reflexivity.
Defined.

(** *** Keys of the two providers *)

Lemma dedup_key_ends_with_source rt r :
  exists a, dedup_key rt r = (a ++ "|" ++ source r)%string.
Proof.
  unfold dedup_key.
  destruct (Py.truthy (registry_id r) && Py.ne_str (registry_id r) "N/A").
  - eauto.
  - exists (fmt rt (name r) ++ "|" ++ fmt rt (latitude r) ++ "|"
            ++ fmt rt (longitude r))%string.
    now rewrite !DedupFacts.append_assoc.
Qed.

Lemma keys_of_two_sources rt x y :
  source x = "EPA_ECHO" -> source y = "USGS" -> same_key rt x y = false.
Proof.
  intros Hx Hy. unfold same_key. apply String.eqb_neq. intros E.
  destruct (dedup_key_ends_with_source rt x) as [a Ha].
  destruct (dedup_key_ends_with_source rt y) as [b Hb].
  rewrite Ha, Hb, Hx, Hy in E.
  apply DedupFacts.split_at_last_bar in E as [_ E]; [discriminate| |]; reflexivity.
Qed.

Lemma filter_all {A} (p : A -> bool) l :
  (forall x, In x l -> p x = true) -> filter p l = l.
Proof.
  induction l as [|a l IH]; intros H; [reflexivity|]. cbn [filter].
  rewrite (H a (or_introl eq_refl)). f_equal. apply IH. intros x Hx. apply H. now right.
Qed.

Lemma keep_first_app rt l1 l2 :
  keep_first rt (l1 ++ l2)
  = keep_first rt l1
    ++ filter (fun x => negb (existsb (fun r => same_key rt r x) l1)) (keep_first rt l2).
Proof.
  induction l1 as [|a l1 IH].
  - cbn [app keep_first existsb negb]. symmetry. now apply filter_all.
  - cbn [app keep_first]. f_equal. rewrite IH, filter_app. f_equal.
    rewrite DedupFacts.filter_filter. apply filter_ext. intros x.
    cbn [existsb]. rewrite negb_orb. apply andb_comm.
Qed.

(** X24: the deduplication never crosses the providers.  A record of the
    facility registry and a record of the monitoring sites never have the
    same key, whatever their identifiers; so the records that stay are those
    that stay of the first list followed by those that stay of the second. *)
Theorem dedup_within_provider rt lat lon r echo nwis epa_results usgs_results :
  fetch_epa_echo rt lat lon r echo = Ret epa_results ->
  fetch_usgs rt lat lon r nwis = Ret usgs_results ->
  (forall x y, In x epa_results -> In y usgs_results ->
               dedup_key rt x <> dedup_key rt y)
  /\ keep_first rt (epa_results ++ usgs_results)
     = keep_first rt epa_results ++ keep_first rt usgs_results.
Proof.
  intros He Hu.
  pose proof (fetch_epa_echo_Forall rt epa_record _ _ _ _ _ (epa_row_some rt) He) as Ha.
  pose proof (fetch_usgs_Forall rt usgs_record _ _ _ _ _ (usgs_site_some rt) Hu) as Hb.
  rewrite Forall_forall in Ha, Hb.
  assert (Hk : forall x y, In x epa_results -> In y usgs_results ->
                           same_key rt x y = false).
  { intros x y Hx Hy. apply keys_of_two_sources.
    - exact (proj1 (Ha x Hx)).
    - exact (proj1 (Hb y Hy)). }
  split.
  - intros x y Hx Hy E. specialize (Hk x y Hx Hy). unfold same_key in Hk.
    rewrite E, String.eqb_refl in Hk. discriminate.
  - rewrite keep_first_app. f_equal. apply filter_all. intros y Hy.
    apply keep_first_In in Hy. apply negb_true_iff.
    destruct (existsb (fun r0 => same_key rt r0 y) epa_results) eqn:Ex; [|reflexivity].
    apply existsb_exists in Ex as (x & Hx & Hs). rewrite (Hk x y Hx Hy) in Hs.
    discriminate.
Qed.

Lemma dedup_within_provider_witness :
  exists epa usgs,
    fetch_epa_echo Sample.platform 1.5 2.5 3
      (Responds (Sample.ok_json Sample.registry)) = Ret epa
    /\ fetch_usgs Sample.platform 1.5 2.5 3
         (Responds (Sample.ok_text Sample.sites)) = Ret usgs
    /\ keep_first Sample.platform (epa ++ usgs)
       = keep_first Sample.platform epa ++ keep_first Sample.platform usgs.
Proof.
  destruct (fetch_epa_echo Sample.platform 1.5 2.5 3
              (Responds (Sample.ok_json Sample.registry))) as [epa|] eqn:He;
    [|vm_compute in He; discriminate].
  destruct (fetch_usgs Sample.platform 1.5 2.5 3
              (Responds (Sample.ok_text Sample.sites))) as [usgs|] eqn:Hu;
    [|vm_compute in Hu; discriminate].
  exists epa, usgs. split; [reflexivity|]. split; [reflexivity|].
  exact (proj2 (dedup_within_provider _ _ _ _ _ _ _ _ He Hu)).
Defined.

End ResponseFacts.

(** ** Requests, and coordinates that are no numbers *)

Module RobustnessFacts.

Import FloatFacts GeoMathFacts DistanceFacts RankingFacts BoundingBoxFacts.
Import ProviderFacts CompassFacts ResponseFacts AddressFacts.

Local Open Scope float_scope.

(** *** Requests *)

Lemma strip_blank l :
  Forall (fun c => PyStr.is_space c = true) l -> PyStr.strip l = [].
Proof.
  intros H. unfold PyStr.strip, PyStr.lstrip_by.
  assert (E : PyStr.dropwhile PyStr.is_space l = []).
  { induction H as [|c l Hc _ IH]; [reflexivity|]. cbn. now rewrite Hc. }
  now rewrite E.
Qed.

Lemma to_string_nonempty l : l <> [] -> PyStr.to_string l <> ""%string.
Proof. destruct l; [congruence|discriminate]. Qed.

(** X25: which requests pass validation.  A request that is accepted holds
    the address with the white space around it removed, which is not empty,
    and a radius above 0 and not above 50; the same address then passes as
    a [GeocodeRequest]. An address of white space only (or empty) is
    refused by both models, and so is a radius that is NaN. *)
Theorem request_validation a r :
  (forall req,
      validate_request a r = Ret req ->
      address req = PyStr.to_string (PyStr.strip (PyStr.of_string a))
      /\ address req <> ""%string
      /\ radius_miles req = r /\ (0 <? r) = true /\ (r <=? 50) = true
      /\ validate_geocode_request a = Ret {| req_address := address req |})
  /\ (Forall (fun c => PyStr.is_space c = true) (PyStr.of_string a) ->
      validate_request a r = Raise ValidationError
      /\ validate_geocode_request a = Raise ValidationError)
  /\ (PrimFloat.is_nan r = true -> validate_request a r = Raise ValidationError).
Proof.
  unfold validate_request, validate_geocode_request. split; [|split].
  - intros req.
    destruct (PyStr.strip (PyStr.of_string a)) as [|c l] eqn:Hs; [discriminate|].
    destruct (0 <? r) eqn:H0; [|discriminate].
    destruct (r <=? 50) eqn:H1; [|discriminate].
    cbn [andb]. intros [= <-]. cbn [address radius_miles].
    repeat split; try reflexivity. discriminate.
  - intros H. now rewrite (strip_blank _ H).
  - intros H. rewrite (ltb_nan_r 0 r H). cbn [andb].
    destruct (PyStr.strip (PyStr.of_string a)); reflexivity.
Qed.

Lemma request_validation_witness :
  exists req,
    validate_request "  1 Main St, Apt 4 " 3 = Ret req
    /\ address req = "1 Main St, Apt 4"%string
    /\ validate_geocode_request "  1 Main St, Apt 4 "
       = Ret {| req_address := "1 Main St, Apt 4" |}.
Proof.
  exists Sample.request.
  destruct (proj1 (request_validation "  1 Main St, Apt 4 " 3) Sample.request eq_refl)
    as (Ha & _ & _ & _ & _ & Hg).
  split; [reflexivity|]. split; [exact Ha | exact Hg].
Defined.

(** *** Coordinates that are no finite numbers *)

Section NonFinite.

Variable rt : runtime.

(** The sine of the C library has no value at an infinity, and none at a
    NaN. *)
Hypothesis sin_nonfinite :
  forall x, PyFloat.is_finite x = false -> PrimFloat.is_nan (libm_sin rt x) = true.

Lemma nonfinite_cases x :
  PyFloat.is_finite x = false ->
  Prim2SF x = S754_nan \/ exists s, Prim2SF x = S754_infinity s.
Proof.
  intros H. destruct (Prim2SF x) as [s|s| |s m e] eqn:E; eauto.
  - assert (F : PyFloat.is_finite x = true) by (apply is_finite_Prim2SF; now rewrite E).
    congruence.
  - assert (F : PyFloat.is_finite x = true) by (apply is_finite_Prim2SF; now rewrite E).
    congruence.
Qed.

Lemma nonfinite_of_Prim2SF x :
  (Prim2SF x = S754_nan \/ exists s, Prim2SF x = S754_infinity s) ->
  PyFloat.is_finite x = false.
Proof.
  intros H. destruct (PyFloat.is_finite x) eqn:F; [|reflexivity].
  apply is_finite_Prim2SF in F. destruct H as [E|[s E]]; rewrite E in F; contradiction.
Qed.

Lemma sub_nonfinite x y :
  PyFloat.is_finite x = false -> PyFloat.is_finite (x - y) = false.
Proof.
  intros H. apply nonfinite_of_Prim2SF. rewrite sub_spec.
  destruct (nonfinite_cases x H) as [-> | [s ->]]; [left; reflexivity|].
  destruct (Prim2SF y) as [s'|s'| |s' m e]; cbn; eauto.
  destruct s, s'; eauto.
Qed.

Lemma half_radians_nonfinite d :
  PyFloat.is_finite d = false ->
  PyFloat.is_finite (PyFloat.radians d / 2) = false
  /\ PrimFloat.is_nan (PyFloat.radians d / 2) = PrimFloat.is_nan d.
Proof.
  intros H. unfold PyFloat.radians.
  destruct (nonfinite_cases d H) as [E|[s E]].
  - assert (N : PrimFloat.is_nan d = true) by now apply is_nan_Prim2SF.
    apply is_nan_eq in N. subst d. split; reflexivity.
  - assert (E2 : Prim2SF (d * PyFloat.degToRad / 2) = S754_infinity (xorb (xorb s false) false)).
    { rewrite div_spec, mul_spec, E, Prim2SF_degToRad, Prim2SF_two. reflexivity. }
    split.
    + apply nonfinite_of_Prim2SF. eauto.
    + transitivity false.
      * apply not_nan_Prim2SF. rewrite E2. discriminate.
      * symmetry. apply not_nan_Prim2SF. rewrite E. discriminate.
Qed.

Lemma is_infinity_nan x : PrimFloat.is_nan x = true -> PrimFloat.is_infinity x = false.
Proof. intros H. apply is_nan_eq in H. subst x. reflexivity. Qed.

(** The haversine term of a difference that is no finite number: it is
    there only when the difference is a NaN, and is then a NaN itself. *)
Lemma hav_nonfinite d p :
  PyFloat.is_finite d = false -> hav rt d = Ret p ->
  PrimFloat.is_nan d = true /\ PrimFloat.is_nan p = true.
Proof.
  intros H. destruct (half_radians_nonfinite d H) as [Hf Hn].
  unfold hav, math_sin, PyFloat.math_1.
  pose proof (sin_nonfinite _ Hf) as Hs. rewrite Hs, Hn. cbn [andb].
  destruct (PrimFloat.is_nan d); cbn [negb]; [|discriminate].
  rewrite (is_infinity_nan _ Hs). cbn [andb bind].
  unfold float_pow2. rewrite Hs. intros [= <-]. auto.
Qed.

Lemma add_nan_l x y : PrimFloat.is_nan x = true -> PrimFloat.is_nan (x + y) = true.
Proof. intros H. apply is_nan_eq in H. subst x. apply is_nan_Prim2SF. now rewrite add_spec. Qed.

Lemma add_nan_r x y : PrimFloat.is_nan y = true -> PrimFloat.is_nan (x + y) = true.
Proof.
  intros H. apply is_nan_eq in H. subst y. apply is_nan_Prim2SF. rewrite add_spec.
  change (Prim2SF nan) with S754_nan. destruct (Prim2SF x); reflexivity.
Qed.

Lemma mul_nan_r x y : PrimFloat.is_nan y = true -> PrimFloat.is_nan (x * y) = true.
Proof.
  intros H. apply is_nan_eq in H. subst y. apply is_nan_Prim2SF. rewrite mul_spec.
  change (Prim2SF nan) with S754_nan. destruct (Prim2SF x); reflexivity.
Qed.

Lemma sub_nan_r x y : PrimFloat.is_nan y = true -> PrimFloat.is_nan (x - y) = true.
Proof.
  intros H. apply is_nan_eq in H. subst y. apply is_nan_Prim2SF. rewrite sub_spec.
  change (Prim2SF nan) with S754_nan. destruct (Prim2SF x); reflexivity.
Qed.

Lemma math_sqrt_nan a r :
  PrimFloat.is_nan a = true -> PyFloat.math_sqrt a = Ret r -> PrimFloat.is_nan r = true.
Proof.
  intros H. apply is_nan_eq in H. subst a. vm_compute. intros [= <-]. reflexivity.
Qed.

(** [haversine] towards a point with a coordinate that is no finite number:
    when it returns at all, one of the two differences is a NaN and so is
    the distance. *)
Lemma haversine_nonfinite lat1 lon1 lat2 lon2 d :
  PyFloat.is_finite lat2 = false \/ PyFloat.is_finite lon2 = false ->
  haversine rt lat1 lon1 lat2 lon2 = Ret d ->
  (PrimFloat.is_nan (lat2 - lat1) = true \/ PrimFloat.is_nan (lon2 - lon1) = true)
  /\ PrimFloat.is_nan d = true.
Proof.
  intros Hnf. rewrite haversine_hav.
  destruct (hav rt (lat2 - lat1)) as [p1|] eqn:Hp1; [|discriminate]. cbn [bind].
  destruct (math_cos rt (PyFloat.radians lat1)) as [c1|]; [|discriminate]. cbn [bind].
  destruct (math_cos rt (PyFloat.radians lat2)) as [c2|]; [|discriminate]. cbn [bind].
  destruct (hav rt (lon2 - lon1)) as [p2|] eqn:Hp2; [|discriminate]. cbn [bind].
  cbv zeta.
  assert (Hdiff : (PrimFloat.is_nan (lat2 - lat1) = true /\ PrimFloat.is_nan p1 = true)
                  \/ (PrimFloat.is_nan (lon2 - lon1) = true /\ PrimFloat.is_nan p2 = true)).
  { destruct Hnf as [H|H].
    - left. exact (hav_nonfinite _ _ (sub_nonfinite _ lat1 H) Hp1).
    - right. exact (hav_nonfinite _ _ (sub_nonfinite _ lon1 H) Hp2). }
  assert (Ha : PrimFloat.is_nan (p1 + c1 * c2 * p2) = true).
  { destruct Hdiff as [[_ H]|[_ H]];
      [now apply add_nan_l | apply add_nan_r; now apply mul_nan_r]. }
  destruct (PyFloat.math_sqrt (p1 + c1 * c2 * p2)) as [ra|] eqn:Hra; [|discriminate].
  cbn [bind].
  destruct (PyFloat.math_sqrt (1 - (p1 + c1 * c2 * p2))) as [rb|] eqn:Hrb;
    [|discriminate].
  cbn [bind].
  apply math_sqrt_nan in Hra; [|exact Ha].
  unfold math_atan2, PyFloat.math_2, PyFloat.m_atan2.
  rewrite Hra. rewrite orb_true_r. change (PrimFloat.is_nan nan) with true.
  cbv iota. cbn [negb andb bind]. intros [= <-]. split.
  - destruct Hdiff as [[H _]|[H _]]; auto.
  - reflexivity.
Qed.

(** A record with a coordinate that is no finite number does not get
    through step 4: it is neither placed nor dropped. *)
Lemma place_nonfinite lat lon radius r x o :
  as_number (latitude r) = Ret x \/ as_number (longitude r) = Ret x ->
  PyFloat.is_finite x = false ->
  place rt lat lon radius r <> Ret o.
Proof.
  intros Hx Hnf. unfold place.
  destruct (as_number (latitude r)) as [rlat|]; [|discriminate]. cbn [bind].
  destruct (as_number (longitude r)) as [rlon|]; [|discriminate]. cbn [bind].
  assert (Hc : PyFloat.is_finite rlat = false \/ PyFloat.is_finite rlon = false).
  { destruct Hx as [[= ->]|[= ->]]; auto. }
  destruct (haversine rt lat lon rlat rlon) as [dist|] eqn:Hd; [|discriminate].
  cbn [bind].
  destruct (haversine_nonfinite _ _ _ _ _ Hc Hd) as [Hdiff Hnan].
  rewrite (ltb_nan_r radius dist Hnan).
  destruct (cardinal_direction rt lat lon rlat rlon) as [dir|] eqn:Hdir;
    [|discriminate].
  exfalso. destruct (cardinal_direction_defined _ _ _ _ _ _ Hdir) as [H1 H2].
  destruct Hdiff; congruence.
Qed.

(** X26: one coordinate that is no finite number fails the whole report.
    When the geocoder and both providers have answered, and a record that
    is the first of its key has a latitude or a longitude that is a NaN or
    an infinity, [report] raises: the record is neither listed nor
    skipped. *)
Theorem report_fails_on_nonfinite_coordinate req n echo nwis geo epa_results usgs_results r x :
  geocode_step rt (address req) n = Ret geo ->
  fetch_epa_echo rt (geo_latitude geo) (geo_longitude geo) (radius_miles req) echo
    = Ret epa_results ->
  fetch_usgs rt (geo_latitude geo) (geo_longitude geo) (radius_miles req) nwis
    = Ret usgs_results ->
  In r (keep_first rt (epa_results ++ usgs_results)) ->
  as_number (latitude r) = Ret x \/ as_number (longitude r) = Ret x ->
  PyFloat.is_finite x = false ->
  exists e, report rt req n echo nwis = Raise e.
Proof.
  intros Hg He Hu Hr Hx Hnf.
  destruct (report rt req n echo nwis) as [resp|e] eqn:H; [|eauto].
  exfalso.
  destruct (report_parts _ _ _ _ _ _ H)
    as (geo' & epa' & usgs' & found & Hg' & Hu' & He' & Hp & _).
  rewrite Hg in Hg'. injection Hg' as <-.
  rewrite He in He'. injection He' as <-.
  rewrite Hu in Hu'. injection Hu' as <-.
  pose proof (place_all_each _ _ _ _ _ _ _ Hp) as Hall.
  rewrite Forall_forall in Hall. destruct (Hall r Hr) as [o Ho].
  exact (place_nonfinite _ _ _ _ _ _ Hx Hnf Ho).
Qed.

End NonFinite.

Lemma sample_sin_nonfinite x :
  PyFloat.is_finite x = false -> PrimFloat.is_nan (libm_sin Sample.platform x) = true.
Proof.
  intros H. cbn [libm_sin Sample.platform]. apply is_nan_Prim2SF. rewrite mul_spec.
  change (Prim2SF 0) with (S754_zero false).
  destruct (nonfinite_cases x H) as [-> | [s ->]]; reflexivity.
Qed.

(** A registry with one facility whose latitude is the JSON literal NaN. *)
Definition nan_registry : pyval :=
  PDict [("Results",
          PDict [("Facilities",
                  PList [PDict [("Lat83", PFloat nan); ("Long83", PFloat 2.5);
                                ("FacName", PStr "Plant");
                                ("RegistryID", PStr "110000")]])])].

Lemma report_fails_on_nonfinite_coordinate_witness :
  exists e,
    report Sample.platform Sample.request (Responds (Sample.ok_json Sample.hit))
      (Responds (Sample.ok_json nan_registry)) (Responds (Sample.ok_text Sample.sites))
    = Raise e.
Proof.
  eapply (report_fails_on_nonfinite_coordinate Sample.platform sample_sin_nonfinite
            Sample.request _ _ _ _ _ _ _ nan).
  - vm_compute. reflexivity.
  - vm_compute. reflexivity.
  - vm_compute. reflexivity.
  - left. reflexivity.
  - left. reflexivity.
  - reflexivity.
Defined.

End RobustnessFacts.
